(** * PostRenderer: a shallow embedding of [js/main.js]

    The script fetches [data/posts.json], renders every record into the
    element [#posts-container] and offers two filters over the rendered
    elements.  The development follows the file:

    - JavaScript values as they come out of [JSON.parse], with the
      conversions the script triggers ([ToBoolean], [ToString], property
      reads) and abrupt completions ([throw]);
    - the five-character escaper [escapeHtml];
    - the [Date] operations used by [formatDate];
    - the element tree and the [innerHTML] setter, for the markup subset
      the script emits;
    - [createPostElement], [renderPosts], [displayError], [loadPosts];
    - [filterByTag] and [searchPosts] as in-place updates of the document.

    Strings are Rocq [string]s: one [ascii] stands for one code unit, so
    the texts covered are those of code units below 256. *)

From Stdlib Require Import ZArith List String Ascii Bool Lia.
From Stdlib Require Import Numbers.DecimalString.
Import ListNotations.
Open Scope string_scope.

Set Warnings "-register-all".

(* ================================================================= *)
(** ** Characters and string helpers *)

(** The double quote, code 34. *)
Definition dquote : ascii := "034"%char.

(** Markup literals of the source are written with a backtick in the place
    of every double quote; [markup] puts the double quotes back.  No literal
    of [main.js] contains a backtick of its own. *)
Fixpoint markup (s : string) : string :=
  match s with
  | EmptyString => EmptyString
  | String c r => String (if Ascii.eqb c "`" then dquote else c) (markup r)
  end.

Definition chr (c : ascii) : string := String c EmptyString.

Fixpoint string_forallb (p : ascii -> bool) (s : string) : bool :=
  match s with
  | EmptyString => true
  | String c r => p c && string_forallb p r
  end.

(** [String.prototype.includes] (and the prefix test it is built from). *)
Fixpoint starts_with (p s : string) : bool :=
  match p, s with
  | EmptyString, _ => true
  | String a p', String b s' => Ascii.eqb a b && starts_with p' s'
  | String _ _, EmptyString => false
  end.

Fixpoint includes (s q : string) : bool :=
  starts_with q s ||
  match s with
  | EmptyString => false
  | String _ r => includes r q
  end.

(* ================================================================= *)
(** ** JavaScript values and completions *)

(** What [JSON.parse] can produce, plus [undefined] for absent properties.
    A number is carried as an integer: the script only tests numbers for
    truthiness, prints them and hands them to [Date]. *)
Inductive value : Type :=
| VUndefined
| VNull
| VBool (b : bool)
| VNumber (n : Z)
| VString (s : string)
| VArray (items : list value)
| VObject (props : list (string * value)).

Inductive error : Type :=
| TypeError (msg : string)
| SyntaxError (msg : string)
| Error (msg : string).

(** The outcome of evaluating an expression: a value or a [throw]. *)
Inductive completion (A : Type) : Type :=
| Normal (a : A)
| Throw (e : error).
Arguments Normal {A} a.
Arguments Throw {A} e.

Definition cbind {A B} (c : completion A) (k : A -> completion B) : completion B :=
  match c with
  | Normal a => k a
  | Throw e => Throw e
  end.

Declare Scope js_scope.
Delimit Scope js_scope with js.
Notation "x <~ c ;; k" := (cbind c (fun x => k))
  (at level 61, c at next level, right associativity) : js_scope.
Open Scope js_scope.

(** [ToBoolean]. *)
Definition truthy (v : value) : bool :=
  match v with
  | VUndefined | VNull => false
  | VBool b => b
  | VNumber n => negb (Z.eqb n 0)
  | VString s => negb (String.eqb s "")
  | VArray _ | VObject _ => true
  end.

Fixpoint assoc (k : string) (props : list (string * value)) : option value :=
  match props with
  | [] => None
  | (k', v) :: r => if String.eqb k k' then Some v else assoc k r
  end.

(** [v.k] for the property names the script reads ([id], [image], [title],
    [tags], [excerpt], [description], [date], [author], [url], [length]):
    none of them is inherited from a prototype, except [length] of arrays
    and strings.  Reading a property of [undefined] or [null] throws. *)
Definition get (v : value) (k : string) : completion value :=
  match v with
  | VUndefined | VNull => Throw (TypeError "Cannot read properties of undefined or null")
  | VObject props =>
      Normal (match assoc k props with Some x => x | None => VUndefined end)
  | VArray items =>
      Normal (if String.eqb k "length" then VNumber (Z.of_nat (List.length items))
              else VUndefined)
  | VString s =>
      Normal (if String.eqb k "length" then VNumber (Z.of_nat (String.length s))
              else VUndefined)
  | VBool _ | VNumber _ => Normal VUndefined
  end.

Definition Z_to_string (n : Z) : string := NilZero.string_of_int (Z.to_int n).

Definition join_step (sep : string) (piece : completion string)
           (rest : completion (option string)) : completion (option string) :=
  cbind piece (fun p =>
  cbind rest (fun r =>
  Normal (Some (match r with None => p | Some t => p ++ sep ++ t end)))).

(** [ToString].  An array prints as [join(",")], where [undefined] and
    [null] items print as nothing.  A plain object prints as
    [[object Object]]; when the object has an own property [toString] (which,
    coming from JSON, is never callable) the conversion throws. *)
Fixpoint to_string (v : value) : completion string :=
  match v with
  | VUndefined => Normal "undefined"
  | VNull => Normal "null"
  | VBool true => Normal "true"
  | VBool false => Normal "false"
  | VNumber n => Normal (Z_to_string n)
  | VString s => Normal s
  | VArray items =>
      cbind
        ((fix join (l : list value) : completion (option string) :=
            match l with
            | [] => Normal None
            | x :: r =>
                join_step ","
                  (match x with
                   | VUndefined | VNull => Normal ""
                   | _ => to_string x
                   end)
                  (join r)
            end) items)
        (fun o => Normal (match o with None => "" | Some s => s end))
  | VObject props =>
      match assoc "toString" props with
      | Some _ => Throw (TypeError "Cannot convert object to primitive value")
      | None => Normal "[object Object]"
      end
  end.

(* ================================================================= *)
(** ** escapeHtml *)

(** [const map = { '&': '&amp;', '<': '&lt;', '>': '&gt;', double quote:
    '&quot;', "'": '&#039;' }]. *)
Definition escape_map : list (ascii * string) :=
  [ ("&"%char, "&amp;");
    ("<"%char, "&lt;");
    (">"%char, "&gt;");
    (dquote, "&quot;");
    ("'"%char, "&#039;") ].

(** [map[m]]; a key that is not in the object reads [undefined], which
    [replace] would print. *)
Fixpoint map_get (m : ascii) (table : list (ascii * string)) : string :=
  match table with
  | [] => "undefined"
  | (k, e) :: r => if Ascii.eqb m k then e else map_get m r
  end.

(** The character class of the regular expression [/[&<>dquote']/g]. *)
Definition escape_class (c : ascii) : bool :=
  existsb (Ascii.eqb c) ["&"; "<"; ">"; dquote; "'"]%char.

(** [text.replace(re, f)] for a global one-character class [re]: every
    match is replaced by [f] of it, everything else is copied. *)
Fixpoint replace_all (re : ascii -> bool) (f : ascii -> string) (text : string) : string :=
  match text with
  | EmptyString => EmptyString
  | String c r => (if re c then f c else chr c) ++ replace_all re f r
  end.

Definition escape_text (text : string) : string :=
  replace_all escape_class (fun m => map_get m escape_map) text.

(** [escapeHtml(text)]: [text.replace] exists only on strings; on any other
    JSON value the call throws a [TypeError]. *)
Definition escapeHtml (text : value) : completion string :=
  match text with
  | VString s => Normal (escape_text s)
  | VUndefined | VNull => Throw (TypeError "Cannot read properties of undefined or null")
  | _ => Throw (TypeError "text.replace is not a function")
  end.

(** The Sanitizer as the specification words it: each of the five
    characters becomes its entity, any other character is kept. *)
Definition entity_spec (c : ascii) : string :=
  if Ascii.eqb c "&" then "&amp;"
  else if Ascii.eqb c "<" then "&lt;"
  else if Ascii.eqb c ">" then "&gt;"
  else if Ascii.eqb c dquote then "&quot;"
  else if Ascii.eqb c "'" then "&#039;"
  else chr c.

Fixpoint sanitize_spec (s : string) : string :=
  match s with
  | EmptyString => EmptyString
  | String c r => entity_spec c ++ sanitize_spec r
  end.

(** A string has no raw HTML-significant character when it holds none of
    [<], [>], the double quote and the apostrophe, and every [&] in it opens
    one of the five entities. *)
Fixpoint raw_free (s : string) : bool :=
  match s with
  | EmptyString => true
  | String c r =>
      if Ascii.eqb c "<" || Ascii.eqb c ">" || Ascii.eqb c dquote || Ascii.eqb c "'"
      then false
      else if Ascii.eqb c "&"
      then (starts_with "amp;" r || starts_with "lt;" r || starts_with "gt;" r
            || starts_with "quot;" r || starts_with "#039;" r) && raw_free r
      else raw_free r
  end.

(** Escaping the ampersands only: what a second pass is expected to do to
    an already escaped string. *)
Definition escape_amp (s : string) : string :=
  replace_all (fun c => Ascii.eqb c "&") (fun _ => "&amp;") s.

(** Reading the five character references back, in one pass: after a
    reference is recognised, [skip] counts the characters of it that are
    still to be dropped. *)
Fixpoint decode_from (skip : nat) (s : string) : string :=
  match s with
  | EmptyString => EmptyString
  | String c r =>
      match skip with
      | S k => decode_from k r
      | O =>
          if Ascii.eqb c "&" then
            if starts_with "amp;" r then String "&" (decode_from 4 r)
            else if starts_with "lt;" r then String "<" (decode_from 3 r)
            else if starts_with "gt;" r then String ">" (decode_from 3 r)
            else if starts_with "quot;" r then String dquote (decode_from 5 r)
            else if starts_with "#039;" r then String "'" (decode_from 5 r)
            else String c (decode_from 0 r)
          else String c (decode_from 0 r)
      end
  end.

Definition decode_entities (s : string) : string := decode_from 0 s.

(* ================================================================= *)
(** ** Dates

    [formatDate] builds a [Date] from its argument and prints it with
    [toLocaleDateString('en-US', {year:'numeric', month:'long',
    day:'numeric'})].  A time value is a number of milliseconds since the
    epoch, in UTC; [None] is the time value [NaN] of an invalid date. *)

(** What the language leaves to the host: the offset of local time from UTC
    (in milliseconds, at a given UTC time value), and the time value of the
    strings that are not one of the date-only forms [YYYY], [YYYY-MM] and
    [YYYY-MM-DD] with a month and a day that exist (date-time forms, and
    the formats every engine recognises in its own way). *)
Record host : Type := {
  LocalTZA : Z -> Z;
  Date_parse_other : string -> option Z
}.

(** A host on UTC that knows the date-only forms and nothing else. *)
Definition utc_host : host :=
  {| LocalTZA := fun _ => 0%Z; Date_parse_other := fun _ => None |}.

Open Scope Z_scope.

Definition msPerDay : Z := 86400000.

Definition is_leap (y : Z) : bool :=
  (y mod 4 =? 0) && (negb (y mod 100 =? 0) || (y mod 400 =? 0)).

Definition days_in_month (y m : Z) : Z :=
  if m =? 2 then (if is_leap y then 29 else 28)
  else if (m =? 4) || (m =? 6) || (m =? 9) || (m =? 11) then 30
  else 31.

(** Day number (days since 1970-01-01) of a date of the proleptic
    Gregorian calendar, and back. *)
Definition days_from_civil (y m d : Z) : Z :=
  let y' := if m <=? 2 then y - 1 else y in
  let era := y' / 400 in
  let yoe := y' - era * 400 in
  let mp := (m + 9) mod 12 in
  let doy := (153 * mp + 2) / 5 + d - 1 in
  let doe := yoe * 365 + yoe / 4 - yoe / 100 + doy in
  era * 146097 + doe - 719468.

Definition civil_from_days (z : Z) : Z * Z * Z :=
  let z := z + 719468 in
  let era := z / 146097 in
  let doe := z - era * 146097 in
  let yoe := (doe - doe / 1460 + doe / 36524 - doe / 146096) / 365 in
  let doy := doe - (365 * yoe + yoe / 4 - yoe / 100) in
  let mp := (5 * doy + 2) / 153 in
  let d := doy - (153 * mp + 2) / 5 + 1 in
  let m := if mp <? 10 then mp + 3 else mp - 9 in
  let y := yoe + era * 400 in
  ((if m <=? 2 then y + 1 else y), m, d).

Definition digit (c : ascii) : option Z :=
  let n := Z.of_N (N_of_ascii c) in
  if (48 <=? n) && (n <=? 57) then Some (n - 48) else None.

(** Reads exactly [n] decimal digits off the front of [s]. *)
Fixpoint digits (n : nat) (acc : Z) (s : string) : option (Z * string) :=
  match n with
  | O => Some (acc, s)
  | S k =>
      match s with
      | EmptyString => None
      | String c r =>
          match digit c with
          | Some d => digits k (10 * acc + d) r
          | None => None
          end
      end
  end.

Definition dash_digits (s : string) : option (Z * string) :=
  match s with
  | String "-" r => digits 2 0 r
  | _ => None
  end.

Definition utc_date (y m d : Z) : option Z :=
  if (1 <=? m) && (m <=? 12) && (1 <=? d) && (d <=? days_in_month y m)
  then Some (days_from_civil y m d * msPerDay)
  else None.

(** The date-only forms of the Date Time String Format; they denote
    midnight UTC. *)
Definition parse_date_only (s : string) : option Z :=
  match digits 4 0 s with
  | None => None
  | Some (y, EmptyString) => utc_date y 1 1
  | Some (y, r1) =>
      match dash_digits r1 with
      | None => None
      | Some (m, EmptyString) => utc_date y m 1
      | Some (m, r2) =>
          match dash_digits r2 with
          | Some (d, EmptyString) => utc_date y m d
          | _ => None
          end
      end
  end.

Definition Date_parse (H : host) (s : string) : option Z :=
  match parse_date_only s with
  | Some t => Some t
  | None => Date_parse_other H s
  end.

Definition TimeClip (t : Z) : option Z :=
  if Z.abs t <=? 8640000000000000 then Some t else None.

(** [new Date(v)]: a string is parsed, an array or object is first
    converted to a string (which may throw), any other value is a number
    of milliseconds. *)
Definition new_Date (H : host) (v : value) : completion (option Z) :=
  match v with
  | VString s => Normal (Date_parse H s)
  | VUndefined => Normal None
  | VNull => Normal (Some 0)
  | VBool b => Normal (Some (if b then 1 else 0))
  | VNumber n => Normal (TimeClip n)
  | VArray _ | VObject _ => cbind (to_string v) (fun s => Normal (Date_parse H s))
  end.

Definition month_names : list string :=
  ["January"; "February"; "March"; "April"; "May"; "June"; "July"; "August";
   "September"; "October"; "November"; "December"]%string.

Definition month_name (m : Z) : string :=
  nth (Z.to_nat (m - 1)) month_names "December"%string.

(** [date.toLocaleDateString('en-US', {year: 'numeric', month: 'long',
    day: 'numeric'})]: the local calendar date as [Month D, YYYY]; an
    invalid date prints as [Invalid Date] and nothing is thrown.  The year
    printed is the year of the era. *)
Definition toLocaleDateString (H : host) (date : option Z) : string :=
  match date with
  | None => "Invalid Date"
  | Some t =>
      let '(y, m, d) := civil_from_days ((t + LocalTZA H t) / msPerDay) in
      let year := if y <=? 0 then 1 - y else y in
      (month_name m ++ " " ++ Z_to_string d ++ ", " ++ Z_to_string year)%string
  end.

Close Scope Z_scope.

(* ================================================================= *)
(** ** The element tree *)

(** An element carries its tag name, its attributes in source order, the
    value of [style.display] (empty until a script sets it) and its child
    nodes. *)
Inductive node : Type :=
| Text (data : string)
| Element (tag : string) (attrs : list (string * string)) (display : string)
          (children : list node).

Fixpoint attr_value (k : string) (attrs : list (string * string)) : string :=
  match attrs with
  | [] => ""
  | (k', v) :: r => if String.eqb k k' then v else attr_value k r
  end.

(** Tab, line feed, form feed, carriage return and space. *)
Definition is_space (c : ascii) : bool :=
  existsb (Ascii.eqb c) ["009"; "010"; "012"; "013"; " "]%char.

Definition snoc (s : string) (c : ascii) : string := s ++ chr c.

(** The tokens of a [class] attribute. *)
Fixpoint split_ws (cur : string) (s : string) : list string :=
  match s with
  | EmptyString => if String.eqb cur "" then [] else [cur]
  | String c r =>
      if is_space c
      then (if String.eqb cur "" then split_ws "" r else cur :: split_ws "" r)
      else split_ws (snoc cur c) r
  end.

(** The class selector [.c]. *)
Definition has_class (c : string) (n : node) : bool :=
  match n with
  | Text _ => false
  | Element _ attrs _ _ => existsb (String.eqb c) (split_ws "" (attr_value "class" attrs))
  end.

Definition style_display (n : node) : string :=
  match n with
  | Text _ => ""
  | Element _ _ d _ => d
  end.

Definition child_nodes (n : node) : list node :=
  match n with
  | Text _ => []
  | Element _ _ _ ch => ch
  end.

Fixpoint textContent (n : node) : string :=
  match n with
  | Text d => d
  | Element _ _ _ ch => String.concat "" (List.map textContent ch)
  end.

(** The elements of the subtree of [n], [n] included, that match [.c], in
    document order. *)
Fixpoint select (c : string) (n : node) : list node :=
  match n with
  | Text _ => []
  | Element _ _ _ ch =>
      (if has_class c n then [n] else []) ++ flat_map (select c) ch
  end.

(** [n.querySelectorAll('.c')] and [n.querySelector('.c')]: descendants
    only. *)
Definition querySelectorAll (c : string) (n : node) : list node :=
  flat_map (select c) (child_nodes n).

Definition querySelector (c : string) (n : node) : option node :=
  hd_error (querySelectorAll c n).

(* ================================================================= *)
(** ** The innerHTML setter

    Assigning markup to [innerHTML] runs the HTML fragment parser.  The
    model covers what the script can emit: start tags with attributes, end
    tags, void elements and character data, in a container that takes flow
    content.  Comments and declarations are skipped, no element is closed
    implicitly by another start tag, and of the character references only
    the five that [escapeHtml] produces are read back: every [&] the
    script emits comes out of [escapeHtml].  A code unit 0 in an attribute
    value is kept (a browser stores U+FFFD in its place); in text it is
    dropped, as a browser does. *)

(** Input preprocessing: CR LF and lone CR become LF.  [after_cr] tells
    that the previous code unit was a CR. *)
Fixpoint normalize_newlines (after_cr : bool) (s : string) : string :=
  match s with
  | EmptyString => EmptyString
  | String c r =>
      if Ascii.eqb c "013" then String "010" (normalize_newlines true r)
      else if Ascii.eqb c "010" && after_cr then normalize_newlines false r
      else String c (normalize_newlines false r)
  end.

(** Character tokens U+0000 are ignored when inserted in an element. *)
Fixpoint strip_nul (s : string) : string :=
  match s with
  | EmptyString => EmptyString
  | String c r => if Ascii.eqb c "000" then strip_nul r else String c (strip_nul r)
  end.

Definition is_upper (c : ascii) : bool :=
  let n := N_of_ascii c in ((65 <=? n) && (n <=? 90))%N.

Definition is_alpha (c : ascii) : bool :=
  let n := N_of_ascii c in
  (((65 <=? n) && (n <=? 90)) || ((97 <=? n) && (n <=? 122)))%N.

Definition lower (c : ascii) : ascii :=
  if is_upper c then ascii_of_N (N_of_ascii c + 32) else c.

Inductive token : Type :=
| StartTag (name : string) (attrs : list (string * string))
| EndTag (name : string)
| Chars (data : string).

(** The tag being read. *)
Record tag_acc : Type := {
  closing : bool;
  tname : string;
  tattrs : list (string * string)
}.

Definition new_tag (cl : bool) (c : ascii) : tag_acc :=
  {| closing := cl; tname := chr (lower c); tattrs := [] |}.

Definition name_snoc (t : tag_acc) (c : ascii) : tag_acc :=
  {| closing := closing t; tname := snoc (tname t) (lower c); tattrs := tattrs t |}.

Definition has_attr (k : string) (attrs : list (string * string)) : bool :=
  existsb (fun kv => String.eqb k (fst kv)) attrs.

(** An attribute is recorded once; its value has its character references
    read back. *)
Definition add_attr (t : tag_acc) (k v : string) : tag_acc :=
  {| closing := closing t; tname := tname t;
     tattrs := if has_attr k (tattrs t) then tattrs t
               else tattrs t ++ [(k, decode_entities v)] |}.

Definition emit (t : tag_acc) : token :=
  if closing t then EndTag (tname t) else StartTag (tname t) (tattrs t).

Definition text_token (pending : string) : list token :=
  if String.eqb pending "" then [] else [Chars (decode_entities pending)].

Inductive lex_state : Type :=
| Data (pending : string)
| TagOpen (pending : string)
| EndTagOpen (pending : string)
| Bogus (pending : string)
| TagName (t : tag_acc)
| BeforeAttrName (t : tag_acc)
| AttrName (t : tag_acc) (k : string)
| AfterAttrName (t : tag_acc) (k : string)
| BeforeAttrValue (t : tag_acc) (k : string)
| AttrValueDQ (t : tag_acc) (k v : string)
| AttrValueSQ (t : tag_acc) (k v : string)
| AttrValueUnq (t : tag_acc) (k v : string)
| AfterAttrValue (t : tag_acc)
| SelfClosing (t : tag_acc).

Definition before_attr_name (t : tag_acc) (c : ascii) : list token * lex_state :=
  if is_space c then ([], BeforeAttrName t)
  else if Ascii.eqb c "/" then ([], SelfClosing t)
  else if Ascii.eqb c ">" then ([emit t], Data "")
  else ([], AttrName t (chr (lower c))).

(** One step of the tokenizer: the tokens emitted on reading [c], and the
    next state. *)
Definition lex_step (st : lex_state) (c : ascii) : list token * lex_state :=
  match st with
  | Data p =>
      if Ascii.eqb c "<" then ([], TagOpen p) else ([], Data (snoc p c))
  | TagOpen p =>
      if is_alpha c then (text_token p, TagName (new_tag false c))
      else if Ascii.eqb c "/" then ([], EndTagOpen p)
      else if Ascii.eqb c "!" || Ascii.eqb c "?" then ([], Bogus p)
      else if Ascii.eqb c "<" then ([], TagOpen (snoc p "<"))
      else ([], Data (snoc (snoc p "<") c))
  | EndTagOpen p =>
      if is_alpha c then (text_token p, TagName (new_tag true c))
      else if Ascii.eqb c ">" then ([], Data p)
      else ([], Bogus p)
  | Bogus p =>
      if Ascii.eqb c ">" then ([], Data p) else ([], Bogus p)
  | TagName t =>
      if is_space c then ([], BeforeAttrName t)
      else if Ascii.eqb c "/" then ([], SelfClosing t)
      else if Ascii.eqb c ">" then ([emit t], Data "")
      else ([], TagName (name_snoc t c))
  | BeforeAttrName t => before_attr_name t c
  | AttrName t k =>
      if is_space c then ([], AfterAttrName t k)
      else if Ascii.eqb c "/" then ([], SelfClosing (add_attr t k ""))
      else if Ascii.eqb c ">" then ([emit (add_attr t k "")], Data "")
      else if Ascii.eqb c "=" then ([], BeforeAttrValue t k)
      else ([], AttrName t (snoc k (lower c)))
  | AfterAttrName t k =>
      if is_space c then ([], AfterAttrName t k)
      else if Ascii.eqb c "/" then ([], SelfClosing (add_attr t k ""))
      else if Ascii.eqb c "=" then ([], BeforeAttrValue t k)
      else if Ascii.eqb c ">" then ([emit (add_attr t k "")], Data "")
      else ([], AttrName (add_attr t k "") (chr (lower c)))
  | BeforeAttrValue t k =>
      if is_space c then ([], BeforeAttrValue t k)
      else if Ascii.eqb c dquote then ([], AttrValueDQ t k "")
      else if Ascii.eqb c "'" then ([], AttrValueSQ t k "")
      else if Ascii.eqb c ">" then ([emit (add_attr t k "")], Data "")
      else ([], AttrValueUnq t k (chr c))
  | AttrValueDQ t k v =>
      if Ascii.eqb c dquote then ([], AfterAttrValue (add_attr t k v))
      else ([], AttrValueDQ t k (snoc v c))
  | AttrValueSQ t k v =>
      if Ascii.eqb c "'" then ([], AfterAttrValue (add_attr t k v))
      else ([], AttrValueSQ t k (snoc v c))
  | AttrValueUnq t k v =>
      if is_space c then ([], BeforeAttrName (add_attr t k v))
      else if Ascii.eqb c ">" then ([emit (add_attr t k v)], Data "")
      else ([], AttrValueUnq t k (snoc v c))
  | AfterAttrValue t =>
      if is_space c then ([], BeforeAttrName t)
      else if Ascii.eqb c "/" then ([], SelfClosing t)
      else if Ascii.eqb c ">" then ([emit t], Data "")
      else before_attr_name t c
  | SelfClosing t =>
      if Ascii.eqb c ">" then ([emit t], Data "") else before_attr_name t c
  end.

(** At the end of the input pending text is emitted; a tag that is still
    open is dropped. *)
Definition lex_end (st : lex_state) : list token :=
  match st with
  | Data p => text_token p
  | TagOpen p => text_token (snoc p "<")
  | EndTagOpen p => text_token (snoc (snoc p "<") "/")
  | Bogus p => text_token p
  | _ => []
  end.

Fixpoint tokenize_from (st : lex_state) (s : string) : list token :=
  match s with
  | EmptyString => lex_end st
  | String c r => fst (lex_step st c) ++ tokenize_from (snd (lex_step st c)) r
  end.

Definition tokenize (s : string) : list token := tokenize_from (Data "") s.

Definition void_element (name : string) : bool :=
  existsb (String.eqb name)
    ["area"; "base"; "br"; "col"; "embed"; "hr"; "img"; "input"; "link";
     "meta"; "source"; "track"; "wbr"].

(** An open element: its start tag and the children its parent had
    collected before it (youngest first). *)
Record open_element : Type := {
  o_tag : string;
  o_attrs : list (string * string);
  o_before : list node
}.

(** Appends a node to the children collected so far (youngest first);
    adjacent character data is one text node. *)
Definition add_child (n : node) (kids : list node) : list node :=
  match n, kids with
  | Text d, Text d0 :: r => Text (d0 ++ d) :: r
  | _, _ => n :: kids
  end.

Definition close_element (o : open_element) (kids : list node) : list node :=
  Element (o_tag o) (o_attrs o) "" (rev kids) :: o_before o.

(** An end tag closes the open elements up to the nearest one of its
    name; [None] when no such element is open. *)
Fixpoint close_to (name : string) (stack : list open_element) (kids : list node)
  : option (list open_element * list node) :=
  match stack with
  | [] => None
  | o :: r =>
      if String.eqb (o_tag o) name then Some (r, close_element o kids)
      else close_to name r (close_element o kids)
  end.

Fixpoint close_all (stack : list open_element) (kids : list node) : list node :=
  match stack with
  | [] => kids
  | o :: r => close_all r (close_element o kids)
  end.

Fixpoint build (stack : list open_element) (kids : list node) (ts : list token)
  : list node :=
  match ts with
  | [] => rev (close_all stack kids)
  | Chars d :: r =>
      let d' := strip_nul d in
      build stack (if String.eqb d' "" then kids else add_child (Text d') kids) r
  | StartTag name attrs :: r =>
      if void_element name
      then build stack (Element name attrs "" [] :: kids) r
      else build ({| o_tag := name; o_attrs := attrs; o_before := kids |} :: stack) [] r
  | EndTag name :: r =>
      match close_to name stack kids with
      | Some (stack', kids') => build stack' kids' r
      | None => build stack kids r
      end
  end.

(** The child nodes that [el.innerHTML = s] leaves in [el]. *)
Definition parse_html (s : string) : list node :=
  build [] [] (tokenize (normalize_newlines false s)).

(** The text a browser shows for a run of markup without tags. *)
Definition rendered_text (m : string) : string :=
  strip_nul (decode_entities (normalize_newlines false m)).

(* ================================================================= *)
(** ** The page state and the effects of the script *)

(** What the rendering methods read and write: the children of the element
    [#posts-container] ([None] when the page has no such element) and the
    messages sent to [console.error]. *)
Record page : Type := {
  container : option (list node);
  console : list (string * option error)
}.

(** A page with an empty container and a silent console. *)
Definition empty_page : page := {| container := Some []; console := [] |}.

(** A computation reads and updates the page and returns or throws. *)
Definition M (A : Type) : Type := page -> completion A * page.

Definition ret {A} (a : A) : M A := fun st => (Normal a, st).

Definition throw {A} (e : error) : M A := fun st => (Throw e, st).

Definition bind {A B} (m : M A) (k : A -> M B) : M B :=
  fun st =>
    match m st with
    | (Normal a, st') => k a st'
    | (Throw e, st') => (Throw e, st')
    end.

Definition lift {A} (c : completion A) : M A := fun st => (c, st).

(** [try { body } catch (error) { handler }]: the handler runs in the
    state the body had reached when it threw. *)
Definition try_catch {A} (body : M A) (handler : error -> M A) : M A :=
  fun st =>
    match body st with
    | (Normal a, st') => (Normal a, st')
    | (Throw e, st') => handler e st'
    end.

Notation "x <- c ;; k" := (bind c (fun x => k))
  (at level 61, c at next level, right associativity) : js_scope.
Notation "c ;;; k" := (bind c (fun _ => k))
  (at level 61, right associativity) : js_scope.
Open Scope js_scope.

Definition console_error (msg : string) (err : option error) : M unit :=
  fun st =>
    (Normal tt, {| container := container st; console := (console st ++ [(msg, err)])%list |}).

(** [container.innerHTML = s] and [container.appendChild(n)], for a
    container that exists. *)
Definition set_innerHTML (s : string) : M unit :=
  fun st =>
    (Normal tt,
     {| container := option_map (fun _ => parse_html s) (container st);
        console := console st |}).

Definition appendChild (n : node) : M unit :=
  fun st =>
    (Normal tt,
     {| container := option_map (fun kids => (kids ++ [n])%list) (container st);
        console := console st |}).

(* ================================================================= *)
(** ** formatDate *)

Definition formatDate (H : host) (dateString : value) : M value :=
  if negb (truthy dateString) then ret (VString "")
  else
    try_catch
      (date <- lift (new_Date H dateString) ;;
       ret (VString (toLocaleDateString H date)))
      (fun error =>
         console_error "Error formatting date:" (Some error) ;;;
         ret dateString).

(* ================================================================= *)
(** ** createPostElement *)

Definition isArray (v : value) : bool :=
  match v with
  | VArray _ => true
  | _ => false
  end.

Fixpoint mapM {A B} (f : A -> completion B) (l : list A) : completion (list B) :=
  match l with
  | [] => Normal []
  | x :: r => cbind (f x) (fun y => cbind (mapM f r) (fun ys => Normal (y :: ys)))
  end.

(** [v.map(f)], which only arrays have. *)
Definition array_map {B} (f : value -> completion B) (v : value) : completion (list B) :=
  match v with
  | VArray items => mapM f items
  | _ => Throw (TypeError "map is not a function")
  end.

Definition img_html (src alt : string) : string :=
  markup "<img src=`" ++ src ++ markup "` alt=`" ++ alt ++ markup "` class=`post-image`>".

Definition tag_html (tag : string) : string :=
  markup "<span class=`tag`>" ++ tag ++ "</span>".

Definition tags_html (spans : list string) : string :=
  markup "
        <div class=`post-tags`>
          " ++ String.concat "" spans ++ "
        </div>
      ".

Definition author_html (author : string) : string :=
  markup "<span class=`post-author`>By " ++ author ++ "</span>".

(** The template literal assigned to [article.innerHTML]. *)
Definition article_html (imageHTML title excerpt tagsHTML date authorHTML url : string)
  : string :=
  markup "
      <div class=`post-content`>
        " ++ imageHTML ++ markup "
        <div class=`post-text`>
          <h2 class=`post-title`>" ++ title ++ markup "</h2>
          <p class=`post-excerpt`>" ++ excerpt ++ "</p>
          " ++ tagsHTML ++ markup "
          <div class=`post-meta`>
            <span class=`post-date`>" ++ date ++ "</span>
            " ++ authorHTML ++ markup "
          </div>
          <a href=`" ++ url ++ markup "` class=`post-link`>Read More</a>
        </div>
      </div>
    ".

(** [let imageHTML = ''; if (post.image) { imageHTML = `<img ...>` }] *)
Definition image_markup (post : value) : completion string :=
  image <~ get post "image" ;;
  if truthy image then
    src <~ escapeHtml image ;;
    title <~ get post "title" ;;
    alt <~ escapeHtml title ;;
    Normal (img_html src alt)
  else Normal "".

(** [let tagsHTML = ''; if (post.tags && Array.isArray(post.tags)) { ... }] *)
Definition tags_markup (post : value) : completion string :=
  tags <~ get post "tags" ;;
  if truthy tags && isArray tags then
    spans <~ array_map (fun tag => t <~ escapeHtml tag ;; Normal (tag_html t)) tags ;;
    Normal (tags_html spans)
  else Normal "".

(** [post.excerpt || post.description || ''] *)
Definition excerpt_or_description (post : value) : completion value :=
  excerpt <~ get post "excerpt" ;;
  if truthy excerpt then Normal excerpt
  else
    description <~ get post "description" ;;
    Normal (if truthy description then description else VString "").

(** [post.author ? `<span class="post-author">By ...</span>` : ''] *)
Definition author_markup (post : value) : completion string :=
  author <~ get post "author" ;;
  if truthy author then
    by_line <~ escapeHtml author ;;
    Normal (author_html by_line)
  else Normal "".

(** [post.url || '#'] *)
Definition url_or_anchor (post : value) : completion value :=
  url <~ get post "url" ;;
  Normal (if truthy url then url else VString "#").

Definition createPostElement (H : host) (post : value) : M node :=
  id <- lift (get post "id") ;;
  data_id <- lift (to_string id) ;;
  imageHTML <- lift (image_markup post) ;;
  tagsHTML <- lift (tags_markup post) ;;
  title <- lift (title <~ get post "title" ;; escapeHtml title) ;;
  excerpt <- lift (shown <~ excerpt_or_description post ;; escapeHtml shown) ;;
  date <- lift (get post "date") ;;
  formatted <- formatDate H date ;;
  date_text <- lift (to_string formatted) ;;
  authorHTML <- lift (author_markup post) ;;
  href <- lift (target <~ url_or_anchor post ;; escapeHtml target) ;;
  ret (Element "article" [("class", "post"); ("data-id", data_id)] ""
         (parse_html
            (article_html imageHTML title excerpt tagsHTML date_text authorHTML href))).

(* ================================================================= *)
(** ** renderPosts, displayError, loadPosts *)

Definition no_posts_html : string :=
  markup "<p class=`no-posts`>No posts available.</p>".

Fixpoint forEach {A} (f : A -> M unit) (l : list A) : M unit :=
  match l with
  | [] => ret tt
  | x :: r => f x ;;; forEach f r
  end.

(** [v.forEach(f)], which only arrays have. *)
Definition array_forEach (v : value) (f : value -> M unit) : M unit :=
  match v with
  | VArray items => forEach f items
  | _ => throw (TypeError "posts.forEach is not a function")
  end.

(** [v === 0]. *)
Definition is_zero (v : value) : bool :=
  match v with
  | VNumber n => Z.eqb n 0
  | _ => false
  end.

Definition renderPosts (H : host) (posts : value) : M unit :=
  fun st =>
    match container st with
    | None => console_error "Posts container not found" None st
    | Some _ =>
        (set_innerHTML "" ;;;
         len <- lift (get posts "length") ;;
         if is_zero len then set_innerHTML no_posts_html
         else
           array_forEach posts (fun post =>
             postElement <- createPostElement H post ;;
             appendChild postElement)) st
    end.

Definition error_html (message : string) : string :=
  markup "<div class=`error-message`>" ++ message ++ "</div>".

Definition displayError (message : value) : M unit :=
  fun st =>
    match container st with
    | None => (Normal tt, st)
    | Some _ =>
        (text <- lift (escapeHtml message) ;;
         set_innerHTML (error_html text)) st
    end.

(** How [fetch('data/posts.json')] and [response.json()] can turn out: the
    request fails, or a response arrives with its [ok] flag, its status and
    the value of its body ([None] when the body is not JSON). *)
Inductive fetch_result : Type :=
| NetworkFailure
| Response (ok : bool) (status : Z) (json : option value).

Definition failure_message : string :=
  "Failed to load posts. Please try again later.".

Definition loadPosts (H : host) (r : fetch_result) : M unit :=
  try_catch
    (match r with
     | NetworkFailure => throw (TypeError "Failed to fetch")
     | Response ok status json =>
         if negb ok then throw (Error ("HTTP error! status: " ++ Z_to_string status))
         else
           match json with
           | None => throw (SyntaxError "Unexpected token")
           | Some posts => renderPosts H posts
           end
     end)
    (fun error =>
       console_error "Error loading posts:" (Some error) ;;;
       displayError (VString failure_message)).

(** [init() { this.loadPosts(); }], run once when the document is ready. *)
Definition init (H : host) (r : fetch_result) : M unit := loadPosts H r.

(* ================================================================= *)
(** ** filterByTag and searchPosts

    Both walk [document.querySelectorAll('.post')] and assign
    [style.display] of each element in place.  An element of the document
    is named by its path from the root: the child indices to follow. *)

Definition path : Type := list nat.

Fixpoint lookup (n : node) (p : path) : option node :=
  match p with
  | [] => Some n
  | i :: p' =>
      match nth_error (child_nodes n) i with
      | Some c => lookup c p'
      | None => None
      end
  end.

Fixpoint update_nth {A} (i : nat) (f : A -> A) (l : list A) : list A :=
  match l, i with
  | [], _ => []
  | x :: r, O => f x :: r
  | x :: r, S k => x :: update_nth k f r
  end.

(** Rewrites the node at path [p] in place. *)
Fixpoint update (f : node -> node) (p : path) (n : node) : node :=
  match p with
  | [] => f n
  | i :: p' =>
      match n with
      | Text _ => n
      | Element t a d ch => Element t a d (update_nth i (update f p') ch)
      end
  end.

Definition set_display (v : string) (n : node) : node :=
  match n with
  | Text _ => n
  | Element t a _ ch => Element t a v ch
  end.

(** The paths found in the children [l] of an element, the first of which
    has index [i], given the paths [inner] finds below each child. *)
Definition paths_in_children (inner : node -> list path) : nat -> list node -> list path :=
  fix children (i : nat) (l : list node) : list path :=
    match l with
    | [] => []
    | x :: r => (List.map (cons i) (inner x) ++ children (S i) r)%list
    end.

(** The paths of the elements that [select] returns, in the same order. *)
Fixpoint select_paths (c : string) (n : node) : list path :=
  match n with
  | Text _ => []
  | Element _ _ _ ch =>
      ((if has_class c n then [[]] else []) ++
       paths_in_children (select_paths c) O ch)%list
  end.

(** [posts.forEach(post => { post.style.display = f(post) })] over the
    document [doc]. *)
Definition forEach_display (f : node -> string) (posts : list path) (doc : node) : node :=
  fold_left
    (fun d p =>
       match lookup d p with
       | Some post => update (set_display (f post)) p d
       | None => d
       end)
    posts doc.

(** [Array.prototype.includes] on strings. *)
Definition array_includes (l : list string) (x : string) : bool :=
  existsb (String.eqb x) l.

Definition filterByTag (tag : string) (doc : node) : node :=
  let posts := select_paths "post" doc in
  forEach_display
    (fun post =>
       let tags := List.map textContent (querySelectorAll "tag" post) in
       if array_includes tags tag then "block" else "none")
    posts doc.

(** [String.prototype.toLowerCase] on code units below 256: the letters
    A-Z and the Latin-1 capitals (192 to 222, the multiplication sign 215
    apart) move up by 32. *)
Definition lower_unit (c : ascii) : ascii :=
  let n := N_of_ascii c in
  if (((65 <=? n) && (n <=? 90))
      || ((192 <=? n) && (n <=? 222) && negb (n =? 215)))%N
  then ascii_of_N (n + 32) else c.

Fixpoint toLowerCase (s : string) : string :=
  match s with
  | EmptyString => EmptyString
  | String c r => String (lower_unit c) (toLowerCase r)
  end.

(** [post.querySelector('.c')?.textContent.toLowerCase() || ''] *)
Definition lowered_text (c : string) (post : node) : string :=
  match querySelector c post with
  | Some el =>
      let t := toLowerCase (textContent el) in
      if String.eqb t "" then "" else t
  | None => ""
  end.

Definition searchPosts (query : string) (doc : node) : node :=
  let posts := select_paths "post" doc in
  let lowerQuery := toLowerCase query in
  forEach_display
    (fun post =>
       let title := lowered_text "post-title" post in
       let excerpt := lowered_text "post-excerpt" post in
       let matches := includes title lowerQuery || includes excerpt lowerQuery in
       if matches then "block" else "none")
    posts doc.

(* ================================================================= *)
(** ** Notions used in the statements *)

(** The two fixed contents of the container. *)
Definition no_posts_element : node :=
  Element "p" [("class", "no-posts")] "" [Text "No posts available."].

Definition error_element : node :=
  Element "div" [("class", "error-message")] "" [Text failure_message].

(** A computation never loses the container: run on a page that has one,
    it ends, normally or not, on a page that has one. *)
Definition keeps_container {A} (m : M A) : Prop :=
  forall st, container st <> None -> container (snd (m st)) <> None.


(** A node with every [style.display] below it reset: what is left is the
    structure and the text, which is all the filters read. *)
Fixpoint erase (n : node) : node :=
  match n with
  | Text d => Text d
  | Element t a _ ch => Element t a "" (List.map erase ch)
  end.

(** The text of the rendered tag elements of a post. *)
Definition tag_texts (post : node) : list string :=
  List.map textContent (querySelectorAll "tag" post).


(** [f] reads nothing but structure and text. *)
Definition display_blind (f : node -> string) : Prop :=
  forall e e', erase e = erase e' -> f e = f e'.

Definition path_eq_dec : forall p q : path, {p = q} + {p <> q} :=
  list_eq_dec Nat.eq_dec.

(** The text of the first descendant of class [c], empty when there is
    none. *)
Definition text_of (c : string) (post : node) : string :=
  match querySelector c post with
  | Some el => textContent el
  | None => ""
  end.

Definition substring (q s : string) : Prop :=
  exists a b, s = a ++ q ++ b.

(** The search criterion, as the specification words it. *)
Definition search_matches (query : string) (post : node) : Prop :=
  substring (toLowerCase query) (toLowerCase (text_of "post-title" post)) \/
  substring (toLowerCase query) (toLowerCase (text_of "post-excerpt" post)).

(** The page after [loadPosts] has run on a page with an empty container,
    as a document: the container with what was rendered in it. *)
Definition rendered_document (H : host) (posts : list value) : node :=
  Element "div" [("id", "posts-container")] ""
    (match container (snd (loadPosts H (Response true 200 (Some (VArray posts)))
                             empty_page)) with
     | Some kids => kids
     | None => []
     end).


(** What [filterByTag] and [searchPosts] assign to [style.display] of a
    post. *)
Definition tag_display (tag : string) (post : node) : string :=
  if array_includes (tag_texts post) tag then "block" else "none".

Definition search_display (query : string) (post : node) : string :=
  if includes (lowered_text "post-title" post) (toLowerCase query)
     || includes (lowered_text "post-excerpt" post) (toLowerCase query)
  then "block" else "none".

(** Records for the scenarios of the specification. *)
Definition tagged_x : value :=
  VObject [("id", VNumber 1); ("title", VString "One"); ("tags", VArray [VString "x"])].
Definition tagged_w : value :=
  VObject [("id", VNumber 2); ("title", VString "Two"); ("tags", VArray [VString "w"])].

Definition about_categories : value :=
  VObject [("id", VNumber 1); ("title", VString "Category theory");
           ("excerpt", VString "Arrows")].
Definition about_dogs : value :=
  VObject [("id", VNumber 2); ("title", VString "Dogs"); ("excerpt", VString "Barking")].


(* ================================================================= *)
(** ** Notions used to follow the parser over the article markup *)

(** Whether the input read so far ends in a CR. *)
Fixpoint flag_after (b : bool) (s : string) : bool :=
  match s with
  | EmptyString => b
  | String c r => flag_after (Ascii.eqb c "013") r
  end.

(** The tokenizer run over a piece of input: the tokens emitted and the
    state reached. *)
Fixpoint run (st : lex_state) (s : string) : list token * lex_state :=
  match s with
  | EmptyString => ([], st)
  | String c r =>
      (fst (lex_step st c) ++ fst (run (snd (lex_step st c)) r),
       snd (run (snd (lex_step st c)) r))%list
  end.

(** Preprocessing and tokenizing a piece of the input, from the
    preprocessor flag and tokenizer state reached before it. *)
Definition feed (s : string) (at_ : bool * lex_state) : list token * (bool * lex_state) :=
  (fst (run (snd at_) (normalize_newlines (fst at_) s)),
   (flag_after (fst at_) s, snd (run (snd at_) (normalize_newlines (fst at_) s)))).

(** Sequencing two such runs. *)
Definition and_then {S T} (r : list T * S) (k : S -> list T * S) : list T * S :=
  ((fst r ++ fst (k (snd r)))%list, snd (k (snd r))).

Definition no_lt (s : string) : bool :=
  string_forallb (fun c => negb (Ascii.eqb c "<")) s.

Definition no_dquote (s : string) : bool :=
  string_forallb (fun c => negb (Ascii.eqb c dquote)) s.

(** Character data [t] appended to the children collected so far; empty
    data leaves no node. *)
Definition add_text (t : string) (kids : list node) : list node :=
  if String.eqb t "" then kids else add_child (Text t) kids.

(** One step of the tree builder, on the open elements and the children
    collected so far. *)
Definition grow_step (at_ : list open_element * list node) (t : token)
  : list open_element * list node :=
  match t with
  | Chars d => (fst at_, add_text (strip_nul d) (snd at_))
  | StartTag name attrs =>
      if void_element name
      then (fst at_, Element name attrs "" [] :: snd at_)
      else ({| o_tag := name; o_attrs := attrs; o_before := snd at_ |} :: fst at_, [])
  | EndTag name =>
      match close_to name (fst at_) (snd at_) with
      | Some next => next
      | None => at_
      end
  end.

Definition grow (ts : list token) (at_ : list open_element * list node)
  : list open_element * list node :=
  fold_left grow_step ts at_.

(** The tokens of the rest of the input [s], from the preprocessor flag
    and the tokenizer state reached before it. *)
Definition tokens_from (at_ : bool * lex_state) (s : string) : list token :=
  tokenize_from (snd at_) (normalize_newlines (fst at_) s).

(** The text node, if any, for character data [t]. *)
Definition text_children (t : string) : list node :=
  if String.eqb t "" then [] else [Text t].

(** The code units the parser keeps of a text. *)
Definition dom_text (x : string) : string := strip_nul (normalize_newlines false x).

(** What the tree builder leaves when the input ends. *)
Definition finish (at_ : list open_element * list node) : list node :=
  rev (close_all (fst at_) (snd at_)).

(** The optional fragments of the article markup, from markup that is
    already escaped. *)
Definition image_part (o : option (string * string)) : string :=
  match o with
  | Some (src, alt) => img_html src alt
  | None => ""
  end.

Definition tags_part (o : option (list string)) : string :=
  match o with
  | Some l => tags_html (List.map tag_html l)
  | None => ""
  end.

Definition author_part (o : option string) : string :=
  match o with
  | Some a => author_html a
  | None => ""
  end.

(** Markup that can stand in text and in a double-quoted attribute value
    without ending either. *)
Definition inert (m : string) : Prop := no_lt m = true /\ no_dquote m = true.

(** The element rendered for one tag, from its escaped text. *)
Definition tag_element (m : string) : node :=
  Element "span" [("class", "tag")] "" (text_children (rendered_text m)).

Definition tag_elements (l : list string) : list node := List.map tag_element l.

Definition span_tokens (m : string) : list token :=
  (StartTag "span" [("class", "tag")] :: text_token (normalize_newlines false m)
   ++ [EndTag "span"])%list.

Definition spans_tokens (l : list string) : list token := flat_map span_tokens l.

(** The element a computation returned (a text node stands for none). *)
Definition returned (r : completion node * page) : node :=
  match fst r with
  | Normal a => a
  | Throw _ => Text ""
  end.

Definition two_tags : value :=
  VObject [("id", VNumber 7); ("title", VString "Tagged");
           ("tags", VArray [VString "a"; VString "b"])].

Definition empty_excerpt : value :=
  VObject [("id", VNumber 8); ("title", VString "T"); ("excerpt", VString "");
           ("description", VString "d")].


(** Text without carriage returns and code units 0: the parser stores it
    unchanged. *)
Definition plain_text (s : string) : bool :=
  string_forallb (fun c => negb (Ascii.eqb c "013") && negb (Ascii.eqb c "000")) s.


(* ================================================================= *)
(** ** Notions used in the further properties *)

(** None of the five characters that [escapeHtml] replaces. *)
Definition unescaped (c : ascii) : bool := negb (escape_class c).

Open Scope Z_scope.

(** A date of the calendar: a month from 1 to 12 and a day of that month. *)
Definition valid_date (y m d : Z) : Prop :=
  1 <= m <= 12 /\ 1 <= d <= days_in_month y m.

(** The decimal digit [n], and numbers printed with two and four digits. *)
Definition digit_char (n : Z) : ascii := ascii_of_N (Z.to_N (48 + n)).

Definition two_digits (n : Z) : string :=
  String (digit_char (n / 10)) (String (digit_char (n mod 10)) EmptyString).

Definition four_digits (n : Z) : string :=
  (two_digits (n / 100) ++ two_digits (n mod 100))%string.

(** The date-only form [YYYY-MM-DD]. *)
Definition iso_date (y m d : Z) : string :=
  (four_digits y ++ "-" ++ two_digits m ++ "-" ++ two_digits d)%string.

(** [Month D, YYYY], the year being the year of the era. *)
Definition long_date (y m d : Z) : string :=
  let year := if y <=? 0 then 1 - y else y in
  (month_name m ++ " " ++ Z_to_string d ++ ", " ++ Z_to_string year)%string.

(** The position of a date in its 400-year era, and back: the inner
    steps of [days_from_civil] and [civil_from_days]. *)
Definition day_of_era (yoe m d : Z) : Z :=
  let mp := (m + 9) mod 12 in
  let doy := (153 * mp + 2) / 5 + d - 1 in
  yoe * 365 + yoe / 4 - yoe / 100 + doy.

Definition date_of_era (doe : Z) : Z * Z * Z :=
  let yoe := (doe - doe / 1460 + doe / 36524 - doe / 146096) / 365 in
  let doy := doe - (365 * yoe + yoe / 4 - yoe / 100) in
  let mp := (5 * doy + 2) / 153 in
  let d := doy - (153 * mp + 2) / 5 + 1 in
  let m := if mp <? 10 then mp + 3 else mp - 9 in
  (yoe, m, d).

(** The year whose February a year of the era (which starts in March)
    holds. *)
Definition era_year (yoe m : Z) : Z := if m <=? 2 then yoe + 1 else yoe.

(** The day number, in an era, of the first of March of its year [y]. *)
Definition year_start (y : Z) : Z := 365 * y + y / 4 - y / 100.

(** The day of a year that starts in March, counted from 0. *)
Definition day_of_year (m d : Z) : Z := (153 * ((m + 9) mod 12) + 2) / 5 + d - 1.

(** The number of days of the year [yoe] of an era: it ends with the
    February of the calendar year [yoe + 1]. *)
Definition year_length (yoe : Z) : Z := if is_leap (yoe + 1) then 366 else 365.

Close Scope Z_scope.

(** The characters a formatted date is made of. *)
Definition date_alphabet : list ascii :=
  list_ascii_of_string "0123456789 ,ADFIJMNOSabcdeghilmnoprstuvy".

Definition date_char (c : ascii) : bool := existsb (Ascii.eqb c) date_alphabet.

(** A line break and the indentation that follows it in the template of
    [createPostElement]. *)
Fixpoint spaces (n : nat) : string :=
  match n with
  | O => EmptyString
  | S k => String " " (spaces k)
  end.

Definition indent (n : nat) : string := String "010" (spaces n).

(** The tree that the template of [createPostElement] describes, from the
    texts and attribute values it shows.  Where an optional part is left
    out, the white space around it is one text node.  First the image and
    the white space on both sides of it. *)
Definition image_nodes (img : option (string * string)) : list node :=
  match img with
  | Some (src, alt) =>
      [Text (indent 8);
       Element "img" [("src", src); ("alt", alt); ("class", "post-image")] "" [];
       Text (indent 8)]
  | None => [Text (indent 8 ++ indent 8)]
  end.

(** The element of one tag, from the text it shows. *)
Definition tag_span (t : string) : node :=
  Element "span" [("class", "tag")] "" (text_children t).

(** The tag block, between the excerpt and the line of the date: the block
    is there when the record has an array of tags, empty or not. *)
Definition tags_nodes (tags : option (list string)) : list node :=
  match tags with
  | Some l =>
      [Text (indent 10 ++ indent 8);
       Element "div" [("class", "post-tags")] ""
         (match l with
          | [] => [Text (indent 10 ++ indent 8)]
          | _ :: _ => Text (indent 10) :: (List.map tag_span l ++ [Text (indent 8)])%list
          end);
       Text (indent 6 ++ indent 10)]
  | None => [Text (indent 10 ++ indent 10)]
  end.

(** What follows the date in its line: the author, when there is one. *)
Definition author_nodes (author : option string) : list node :=
  match author with
  | Some a =>
      [Text (indent 12);
       Element "span" [("class", "post-author")] "" [Text ("By " ++ a)];
       Text (indent 10)]
  | None => [Text (indent 12 ++ indent 10)]
  end.

(** The children of the [article] element. *)
Definition article_children (img : option (string * string)) (title excerpt : string)
           (tags : option (list string)) (date : string) (author : option string)
           (href : string) : list node :=
  [Text (indent 6);
   Element "div" [("class", "post-content")] ""
     (image_nodes img ++
      [Element "div" [("class", "post-text")] ""
         ([Text (indent 10);
           Element "h2" [("class", "post-title")] "" (text_children title);
           Text (indent 10);
           Element "p" [("class", "post-excerpt")] "" (text_children excerpt)]
          ++ tags_nodes tags ++
          [Element "div" [("class", "post-meta")] ""
             (Text (indent 12)
              :: Element "span" [("class", "post-date")] "" (text_children date)
              :: author_nodes author);
           Text (indent 10);
           Element "a" [("href", href); ("class", "post-link")] "" [Text "Read More"];
           Text (indent 8)]);
       Text (indent 6)])%list;
   Text (indent 4)].

(** The value a browser stores for an attribute written as [m]. *)
Definition attr_text (m : string) : string := decode_entities (normalize_newlines false m).

(** The property [k] of a record, [undefined] when it cannot be read. *)
Definition field (post : value) (k : string) : value :=
  match get post k with
  | Normal v => v
  | Throw _ => VUndefined
  end.

(** [v] is a string, and the string it is. *)
Definition is_string (v : value) : bool :=
  match v with
  | VString _ => true
  | _ => false
  end.

Definition string_value (v : value) : string :=
  match v with
  | VString s => s
  | _ => ""
  end.

(** A string, or a value that [if (v)], [v ? :] and [v ||] skip. *)
Definition string_or_falsy (v : value) : bool := is_string v || negb (truthy v).

(** [ToString] returns on [v]. *)
Definition converts (v : value) : bool :=
  match to_string v with
  | Normal _ => true
  | Throw _ => false
  end.

(** The records that [createPostElement] renders: every field that is
    escaped is a string or is skipped, and the identifier and the date can
    be printed. *)
Definition renderable (post : value) : bool :=
  converts (field post "id")
  && string_or_falsy (field post "image")
  && match field post "tags" with
     | VArray items => forallb is_string items
     | _ => true
     end
  && is_string (field post "title")
  && string_or_falsy (field post "excerpt")
  && (truthy (field post "excerpt") || string_or_falsy (field post "description"))
  && (negb (truthy (field post "date")) || converts (field post "date"))
  && string_or_falsy (field post "author")
  && string_or_falsy (field post "url").

(** The property [k] of a record when it is a non-empty string. *)
Definition text_field (post : value) (k : string) : option string :=
  match field post k with
  | VString s => if String.eqb s "" then None else Some s
  | _ => None
  end.

(** The text selected by [post.excerpt || post.description || '']. *)
Definition shown_excerpt (post : value) : string :=
  match text_field post "excerpt" with
  | Some s => s
  | None =>
      match text_field post "description" with
      | Some s => s
      | None => ""
      end
  end.

(** The text that [formatDate] returns for [v]. *)
Definition formatted_date (H : host) (v : value) : string :=
  match fst (formatDate H v empty_page) with
  | Normal f => string_value f
  | Throw _ => ""
  end.

(** The value stored for an attribute whose escaped text stands between
    double quotes: the text with its line breaks normalised.  (A code unit
    0 is kept; a browser stores U+FFFD in its place, which is not a code
    unit of this model.) *)
Definition attribute_text (s : string) : string := normalize_newlines false s.

(** The element that [createPostElement] builds for a record it renders. *)
Definition rendered_article (H : host) (post : value) : node :=
  let title := string_value (field post "title") in
  Element "article"
    [("class", "post");
     ("data-id", match to_string (field post "id") with
                 | Normal s => s
                 | Throw _ => ""
                 end)]
    ""
    (article_children
       (option_map
          (fun src => (attribute_text src, attribute_text title))
          (text_field post "image"))
       (dom_text title)
       (dom_text (shown_excerpt post))
       (match field post "tags" with
        | VArray items => Some (List.map (fun t => dom_text (string_value t)) items)
        | _ => None
        end)
       (formatted_date H (field post "date"))
       (option_map dom_text (text_field post "author"))
       (attribute_text
          (match text_field post "url" with
           | Some u => u
           | None => "#"
           end))).


(** A record with an identifier and a title only. *)
Definition titled (id : Z) (title : string) : value :=
  VObject [("id", VNumber id); ("title", VString title)].

(** A computation leaves the container as it is. *)
Definition container_stable {A} (m : M A) : Prop :=
  forall st, container (snd (m st)) = container st.

(** A computation neither creates nor removes the container. *)
Definition presence_stable {A} (m : M A) : Prop :=
  forall st, container (snd (m st)) = None <-> container st = None.

(** The element that [displayError] shows for a message. *)
Definition error_box (message : string) : node :=
  Element "div" [("class", "error-message")] "" (text_children (dom_text message)).

(** What the container holds after [loadPosts] has fetched the JSON value
    [v]: the placeholder for an empty array (and for any other value whose
    [length] is 0), the articles of the records when every one of them
    renders, the error message otherwise. *)
Definition shown_for (H : host) (v : value) : list node :=
  match v with
  | VArray (post :: posts) =>
      if forallb renderable (post :: posts)
      then List.map (rendered_article H) (post :: posts)
      else [error_element]
  | _ => if is_zero (field v "length") then [no_posts_element] else [error_element]
  end.

(** What [loadPosts] sends to the console on a page without the
    container. *)
Definition logged_without_container (r : fetch_result) : string * option error :=
  match r with
  | NetworkFailure => ("Error loading posts:", Some (TypeError "Failed to fetch"))
  | Response false status _ =>
      ("Error loading posts:", Some (Error ("HTTP error! status: " ++ Z_to_string status)))
  | Response true _ None => ("Error loading posts:", Some (SyntaxError "Unexpected token"))
  | Response true _ (Some _) => ("Posts container not found", None)
  end.

(** The tag texts that a rendered record shows. *)
Definition record_tags (post : value) : list string :=
  match field post "tags" with
  | VArray items => List.map (fun t => dom_text (string_value t)) items
  | _ => []
  end.


(* ================================================================= *)
(** * Properties *)

(* ----------------------------------------------------------------- *)
(** ** Strings *)

Lemma append_assoc (a b c : string) : (a ++ b) ++ c = a ++ (b ++ c).
Proof. induction a; simpl; congruence. Qed.

Lemma append_nil_r (s : string) : s ++ "" = s.
Proof. induction s; simpl; congruence. Qed.

(* ----------------------------------------------------------------- *)
(** ** The escaper *)

Lemma replace_all_app re f (a b : string) :
  replace_all re f (a ++ b) = replace_all re f a ++ replace_all re f b.
Proof.
  induction a as [|c a IH]; simpl; [reflexivity|].
  rewrite IH. now rewrite append_assoc.
Qed.

Lemma escape_text_app (a b : string) :
  escape_text (a ++ b) = escape_text a ++ escape_text b.
Proof. apply replace_all_app. Qed.

Lemma escape_text_cons (c : ascii) (r : string) :
  escape_text (String c r) = entity_spec c ++ escape_text r.
Proof.
  unfold escape_text at 1. simpl replace_all. fold (escape_text r). f_equal.
  unfold escape_class, entity_spec, escape_map. simpl existsb. simpl map_get.
  destruct (Ascii.eqb c "&"); [reflexivity|].
  destruct (Ascii.eqb c "<"); [reflexivity|].
  destruct (Ascii.eqb c ">"); [reflexivity|].
  destruct (Ascii.eqb c dquote); [reflexivity|].
  destruct (Ascii.eqb c "'"); reflexivity.
Qed.

Lemma escape_text_spec (s : string) : escape_text s = sanitize_spec s.
Proof.
  induction s as [|c r IH]; [reflexivity|].
  rewrite escape_text_cons. simpl. now rewrite IH.
Qed.

(** The five outcomes of [entity_spec], as a case analysis on the
    character. *)
Lemma entity_cases (c : ascii) (P : ascii -> string -> Prop) :
  P "&"%char "&amp;" -> P "<"%char "&lt;" -> P ">"%char "&gt;" ->
  P dquote "&quot;" -> P "'"%char "&#039;" ->
  (Ascii.eqb c "&" = false -> Ascii.eqb c "<" = false -> Ascii.eqb c ">" = false ->
   Ascii.eqb c dquote = false -> Ascii.eqb c "'" = false -> P c (chr c)) ->
  P c (entity_spec c).
Proof.
  intros H1 H2 H3 H4 H5 H6. unfold entity_spec.
  destruct (Ascii.eqb c "&") eqn:E1; [apply Ascii.eqb_eq in E1; subst; exact H1|].
  destruct (Ascii.eqb c "<") eqn:E2; [apply Ascii.eqb_eq in E2; subst; exact H2|].
  destruct (Ascii.eqb c ">") eqn:E3; [apply Ascii.eqb_eq in E3; subst; exact H3|].
  destruct (Ascii.eqb c dquote) eqn:E4; [apply Ascii.eqb_eq in E4; subst; exact H4|].
  destruct (Ascii.eqb c "'") eqn:E5; [apply Ascii.eqb_eq in E5; subst; exact H5|].
  now apply H6.
Qed.

Lemma raw_free_entity (c : ascii) (r : string) :
  raw_free (entity_spec c ++ r) = raw_free r.
Proof.
  pattern c, (entity_spec c). apply entity_cases; try reflexivity.
  intros E1 E2 E3 E4 E5. simpl. now rewrite E1, E2, E3, E4, E5.
Qed.

Lemma raw_free_escape_text (s : string) : raw_free (escape_text s) = true.
Proof.
  induction s as [|c r IH]; [reflexivity|].
  rewrite escape_text_cons, raw_free_entity. exact IH.
Qed.

Lemma escape_amp_app (a b : string) :
  escape_amp (a ++ b) = escape_amp a ++ escape_amp b.
Proof. apply replace_all_app. Qed.

Lemma escape_twice_entity (c : ascii) :
  escape_text (entity_spec c) = escape_amp (entity_spec c).
Proof.
  pattern c, (entity_spec c). apply entity_cases; try reflexivity.
  intros E1 E2 E3 E4 E5.
  unfold chr. rewrite escape_text_cons. unfold entity_spec, escape_amp. simpl.
  now rewrite E1, E2, E3, E4, E5.
Qed.

Lemma escape_twice (s : string) :
  escape_text (escape_text s) = escape_amp (escape_text s).
Proof.
  induction s as [|c r IH]; [reflexivity|].
  rewrite escape_text_cons, escape_text_app, escape_amp_app, IH.
  now rewrite escape_twice_entity.
Qed.

Lemma decode_entity (c : ascii) (r : string) :
  decode_from 0 (entity_spec c ++ r) = String c (decode_from 0 r).
Proof.
  pattern c, (entity_spec c). apply entity_cases; try reflexivity.
  intros E1 _ _ _ _. simpl. now rewrite E1.
Qed.

(** Reading the references back undoes one pass of the escaper. *)
Lemma decode_escape_app (s rest : string) :
  decode_from 0 (escape_text s ++ rest) = s ++ decode_from 0 rest.
Proof.
  induction s as [|c r IH]; [reflexivity|].
  rewrite escape_text_cons, append_assoc, decode_entity, IH.
  reflexivity.
Qed.

Lemma decode_escape (s : string) : decode_entities (escape_text s) = s.
Proof.
  unfold decode_entities.
  rewrite <- (append_nil_r (escape_text s)), decode_escape_app.
  apply append_nil_r.
Qed.

(** C3: for every text input the Sanitizer returns the input with each of
    the five characters replaced by its entity and every other character
    kept in its place: [escapeHtml], computed by [replace] with the
    character class and the lookup table of the source, is the
    character-by-character substitution the specification describes. *)
Theorem escapeHtml_replaces_the_five_characters (text : string) :
  escapeHtml (VString text) = Normal (sanitize_spec text).
Proof.
  simpl. now rewrite escape_text_spec.
Qed.

(** C4: the output of the Sanitizer holds no raw HTML-significant
    character (none of [<], [>], the double quote, the apostrophe, and no
    [&] other than the one that opens an entity); a second pass over an
    escaped string only turns each [&] into [&amp;], and reading the
    references back once returns the escaped string as it was. *)
Theorem escapeHtml_output_has_no_raw_character (text : string) :
  exists out,
    escapeHtml (VString text) = Normal out /\
    raw_free out = true /\
    escapeHtml (VString out) = Normal (escape_amp out) /\
    decode_entities (escape_amp out) = out.
Proof.
  exists (escape_text text). split; [reflexivity|].
  split; [apply raw_free_escape_text|].
  split; [simpl; now rewrite escape_twice|].
  rewrite <- escape_twice. apply decode_escape.
Qed.

(* ----------------------------------------------------------------- *)
(** ** formatDate *)

Lemma month_name_in (m : Z) : In (month_name m) month_names.
Proof.
  unfold month_name.
  destruct (nth_in_or_default (Z.to_nat (m - 1)) month_names "December"%string)
    as [Hin | ->]; [exact Hin|].
  simpl. tauto.
Qed.

(** A formatted date starts with the capital letter of a month. *)
Lemma toLocaleDateString_not_lowercase (H : host) (date : option Z) :
  toLocaleDateString H date <> "not-a-date".
Proof.
  destruct date as [t|]; [|discriminate].
  unfold toLocaleDateString.
  destruct (civil_from_days _) as [[y m] d].
  generalize (month_name_in m). generalize (month_name m). intros name Hin.
  simpl in Hin.
  repeat (destruct Hin as [<- | Hin]; [discriminate|]).
  destruct Hin.
Qed.

(** An absent or empty date prints as the empty string. *)
Lemma formatDate_absent (H : host) (st : page) :
  formatDate H VUndefined st = (Normal (VString ""), st) /\
  formatDate H VNull st = (Normal (VString ""), st) /\
  formatDate H (VString "") st = (Normal (VString ""), st).
Proof. repeat split. Qed.

(** [formatDate] returns on every value: whatever [new Date] throws is
    caught. *)
Lemma formatDate_never_throws (H : host) (v : value) (st : page) :
  exists r st', formatDate H v st = (Normal r, st').
Proof.
  unfold formatDate, try_catch, bind, lift, ret, console_error.
  destruct (truthy v); simpl; [|do 2 eexists; reflexivity].
  destruct (new_Date H v); do 2 eexists; reflexivity.
Qed.

Lemma local_day_of_2024_03_15 (off : Z) :
  (0 <= off < msPerDay)%Z ->
  ((1710460800000 + off) / msPerDay = 19797)%Z.
Proof.
  unfold msPerDay. intros Hoff.
  symmetry. apply Z.div_unique with (r := off); lia.
Qed.

(** Where local time is at or ahead of UTC (by less than a day) the date
    [2024-03-15] prints as [March 15, 2024]. *)
Lemma formatDate_2024_03_15 (H : host) (st : page) :
  (0 <= LocalTZA H 1710460800000 < msPerDay)%Z ->
  formatDate H (VString "2024-03-15") st = (Normal (VString "March 15, 2024"), st).
Proof.
  intros Hoff. unfold formatDate, try_catch, bind, lift, ret. simpl truthy. simpl negb.
  cbv iota.
  replace (new_Date H (VString "2024-03-15")) with (Normal (A := option Z) (Some 1710460800000%Z))
    by reflexivity.
  unfold toLocaleDateString. rewrite (local_day_of_2024_03_15 _ Hoff). reflexivity.
Qed.

(** Five hours behind UTC the same input prints as the day before. *)
Lemma formatDate_2024_03_15_behind_utc (st : page) :
  formatDate {| LocalTZA := fun _ => (-18000000)%Z; Date_parse_other := fun _ => None |}
    (VString "2024-03-15") st
  = (Normal (VString "March 14, 2024"), st).
Proof. reflexivity. Qed.

(** C1 (the code departs from the claim): on the input [not-a-date] no
    exception reaches the [catch] branch of [formatDate], so the original
    text is not returned: the result is what [toLocaleDateString] prints
    for the time value of that string, [Invalid Date] when the string has
    none, and on every host it differs from the input. *)
Theorem formatDate_not_a_date_is_not_returned (H : host) (st : page) :
  formatDate H (VString "not-a-date") st
  = (Normal (VString (toLocaleDateString H (Date_parse_other H "not-a-date"))), st) /\
  toLocaleDateString H (Date_parse_other H "not-a-date") <> "not-a-date" /\
  toLocaleDateString H None = "Invalid Date".
Proof.
  split; [reflexivity|]. split; [apply toLocaleDateString_not_lowercase|reflexivity].
Qed.

(* ----------------------------------------------------------------- *)
(** ** Rendering: the fixed outcomes *)

Lemma parse_no_posts_html : parse_html no_posts_html = [no_posts_element].
Proof. reflexivity. Qed.

Lemma parse_error_html :
  parse_html (error_html (escape_text failure_message)) = [error_element].
Proof. reflexivity. Qed.

(** The handler of [loadPosts]: the message replaces the content of the
    container, when there is one. *)
Lemma displayError_failure_message (st : page) :
  displayError (VString failure_message) st
  = (Normal tt,
     {| container := option_map (fun _ => [error_element]) (container st);
        console := console st |}).
Proof.
  destruct st as [[old|] log]; reflexivity.
Qed.

Lemma loadPosts_caught (body : M unit) (e : error) (st st' : page) :
  body st = (Throw e, st') ->
  try_catch body
    (fun error =>
       console_error "Error loading posts:" (Some error) ;;;
       displayError (VString failure_message)) st
  = (Normal tt,
     {| container := option_map (fun _ => [error_element]) (container st');
        console := (console st' ++ [("Error loading posts:", Some e)])%list |}).
Proof.
  intros Hb. unfold try_catch, bind. rewrite Hb. unfold console_error.
  now rewrite displayError_failure_message.
Qed.

(** C2: whichever way the load fails (the request fails, the response has
    a non-success status, the body is not JSON), [loadPosts] returns
    normally, and the content of the container, when the page has one, is
    replaced by the one element that carries the fixed message; the message
    has nothing to escape, and no element of class [post] is left. *)
Theorem loadPosts_failure_shows_the_fixed_message
        (H : host) (st : page) (status : Z) (json : option value) :
  let shown (e : error) : completion unit * page :=
    (Normal tt,
     {| container := option_map (fun _ => [error_element]) (container st);
        console := (console st ++ [("Error loading posts:", Some e)])%list |}) in
  loadPosts H NetworkFailure st = shown (TypeError "Failed to fetch") /\
  loadPosts H (Response false status json) st
    = shown (Error ("HTTP error! status: " ++ Z_to_string status)) /\
  loadPosts H (Response true status None) st = shown (SyntaxError "Unexpected token") /\
  escapeHtml (VString failure_message) = Normal failure_message /\
  textContent error_element = "Failed to load posts. Please try again later." /\
  select "post" error_element = [].
Proof.
  intros shown. unfold shown, loadPosts.
  split; [now apply loadPosts_caught|].
  split; [now apply loadPosts_caught|].
  split; [now apply loadPosts_caught|].
  repeat split.
Qed.

(** C5: on an empty array [renderPosts] leaves exactly one child in the
    container, the placeholder of class [no-posts] with the text
    [No posts available.], and no element of class [post]; a page without
    the container is left alone and the miss is logged. *)
Theorem renderPosts_empty_array (H : host) (st : page) :
  renderPosts H (VArray []) st
  = (Normal tt,
     match container st with
     | Some _ => {| container := Some [no_posts_element]; console := console st |}
     | None =>
         {| container := None;
            console := (console st ++ [("Posts container not found", None)])%list |}
     end) /\
  no_posts_element = Element "p" [("class", "no-posts")] "" [Text "No posts available."] /\
  has_class "no-posts" no_posts_element = true /\
  textContent no_posts_element = "No posts available." /\
  select "post" no_posts_element = [].
Proof.
  split; [|repeat split].
  destruct st as [[old|] log]; reflexivity.
Qed.

(* ----------------------------------------------------------------- *)
(** ** Running computations *)

Lemma bind_lift_normal {A B} (a : A) (k : A -> M B) (st : page) :
  bind (lift (Normal a)) k st = k a st.
Proof. reflexivity. Qed.

Lemma bind_lift_throw {A B} (e : error) (k : A -> M B) (st : page) :
  bind (lift (Throw e)) k st = (Throw e, st).
Proof. reflexivity. Qed.

Lemma bind_ret {A B} (a : A) (k : A -> M B) (st : page) :
  bind (ret a) k st = k a st.
Proof. reflexivity. Qed.

Lemma bind_assoc {A B C} (m : M A) (k : A -> M B) (k' : B -> M C) (st : page) :
  bind (bind m k) k' st = bind m (fun a => bind (k a) k') st.
Proof. unfold bind. destruct (m st) as [[a|e] st']; reflexivity. Qed.

Lemma bind_if {A B} (b : bool) (m1 m2 : M A) (k : A -> M B) (st : page) :
  bind (if b then m1 else m2) k st = if b then bind m1 k st else bind m2 k st.
Proof. destruct b; reflexivity. Qed.

Ltac run_step :=
  first
    [ rewrite bind_lift_normal
    | rewrite bind_lift_throw
    | rewrite bind_ret
    | rewrite bind_assoc
    | rewrite bind_if ].

Lemma keeps_ret {A} (a : A) : keeps_container (ret a).
Proof. intros st Hc. exact Hc. Qed.

Lemma keeps_throw {A} (e : error) : keeps_container (throw (A := A) e).
Proof. intros st Hc. exact Hc. Qed.

Lemma keeps_lift {A} (c : completion A) : keeps_container (lift c).
Proof. intros st Hc. exact Hc. Qed.

Lemma keeps_console_error msg err : keeps_container (console_error msg err).
Proof. intros st Hc. exact Hc. Qed.

Lemma keeps_bind {A B} (m : M A) (k : A -> M B) :
  keeps_container m -> (forall a, keeps_container (k a)) -> keeps_container (bind m k).
Proof.
  intros Hm Hk st Hc. unfold bind. specialize (Hm st Hc).
  destruct (m st) as [[a|e] st']; simpl in *; [now apply Hk|exact Hm].
Qed.

Lemma keeps_try_catch {A} (m : M A) (h : error -> M A) :
  keeps_container m -> (forall e, keeps_container (h e)) -> keeps_container (try_catch m h).
Proof.
  intros Hm Hh st Hc. unfold try_catch. specialize (Hm st Hc).
  destruct (m st) as [[a|e] st']; simpl in *; [exact Hm|now apply Hh].
Qed.

Lemma keeps_appendChild (n : node) : keeps_container (appendChild n).
Proof. intros st Hc. simpl. destruct (container st); [discriminate|exact Hc]. Qed.

Ltac keeps :=
  repeat first
    [ apply keeps_ret | apply keeps_lift | apply keeps_throw
    | apply keeps_console_error | apply keeps_appendChild
    | apply keeps_try_catch; [|intro]
    | apply keeps_bind; [|intro]
    | match goal with |- keeps_container (if ?b then _ else _) => destruct b end ].

Lemma keeps_formatDate (H : host) (v : value) : keeps_container (formatDate H v).
Proof. unfold formatDate. keeps. Qed.

Lemma keeps_createPostElement (H : host) (post : value) :
  keeps_container (createPostElement H post).
Proof. unfold createPostElement. keeps; apply keeps_formatDate. Qed.

(** A loop whose body throws on one of the items throws, whatever the
    items before it did. *)
Lemma forEach_aborts {A} (f : A -> M unit) (l : list A) (x : A) :
  (forall y, keeps_container (f y)) ->
  In x l ->
  (forall st, exists e st', f x st = (Throw e, st')) ->
  forall st, container st <> None ->
  exists e st', forEach f l st = (Throw e, st') /\ container st' <> None.
Proof.
  intros Hk Hin Hx. induction l as [|a l IH]; [destruct Hin|].
  intros st Hc. simpl. unfold bind.
  pose proof (Hk a st Hc) as Hc1.
  destruct (f a st) as [[u|e] st1] eqn:Ea; simpl in Hc1.
  - destruct Hin as [->|Hin].
    + destruct (Hx st) as (e & st' & He). congruence.
    + now apply IH.
  - eauto.
Qed.

(* ----------------------------------------------------------------- *)
(** ** A record without a title *)

Lemma escapeHtml_not_string (v : value) :
  (forall s, v <> VString s) -> exists msg, escapeHtml v = Throw (TypeError msg).
Proof.
  intros Hv. destruct v; simpl; eauto. now destruct (Hv s).
Qed.

Lemma createPostElement_needs_title (H : host) (post : value) (st : page) :
  (forall s, get post "title" <> Normal (VString s)) ->
  exists e, createPostElement H post st = (Throw e, st).
Proof.
  intros Ht. unfold createPostElement.
  destruct (get post "id") as [id|e]; [|run_step; eauto]. run_step.
  destruct (to_string id) as [data_id|e]; [|run_step; eauto]. run_step.
  destruct (image_markup post) as [imageHTML|e]; [|run_step; eauto]. run_step.
  destruct (tags_markup post) as [tagsHTML|e]; [|run_step; eauto]. run_step.
  destruct (get post "title") as [title|e] eqn:Et; simpl cbind; [|run_step; eauto].
  destruct (escapeHtml_not_string title) as [msg ->]; [|run_step; eauto].
  intros s ->. now apply (Ht s).
Qed.

(** C10: [escapeHtml] throws a [TypeError] on every value that is not a
    string; [createPostElement] therefore throws on a record whose title is
    missing or is not a string; and when the fetched array holds such a
    record, [loadPosts] catches the error and the container ends up with
    the fixed error message as its only content, whatever the other records
    are. *)
Theorem a_record_without_title_aborts_the_render
        (H : host) (st : page) (status : Z) (posts : list value) (post : value) :
  container st <> None ->
  In post posts ->
  (forall s, get post "title" <> Normal (VString s)) ->
  (forall v, (forall s, v <> VString s) -> exists msg, escapeHtml v = Throw (TypeError msg)) /\
  (forall st0, exists e, createPostElement H post st0 = (Throw e, st0)) /\
  (exists log,
     loadPosts H (Response true status (Some (VArray posts))) st
     = (Normal tt, {| container := Some [error_element]; console := log |})).
Proof.
  intros Hc Hin Ht.
  split; [exact escapeHtml_not_string|].
  split; [intros st0; now apply createPostElement_needs_title|].
  unfold loadPosts. simpl negb. cbv iota.
  assert (Hr : exists e st', renderPosts H (VArray posts) st = (Throw e, st')
                             /\ container st' <> None).
  { unfold renderPosts. destruct (container st) as [old|] eqn:Eold; [|contradiction].
    destruct posts as [|p0 posts']; [destruct Hin|].
    unfold bind at 1, set_innerHTML. cbv beta iota.
    change (get (VArray (p0 :: posts')) "length")
      with (Normal (VNumber (Z.of_nat (S (List.length posts'))))).
    rewrite bind_lift_normal. unfold is_zero.
    replace (Z.of_nat (S (List.length posts')) =? 0)%Z with false
      by (symmetry; apply Z.eqb_neq; lia).
    unfold array_forEach.
    apply forEach_aborts with (x := post); trivial.
    - intros y.
      apply keeps_bind; [apply keeps_createPostElement|intro; apply keeps_appendChild].
    - intros st0. destruct (@createPostElement_needs_title H post st0 Ht) as [e He].
      exists e, st0. unfold bind. now rewrite He.
    - simpl. rewrite Eold. discriminate. }
  destruct Hr as (e & st' & Hr & Hc').
  rewrite (loadPosts_caught _ _ _ _ Hr).
  destruct (container st') as [kids|]; [|contradiction].
  eexists. reflexivity.
Qed.

(** A page with a container, two records, the second without a title. *)
Lemma a_record_without_title_aborts_the_render_witness :
  let H := utc_host in
  let st := {| container := Some [Text "loading"]; console := [] |} in
  let bad := VObject [("id", VNumber 2); ("excerpt", VString "no title")] in
  let posts := [VObject [("id", VNumber 1); ("title", VString "First")]; bad] in
  (forall v, (forall s, v <> VString s) -> exists msg, escapeHtml v = Throw (TypeError msg)) /\
  (forall st0, exists e, createPostElement H bad st0 = (Throw e, st0)) /\
  (exists log,
     loadPosts H (Response true 200 (Some (VArray posts))) st
     = (Normal tt, {| container := Some [error_element]; console := log |})).
Proof.
  intros H st bad posts.
  apply (@a_record_without_title_aborts_the_render H st 200%Z posts bad).
  - simpl. discriminate.
  - simpl. tauto.
  - intros s. simpl. discriminate.
Defined.

(* ----------------------------------------------------------------- *)
(** ** The document: structure, paths and in-place updates *)

Lemma node_induction (P : node -> Prop) :
  (forall d, P (Text d)) ->
  (forall t a d ch, Forall P ch -> P (Element t a d ch)) ->
  forall n, P n.
Proof.
  intros HT HE.
  refine (fix IH (n : node) : P n :=
            match n with
            | Text d => HT d
            | Element t a d ch =>
                HE t a d ch
                  ((fix go (l : list node) : Forall P l :=
                      match l with
                      | [] => Forall_nil P
                      | c :: r => Forall_cons c (IH c) (go r)
                      end) ch)
            end).
Qed.

Lemma textContent_erase (n : node) : textContent (erase n) = textContent n.
Proof.
  induction n as [d|t a d ch IH] using node_induction; [reflexivity|].
  simpl. f_equal. rewrite map_map. now apply map_ext_Forall.
Qed.

Lemma select_erase (c : string) (n : node) :
  select c (erase n) = List.map erase (select c n).
Proof.
  induction n as [d|t a d ch IH] using node_induction; [reflexivity|].
  simpl. rewrite map_app. f_equal.
  - now destruct (existsb _ _).
  - induction IH as [|x l Hx Hl IHl]; [reflexivity|].
    simpl. now rewrite map_app, Hx, IHl.
Qed.

Lemma child_nodes_erase (n : node) :
  child_nodes (erase n) = List.map erase (child_nodes n).
Proof. now destruct n. Qed.

Lemma querySelectorAll_erase (c : string) (n : node) :
  querySelectorAll c (erase n) = List.map erase (querySelectorAll c n).
Proof.
  unfold querySelectorAll. rewrite child_nodes_erase.
  induction (child_nodes n) as [|x l IH]; [reflexivity|].
  simpl. now rewrite map_app, select_erase, IH.
Qed.

Lemma tag_texts_erase (n : node) : tag_texts (erase n) = tag_texts n.
Proof.
  unfold tag_texts. rewrite querySelectorAll_erase, map_map.
  apply map_ext. intros x. apply textContent_erase.
Qed.

Lemma select_paths_erase (c : string) (n : node) :
  select_paths c (erase n) = select_paths c n.
Proof.
  induction n as [d|t a d ch IH] using node_induction; [reflexivity|].
  simpl. f_equal. generalize 0.
  induction IH as [|x l Hx Hl IHl]; intros i; [reflexivity|].
  simpl. now rewrite Hx, IHl.
Qed.

Lemma erase_set_display (v : string) (n : node) : erase (set_display v n) = erase n.
Proof. now destruct n. Qed.

Lemma erase_update (v : string) (p : path) (n : node) :
  erase (update (set_display v) p n) = erase n.
Proof.
  revert n. induction p as [|i p IH]; intros n; [apply erase_set_display|].
  destruct n as [d|t a d ch]; [reflexivity|]. simpl. f_equal.
  revert i. induction ch as [|x r IHr]; intros [|i]; simpl; try reflexivity.
  - now rewrite IH.
  - now rewrite IHr.
Qed.

Lemma nth_error_update_nth {A} (f : A -> A) (l : list A) (i j : nat) :
  nth_error (update_nth i f l) j
  = if Nat.eqb i j then option_map f (nth_error l j) else nth_error l j.
Proof.
  revert i j. induction l as [|x r IH]; intros i j.
  - destruct i, j; simpl; try reflexivity. now destruct (Nat.eqb i j).
  - destruct i as [|i], j as [|j]; simpl; try reflexivity. apply IH.
Qed.

Lemma lookup_update (v : string) (q p : path) (n e : node) :
  lookup n q = Some e ->
  exists e',
    lookup (update (set_display v) p n) q = Some e' /\
    erase e' = erase e /\
    (q <> p -> style_display e' = style_display e) /\
    (q = p -> e' = set_display v e).
Proof.
  revert p n e. induction q as [|j q IH]; intros p n e Hq.
  - injection Hq as <-. eexists. split; [reflexivity|].
    split; [apply erase_update|]. split.
    + intros Hp. destruct p as [|i p]; [congruence|]. now destruct n.
    + intros <-. reflexivity.
  - destruct p as [|i p].
    + exists e. simpl update. split.
      * simpl in *. now destruct n.
      * repeat split; congruence.
    + destruct n as [d|t a d ch]; [simpl in Hq; now destruct j|].
      simpl in Hq. simpl. rewrite nth_error_update_nth.
      destruct (nth_error ch j) as [c|] eqn:Ec; [|discriminate].
      destruct (Nat.eqb_spec i j) as [->|Hij].
      * simpl. destruct (IH p c e Hq) as (e' & H1 & H2 & H3 & H4).
        exists e'. repeat split; trivial.
        -- intros Hne. apply H3. congruence.
        -- intros Heq. apply H4. congruence.
      * exists e. repeat split; trivial; congruence.
Qed.

Lemma style_display_set_display_erase (v : string) (a b : node) :
  erase a = erase b ->
  style_display (set_display v a) = style_display (set_display v b).
Proof. destruct a, b; simpl; congruence. Qed.

Lemma paths_in_children_lookup (c : string) (t : string) a d (pre l : list node) :
  List.map (lookup (Element t a d (pre ++ l)))
    (paths_in_children (select_paths c) (List.length pre) l)
  = flat_map (fun x => List.map (lookup x) (select_paths c x)) l.
Proof.
  revert pre. induction l as [|x r IH]; intros pre; [reflexivity|].
  simpl paths_in_children. rewrite map_app. simpl flat_map. f_equal.
  - rewrite map_map. apply map_ext. intros q. simpl.
    rewrite nth_error_app2 by lia. now rewrite Nat.sub_diag.
  - specialize (IH (pre ++ [x])%list).
    rewrite <- app_assoc, length_app in IH. simpl in IH.
    now rewrite Nat.add_1_r in IH.
Qed.

(** [select_paths] lists the paths of the elements that [select] lists. *)
Lemma select_paths_select (c : string) (n : node) :
  List.map (lookup n) (select_paths c n) = List.map Some (select c n).
Proof.
  induction n as [d|t a d ch IH] using node_induction; [reflexivity|].
  simpl select_paths. simpl select. rewrite !map_app. f_equal.
  - now destruct (existsb _ _).
  - etransitivity; [exact (@paths_in_children_lookup c t a d [] ch)|].
    induction IH as [|x r Hx Hr IHr]; [reflexivity|].
    simpl. now rewrite map_app, Hx, IHr.
Qed.

Lemma select_elements (c : string) (n e : node) :
  In e (select c n) -> has_class c e = true.
Proof.
  induction n as [d|t a d ch IH] using node_induction; [intros []|].
  simpl. rewrite in_app_iff. intros [Hin|Hin].
  - destruct (existsb _ _) eqn:E; [|destruct Hin].
    destruct Hin as [<-|[]]. exact E.
  - apply in_flat_map in Hin. destruct Hin as (x & Hx & Hin).
    rewrite Forall_forall in IH. now apply (IH x).
Qed.

(** The loop of both filters, for a criterion that reads structure and
    text only. *)
Section Loop.

Variable f : node -> string.
Hypothesis Hf : display_blind f.

Lemma forEach_display_spec (posts : list path) :
  forall doc,
    erase (forEach_display f posts doc) = erase doc /\
    forall q e,
      lookup doc q = Some e ->
      exists e',
        lookup (forEach_display f posts doc) q = Some e' /\
        erase e' = erase e /\
        (In q posts -> style_display e' = style_display (set_display (f e) e)) /\
        (~ In q posts -> style_display e' = style_display e).
Proof.
  induction posts as [|p posts IH]; intros doc.
  - split; [reflexivity|]. intros q e Hq. exists e. simpl. tauto.
  - unfold forEach_display. simpl fold_left.
    set (d1 := match lookup doc p with
               | Some post => update (set_display (f post)) p doc
               | None => doc
               end).
    fold (forEach_display f posts d1).
    assert (Hd1 : erase d1 = erase doc).
    { unfold d1. destruct (lookup doc p); [apply erase_update|reflexivity]. }
    assert (Hl1 : forall q e, lookup doc q = Some e ->
              exists e1, lookup d1 q = Some e1 /\ erase e1 = erase e /\
                (q <> p -> style_display e1 = style_display e) /\
                (q = p -> e1 = set_display (f e) e)).
    { intros q e Hq. unfold d1. destruct (lookup doc p) as [post|] eqn:Ep.
      - destruct (@lookup_update (f post) q p doc e Hq) as (e1 & H1 & H2 & H3 & H4).
        exists e1. repeat split; trivial.
        intros ->. rewrite Ep in Hq. injection Hq as ->. now apply H4.
      - exists e. repeat split; trivial. intros ->. congruence. }
    destruct (IH d1) as [He IHl]. split; [congruence|].
    intros q e Hq. destruct (Hl1 q e Hq) as (e1 & H1 & H2 & H3 & H4).
    destruct (IHl q e1 H1) as (e' & G1 & G2 & G3 & G4).
    exists e'. split; [exact G1|]. split; [congruence|]. split.
    + intros Hin. destruct (in_dec path_eq_dec q posts) as [Hq'|Hq'].
      * rewrite (G3 Hq'), (Hf e1 e H2). now apply style_display_set_display_erase.
      * destruct Hin as [<-|Hin]; [|contradiction].
        rewrite (G4 Hq'), (H4 eq_refl). reflexivity.
    + intros Hnin. rewrite G4, H3; trivial.
      * intros ->. apply Hnin. now left.
      * intros Hin. apply Hnin. now right.
Qed.

(** After the loop, in document order, every selected element shows what
    [f] says of it, and nothing but [style.display] has changed. *)
Lemma forEach_display_select (c : string) (doc : node) :
  let doc' := forEach_display f (select_paths c doc) doc in
  erase doc' = erase doc /\
  List.map erase (select c doc') = List.map erase (select c doc) /\
  List.map style_display (select c doc') = List.map f (select c doc).
Proof.
  intros doc'.
  destruct (forEach_display_spec (select_paths c doc) doc) as [He Hl].
  fold doc' in He, Hl. split; [exact He|].
  assert (Hp : select_paths c doc' = select_paths c doc).
  { now rewrite <- select_paths_erase, He, select_paths_erase. }
  pose proof (select_paths_select c doc') as S'. rewrite Hp in S'.
  pose proof (select_paths_select c doc) as S.
  pose proof (select_elements c doc) as Hel.
  assert (Hall : forall p, In p (select_paths c doc) ->
            forall e, lookup doc p = Some e ->
            exists e', lookup doc' p = Some e' /\ erase e' = erase e /\
                       style_display e' = style_display (set_display (f e) e)).
  { intros p Hin e Hq. destruct (Hl p e Hq) as (e' & H1 & H2 & H3 & _). eauto. }
  clear Hl Hp He.
  revert S S' Hall Hel. generalize (select c doc') (select c doc) (select_paths c doc).
  intros l'. induction l' as [|e' l' IH]; intros l ps S S' Hall Hel.
  - destruct ps; [|discriminate]. destruct l; [|discriminate]. now split.
  - destruct ps as [|p ps]; [discriminate|]. destruct l as [|e l]; [discriminate|].
    simpl in S, S'. injection S as S1 S2. injection S' as S1' S2'.
    destruct (Hall p (or_introl eq_refl) e S1) as (e2 & G1 & G2 & G3).
    assert (e2 = e') by congruence. subst e2.
    destruct (IH l ps S2 S2') as [I1 I2].
    + intros q Hq. apply Hall. now right.
    + intros x Hx. apply Hel. now right.
    + simpl. split; f_equal; trivial.
      rewrite G3. specialize (Hel e (or_introl eq_refl)). now destruct e.
Qed.

End Loop.

(* ----------------------------------------------------------------- *)
(** ** The filters *)

Lemma starts_with_spec (q s : string) :
  starts_with q s = true <-> exists b, s = q ++ b.
Proof.
  revert s. induction q as [|c q IH]; intros s; simpl.
  - split; [intros _; now exists s|reflexivity].
  - destruct s as [|c' s].
    + split; [discriminate|]. intros [b Hb]. discriminate.
    + rewrite andb_true_iff, Ascii.eqb_eq, IH. split.
      * intros [-> [b ->]]. now exists b.
      * intros [b Hb]. injection Hb as -> ->. split; [reflexivity|now exists b].
Qed.

Lemma includes_head (s q : string) : starts_with q s = true -> includes s q = true.
Proof. intros Hs. destruct s; simpl; now rewrite Hs. Qed.

Lemma includes_spec (s q : string) : includes s q = true <-> substring q s.
Proof.
  unfold substring. split.
  - induction s as [|c s IH]; simpl; rewrite orb_true_iff.
    + intros [Hs|Hs]; [|discriminate].
      apply starts_with_spec in Hs. destruct Hs as [b ->]. now exists "", b.
    + intros [Hs|Hs].
      * apply starts_with_spec in Hs. destruct Hs as [b ->]. now exists "", b.
      * destruct (IH Hs) as (a & b & ->). now exists (String c a), b.
  - intros (a & b & ->). induction a as [|c a IH].
    + apply includes_head, starts_with_spec. now exists b.
    + simpl. rewrite IH. apply orb_true_r.
Qed.

Lemma array_includes_spec (l : list string) (x : string) :
  array_includes l x = true <-> In x l.
Proof.
  unfold array_includes. rewrite existsb_exists. split.
  - intros (y & Hy & Heq). apply String.eqb_eq in Heq. now subst.
  - intros Hin. exists x. split; [exact Hin|apply String.eqb_refl].
Qed.

Lemma tag_texts_blind (e e' : node) : erase e = erase e' -> tag_texts e = tag_texts e'.
Proof. intros He. now rewrite <- (tag_texts_erase e), He, tag_texts_erase. Qed.

Lemma text_of_erase (c : string) (e : node) : text_of c (erase e) = text_of c e.
Proof.
  unfold text_of, querySelector. rewrite querySelectorAll_erase.
  destruct (querySelectorAll c e) as [|x l]; [reflexivity|]. apply textContent_erase.
Qed.

Lemma lowered_text_spec (c : string) (post : node) :
  lowered_text c post = toLowerCase (text_of c post).
Proof.
  unfold lowered_text, text_of. destruct (querySelector c post) as [el|]; [|reflexivity].
  destruct (String.eqb_spec (toLowerCase (textContent el)) ""); congruence.
Qed.

Lemma map_blind (f : node -> string) (l l' : list node) :
  display_blind f -> List.map erase l = List.map erase l' -> List.map f l = List.map f l'.
Proof.
  intros Hf. revert l'. induction l as [|x l IH]; intros [|x' l'] Hm; try discriminate.
  - reflexivity.
  - simpl in *. injection Hm as Hx Hl. f_equal; [now apply Hf|now apply IH].
Qed.

Lemma Forall2_of_maps (f : node -> string) (l l' : list node) :
  List.map erase l' = List.map erase l ->
  List.map style_display l' = List.map f l ->
  Forall2 (fun e e' => erase e' = erase e /\ style_display e' = f e) l l'.
Proof.
  revert l'. induction l as [|x l IH]; intros [|x' l'] H1 H2; try discriminate.
  - constructor.
  - simpl in *. injection H1 as A1 A2. injection H2 as B1 B2.
    constructor; [now split|now apply IH].
Qed.

Lemma tag_display_blind (tag : string) : display_blind (tag_display tag).
Proof. intros e e' He. unfold tag_display. now rewrite (tag_texts_blind _ _ He). Qed.

Lemma search_display_blind (query : string) : display_blind (search_display query).
Proof.
  intros e e' He. unfold search_display. rewrite !lowered_text_spec.
  now rewrite <- (text_of_erase "post-title" e), <- (text_of_erase "post-excerpt" e),
    He, !text_of_erase.
Qed.

Lemma search_display_spec (query : string) (post : node) :
  (search_display query post = "block" <-> search_matches query post) /\
  (search_display query post = "none" <-> ~ search_matches query post).
Proof.
  unfold search_display, search_matches. rewrite !lowered_text_spec.
  rewrite <- !includes_spec, <- orb_true_iff.
  destruct (_ || _); split; split; try discriminate; try reflexivity; try tauto.
Qed.

Lemma tag_display_spec (tag : string) (post : node) :
  (tag_display tag post = "block" <-> In tag (tag_texts post)) /\
  (tag_display tag post = "none" <-> ~ In tag (tag_texts post)).
Proof.
  unfold tag_display. rewrite <- array_includes_spec.
  destruct (array_includes _ _); split; split; try discriminate; try reflexivity; try tauto.
Qed.

(** C8: after [filterByTag(tag)] the elements of class [post] are the same
    elements with the same tag texts, and each of them is shown
    ([display] is [block]) exactly when [tag] is equal to the text of one
    of its tag elements, and hidden ([none]) exactly when it is not.  With
    two rendered posts, one tagged [x] and the other not, [filterByTag] of
    [x] shows the first only, and a tag that neither has hides both. *)
Theorem filterByTag_shows_exactly_the_tagged_posts (H : host) (tag : string) (doc : node) :
  let shown := select "post" (filterByTag tag doc) in
  List.map erase shown = List.map erase (select "post" doc) /\
  Forall2
    (fun post post' =>
       tag_texts post' = tag_texts post /\
       (style_display post' = "block" <-> In tag (tag_texts post)) /\
       (style_display post' = "none" <-> ~ In tag (tag_texts post)))
    (select "post" doc) shown /\
  List.map style_display
    (select "post" (filterByTag "x" (rendered_document H [tagged_x; tagged_w])))
  = ["block"; "none"] /\
  List.map style_display
    (select "post" (filterByTag "y" (rendered_document H [tagged_x; tagged_w])))
  = ["none"; "none"].
Proof.
  intros shown.
  destruct (forEach_display_select (tag_display tag) (tag_display_blind tag) "post" doc)
    as (_ & He & Hs).
  fold (filterByTag tag doc) in He, Hs. fold shown in He, Hs.
  split; [exact He|]. split; [|split; reflexivity].
  eapply Forall2_impl; [|exact (Forall2_of_maps _ _ _ He Hs)].
  intros e e' [H1 H2]. cbv beta in *. rewrite H2.
  split; [now apply tag_texts_blind|apply tag_display_spec].
Qed.

Lemma select_erase_eq (c : string) (a b : node) :
  erase a = erase b -> List.map erase (select c a) = List.map erase (select c b).
Proof. intros He. now rewrite <- !select_erase, He. Qed.

Lemma erase_filterByTag (tag : string) (doc : node) : erase (filterByTag tag doc) = erase doc.
Proof. apply (forEach_display_select (tag_display tag) (tag_display_blind tag) "post" doc). Qed.

Lemma erase_searchPosts (query : string) (doc : node) :
  erase (searchPosts query doc) = erase doc.
Proof.
  apply (forEach_display_select (search_display query) (search_display_blind query)
           "post" doc).
Qed.

Lemma searchPosts_display (query : string) (doc : node) :
  List.map style_display (select "post" (searchPosts query doc))
  = List.map (search_display query) (select "post" doc).
Proof.
  apply (forEach_display_select (search_display query) (search_display_blind query)
           "post" doc).
Qed.

Lemma searchPosts_forgets (query : string) (earlier doc : node) :
  erase earlier = erase doc ->
  List.map style_display (select "post" (searchPosts query earlier))
  = List.map style_display (select "post" (searchPosts query doc)).
Proof.
  intros He. rewrite !searchPosts_display.
  apply map_blind; [apply search_display_blind|now apply select_erase_eq].
Qed.

(** C9: after [searchPosts(query)] each element of class [post] is shown
    exactly when the lower-cased query is a substring of its lower-cased
    title text or of its lower-cased excerpt text, and hidden exactly when
    it is not.  The outcome does not depend on what was shown before: any
    document with the same structure and text, in particular the document
    left by an earlier tag filter or search, gives the same visibility.
    Searching [cat] over a post titled [Category theory] and a post about
    dogs shows the first only. *)
Theorem searchPosts_shows_exactly_the_matching_posts
        (H : host) (query : string) (doc : node) :
  let shown := select "post" (searchPosts query doc) in
  List.map erase shown = List.map erase (select "post" doc) /\
  Forall2
    (fun post post' =>
       (style_display post' = "block" <-> search_matches query post) /\
       (style_display post' = "none" <-> ~ search_matches query post))
    (select "post" doc) shown /\
  (forall earlier,
     erase earlier = erase doc ->
     List.map style_display (select "post" (searchPosts query earlier))
     = List.map style_display shown) /\
  (forall tag,
     List.map style_display (select "post" (searchPosts query (filterByTag tag doc)))
     = List.map style_display shown) /\
  (forall before,
     List.map style_display (select "post" (searchPosts query (searchPosts before doc)))
     = List.map style_display shown) /\
  List.map style_display
    (select "post" (searchPosts "cat" (rendered_document H [about_categories; about_dogs])))
  = ["block"; "none"].
Proof.
  intros shown.
  destruct (forEach_display_select (search_display query) (search_display_blind query)
              "post" doc) as (_ & He & Hs).
  fold (searchPosts query doc) in He, Hs. fold shown in He, Hs.
  split; [exact He|]. split.
  { eapply Forall2_impl; [|exact (Forall2_of_maps _ _ _ He Hs)].
    intros e e' [H1 H2]. cbv beta in *. rewrite H2. apply search_display_spec. }
  split; [intros earlier Hearlier; now apply searchPosts_forgets|].
  split; [intros tag; apply searchPosts_forgets, erase_filterByTag|].
  split; [intros before; apply searchPosts_forgets, erase_searchPosts|].
  reflexivity.
Qed.

(* ----------------------------------------------------------------- *)
(** ** The parser, piece by piece *)


Lemma normalize_newlines_app (b : bool) (s1 s2 : string) :
  normalize_newlines b (s1 ++ s2)
  = normalize_newlines b s1 ++ normalize_newlines (flag_after b s1) s2.
Proof.
  revert b. induction s1 as [|c r IH]; intros b; [reflexivity|].
  simpl. destruct (Ascii.eqb c "013"); simpl.
  - now rewrite IH.
  - destruct (Ascii.eqb c "010" && b); simpl; now rewrite IH.
Qed.

Lemma flag_after_app (b : bool) (s1 s2 : string) :
  flag_after b (s1 ++ s2) = flag_after (flag_after b s1) s2.
Proof. revert b. induction s1 as [|c r IH]; intros b; [reflexivity|]. simpl. apply IH. Qed.

Lemma run_app (st : lex_state) (a b : string) :
  run st (a ++ b) = and_then (run st a) (fun st' => run st' b).
Proof.
  revert st. induction a as [|c r IH]; intros st.
  - unfold and_then. simpl. now destruct (run st b).
  - simpl. rewrite IH. unfold and_then. simpl. now rewrite app_assoc.
Qed.

Lemma tokenize_from_run (st : lex_state) (s : string) :
  tokenize_from st s = (fst (run st s) ++ lex_end (snd (run st s)))%list.
Proof.
  revert st. induction s as [|c r IH]; intros st; [reflexivity|].
  simpl. now rewrite IH, app_assoc.
Qed.

Lemma build_grow (ts : list token) (stack : list open_element) (kids : list node) :
  build stack kids ts
  = rev (close_all (fst (grow ts (stack, kids))) (snd (grow ts (stack, kids)))).
Proof.
  revert stack kids. induction ts as [|t r IH]; intros stack kids; [reflexivity|].
  destruct t as [name attrs|name|d]; simpl.
  - destruct (void_element name); apply IH.
  - unfold grow. simpl.
    destruct (close_to name stack kids) as [[stack' kids']|]; apply IH.
  - apply IH.
Qed.

Lemma grow_app (t1 t2 : list token) (at_ : list open_element * list node) :
  grow (t1 ++ t2) at_ = grow t2 (grow t1 at_).
Proof. apply fold_left_app. Qed.

Lemma grow_cons (t : token) (r : list token) (at_ : list open_element * list node) :
  grow (t :: r) at_ = grow r (grow_step at_ t).
Proof. reflexivity. Qed.

Lemma tokens_from_app (a r : string) (at_ : bool * lex_state) :
  tokens_from at_ (a ++ r) = (fst (feed a at_) ++ tokens_from (snd (feed a at_)) r)%list.
Proof.
  unfold tokens_from, feed. simpl fst. simpl snd.
  rewrite normalize_newlines_app, !tokenize_from_run, run_app. unfold and_then. simpl.
  now rewrite app_assoc.
Qed.

Lemma parse_html_tokens (s : string) :
  parse_html s
  = rev (close_all (fst (grow (tokens_from (false, Data "") s) ([], [])))
                   (snd (grow (tokens_from (false, Data "") s) ([], [])))).
Proof. unfold parse_html, tokenize. now rewrite build_grow. Qed.

Lemma grow_text_token (p : string) (at_ : list open_element * list node) :
  grow (text_token p) at_ = (fst at_, add_text (strip_nul (decode_entities p)) (snd at_)).
Proof.
  unfold text_token. destruct (String.eqb_spec p "") as [->|Hp]; simpl.
  - now destruct at_.
  - reflexivity.
Qed.

Lemma run_data_plain (s p : string) :
  no_lt s = true -> run (Data p) s = ([], Data (p ++ s)).
Proof.
  revert p. induction s as [|c r IH]; intros p Hs.
  - simpl. f_equal. f_equal. clear. induction p; simpl; congruence.
  - unfold no_lt in Hs. simpl in Hs. apply andb_true_iff in Hs. destruct Hs as [Hc Hr].
    simpl. destruct (Ascii.eqb c "<"); [discriminate|]. simpl.
    rewrite (IH _ Hr). unfold snoc, chr. now rewrite append_assoc.
Qed.

Lemma run_dq_plain (s : string) (t : tag_acc) (k v : string) :
  no_dquote s = true -> run (AttrValueDQ t k v) s = ([], AttrValueDQ t k (v ++ s)).
Proof.
  revert v. induction s as [|c r IH]; intros v Hs.
  - simpl. f_equal. f_equal. clear. induction v; simpl; congruence.
  - unfold no_dquote in Hs. simpl in Hs. apply andb_true_iff in Hs. destruct Hs as [Hc Hr].
    simpl. destruct (Ascii.eqb c dquote); [discriminate|]. simpl.
    rewrite (IH _ Hr). unfold snoc, chr. now rewrite append_assoc.
Qed.

Lemma normalize_newlines_entity (b : bool) (c : ascii) (r : string) :
  Ascii.eqb c "013" = false -> Ascii.eqb c "010" = false ->
  normalize_newlines b (entity_spec c ++ r) = entity_spec c ++ normalize_newlines false r.
Proof.
  pattern c, (entity_spec c). apply entity_cases; try reflexivity.
  intros _ _ _ _ _ H1 H2. simpl. now rewrite H1, H2.
Qed.

Lemma normalize_newlines_escape (x : string) (b : bool) :
  normalize_newlines b (escape_text x) = escape_text (normalize_newlines b x).
Proof.
  revert b. induction x as [|c r IH]; intros b; [reflexivity|].
  rewrite escape_text_cons. simpl normalize_newlines at 2.
  destruct (Ascii.eqb c "013") eqn:E1.
  - apply Ascii.eqb_eq in E1. subst c. change (entity_spec "013") with (chr "013").
    simpl. now rewrite IH.
  - destruct (Ascii.eqb c "010") eqn:E2.
    + apply Ascii.eqb_eq in E2. subst c. change (entity_spec "010") with (chr "010").
      simpl. destruct b; simpl; now rewrite IH.
    + simpl andb. cbv iota. rewrite escape_text_cons.
      rewrite normalize_newlines_entity by assumption. now rewrite IH.
Qed.

Lemma flag_after_entity (b : bool) (c : ascii) (r : string) :
  flag_after b (entity_spec c ++ r) = flag_after (Ascii.eqb c "013") r.
Proof.
  pattern c, (entity_spec c). apply entity_cases; reflexivity.
Qed.

Lemma flag_after_escape (x : string) (b : bool) :
  flag_after b (escape_text x) = flag_after b x.
Proof.
  revert b. induction x as [|c r IH]; intros b; [reflexivity|].
  rewrite escape_text_cons, flag_after_entity. simpl. apply IH.
Qed.

Lemma string_forallb_app (p : ascii -> bool) (a b : string) :
  string_forallb p (a ++ b) = string_forallb p a && string_forallb p b.
Proof. induction a as [|c r IH]; simpl; [reflexivity|]. now rewrite IH, andb_assoc. Qed.

Lemma no_lt_escape (x : string) : no_lt (escape_text x) = true.
Proof.
  unfold no_lt. induction x as [|c r IH]; [reflexivity|].
  rewrite escape_text_cons, string_forallb_app, IH, andb_true_r.
  pattern c, (entity_spec c). apply entity_cases; try reflexivity.
  intros _ E _ _ _. simpl. now rewrite E.
Qed.

Lemma no_dquote_escape (x : string) : no_dquote (escape_text x) = true.
Proof.
  unfold no_dquote. induction x as [|c r IH]; [reflexivity|].
  rewrite escape_text_cons, string_forallb_app, IH, andb_true_r.
  pattern c, (entity_spec c). apply entity_cases; try reflexivity.
  intros _ _ _ E _. simpl. now rewrite E.
Qed.

Lemma no_lt_normalize (d : string) (b : bool) :
  no_lt d = true -> no_lt (normalize_newlines b d) = true.
Proof.
  unfold no_lt. revert b. induction d as [|c r IH]; intros b Hd; [reflexivity|].
  simpl in Hd. apply andb_true_iff in Hd. destruct Hd as [Hc Hr]. simpl.
  destruct (Ascii.eqb c "013"); [simpl; now apply IH|].
  destruct (Ascii.eqb c "010" && b); [now apply IH|].
  simpl. rewrite Hc. now apply IH.
Qed.

Lemma feed_data_plain (d p : string) (b : bool) :
  no_lt d = true ->
  feed d (b, Data p) = ([], (flag_after b d, Data (p ++ normalize_newlines b d))).
Proof.
  intros Hd. unfold feed. simpl fst. simpl snd.
  now rewrite run_data_plain by now apply no_lt_normalize.
Qed.

(** What the browser shows for escaped text is the text itself, as the
    parser stores it. *)
Lemma rendered_text_escape (x : string) : rendered_text (escape_text x) = dom_text x.
Proof.
  unfold rendered_text, dom_text. now rewrite normalize_newlines_escape, decode_escape.
Qed.

Lemma dom_text_plain (s : string) : plain_text s = true -> dom_text s = s.
Proof.
  unfold plain_text, dom_text. induction s as [|c r IH]; [reflexivity|].
  simpl. intros Hs. apply andb_true_iff in Hs. destruct Hs as [Hc Hr].
  apply andb_true_iff in Hc. destruct Hc as [H1 H2].
  apply negb_true_iff in H1. apply negb_true_iff in H2.
  rewrite H1, andb_false_r. simpl. rewrite H2. now rewrite IH.
Qed.

Lemma no_dquote_normalize (d : string) (b : bool) :
  no_dquote d = true -> no_dquote (normalize_newlines b d) = true.
Proof.
  unfold no_dquote. revert b. induction d as [|c r IH]; intros b Hd; [reflexivity|].
  simpl in Hd. apply andb_true_iff in Hd. destruct Hd as [Hc Hr]. simpl.
  destruct (Ascii.eqb c "013"); [simpl; now apply IH|].
  destruct (Ascii.eqb c "010" && b); [now apply IH|].
  simpl. rewrite Hc. now apply IH.
Qed.

Lemma tokens_hole_data (h r p : string) (b : bool) :
  no_lt h = true ->
  tokens_from (b, Data p) (h ++ r)
  = tokens_from (flag_after b h, Data (p ++ normalize_newlines b h)) r.
Proof.
  intros Hh. now rewrite tokens_from_app, feed_data_plain.
Qed.

Lemma tokens_hole_dq (h r : string) (t : tag_acc) (k v : string) (b : bool) :
  no_dquote h = true ->
  tokens_from (b, AttrValueDQ t k v) (h ++ r)
  = tokens_from (flag_after b h, AttrValueDQ t k (v ++ normalize_newlines b h)) r.
Proof.
  intros Hh. rewrite tokens_from_app. unfold feed. simpl fst. simpl snd.
  now rewrite run_dq_plain by now apply no_dquote_normalize.
Qed.


Lemma parse_html_finish (s : string) :
  parse_html s = finish (grow (tokens_from (false, Data "") s) ([], [])).
Proof. apply parse_html_tokens. Qed.

Lemma tokens_literal (a r : string) (at_ next : bool * lex_state) (toks : list token) :
  feed a at_ = (toks, next) ->
  tokens_from at_ (a ++ r) = (toks ++ tokens_from next r)%list.
Proof. intros Hf. now rewrite tokens_from_app, Hf. Qed.

Lemma tokens_last (a : string) (at_ next : bool * lex_state) (toks : list token) :
  feed a at_ = (toks, next) ->
  tokens_from at_ a = (toks ++ lex_end (snd next))%list.
Proof.
  intros Hf. rewrite <- (append_nil_r a) at 1.
  now rewrite (tokens_literal _ _ _ _ _ Hf).
Qed.

Lemma grow_text_app (p : string) (r : list token) (at_ : list open_element * list node) :
  grow (text_token p ++ r) at_
  = grow r (fst at_, add_text (strip_nul (decode_entities p)) (snd at_)).
Proof. now rewrite grow_app, grow_text_token. Qed.

Lemma add_text_nil (t : string) : add_text t [] = text_children t.
Proof. unfold add_text, text_children. now destruct (String.eqb t ""). Qed.

Lemma rev_text_children (t : string) : rev (text_children t) = text_children t.
Proof. unfold text_children. now destruct (String.eqb t ""). Qed.

Lemma select_text_children (c t : string) : flat_map (select c) (text_children t) = [].
Proof. unfold text_children. now destruct (String.eqb t ""). Qed.

(* ----------------------------------------------------------------- *)
(** ** The tree of a rendered article *)


Ltac eval_markup :=
  repeat match goal with
         | |- context [markup ?s] =>
             let t := eval vm_compute in (markup s) in change (markup s) with t
         end.

Arguments text_token : simpl never.
Arguments add_text : simpl never.
Arguments add_child : simpl never.
Arguments text_children : simpl never.
Arguments rendered_text : simpl never.
Arguments tag_elements : simpl never.
Arguments spans_tokens : simpl never.

Lemma concat_empty_cons (x : string) (l : list string) :
  String.concat "" (x :: l) = x ++ String.concat "" l.
Proof. destruct l; simpl; [now rewrite append_nil_r|reflexivity]. Qed.

Ltac tokens_step :=
  first
    [ rewrite tokens_hole_data by assumption
    | rewrite tokens_hole_dq by assumption
    | erewrite tokens_literal by (unfold feed; cbn; reflexivity)
    | erewrite tokens_last by (unfold feed; cbn; reflexivity) ].

Lemma tokens_spans (l : list string) (r p : string) (b : bool) :
  Forall inert l ->
  tokens_from (b, Data p) (String.concat "" (List.map tag_html l) ++ r)
  = match l with
    | [] => tokens_from (b, Data p) r
    | _ :: _ => (text_token p ++ spans_tokens l ++ tokens_from (false, Data "") r)%list
    end.
Proof.
  intros Hl. revert b p. induction Hl as [|m l [Hm1 Hm2] Hl IH]; intros b p; [reflexivity|].
  simpl List.map. rewrite concat_empty_cons. unfold tag_html at 1. eval_markup.
  rewrite !append_assoc.
  do 3 tokens_step. rewrite IH. destruct l as [|m' l'].
  - cbn. unfold spans_tokens. simpl. rewrite ?app_nil_r, <- ?app_assoc. reflexivity.
  - unfold spans_tokens. simpl flat_map. unfold span_tokens at 1.
    cbn. rewrite ?app_nil_r, <- ?app_assoc. cbn [app]. rewrite <- ?app_assoc. reflexivity.
Qed.

Ltac fold_grow :=
  repeat match goal with
         | |- context [fold_left grow_step ?l ?s] => change (fold_left grow_step l s) with (grow l s)
         end.

Lemma grow_spans (l : list string) (r : list token)
      (stack : list open_element) (kids : list node) :
  grow (spans_tokens l ++ r) (stack, kids)
  = grow r (stack, (rev (tag_elements l) ++ kids)%list).
Proof.
  revert kids. induction l as [|m l IH]; intros kids; [reflexivity|].
  unfold spans_tokens, tag_elements. simpl flat_map. simpl List.map. simpl rev.
  fold (spans_tokens l). fold (tag_elements l).
  unfold span_tokens. rewrite <- !app_assoc. cbn [app].
  rewrite grow_cons. cbn [grow_step void_element existsb String.eqb Ascii.eqb Bool.eqb
                          fst snd orb].
  rewrite <- !app_assoc. rewrite grow_text_app. cbn [fst snd app]. rewrite add_text_nil.
  rewrite grow_cons. cbn [grow_step close_to String.eqb Ascii.eqb Bool.eqb fst snd o_tag
                          o_attrs o_before close_element andb].
  rewrite IH. unfold close_element. cbn [o_tag o_attrs o_before].
  rewrite rev_text_children. reflexivity.
Qed.

Lemma select_tag_element (c m : string) :
  select c (tag_element m) = if String.eqb c "tag" then [tag_element m] else [].
Proof.
  unfold tag_element. cbn [select]. rewrite select_text_children, app_nil_r.
  cbn. now rewrite orb_false_r.
Qed.

Lemma select_tag_elements (c : string) (l : list string) :
  flat_map (select c) (tag_elements l)
  = if String.eqb c "tag" then tag_elements l else [].
Proof.
  unfold tag_elements. induction l as [|m l IH]; [now destruct (String.eqb c "tag")|].
  cbn [List.map flat_map]. rewrite IH, select_tag_element.
  now destruct (String.eqb c "tag").
Qed.

Ltac tokens_run :=
  repeat first
    [ rewrite tokens_hole_data by assumption
    | rewrite tokens_hole_dq by assumption
    | rewrite tokens_spans by assumption
    | erewrite tokens_literal by (unfold feed; cbn; reflexivity)
    | erewrite tokens_last by (unfold feed; cbn; reflexivity) ].

Ltac grow_run :=
  repeat (rewrite <- ?app_assoc; cbn; fold_grow;
          first [rewrite grow_text_app | rewrite grow_spans | rewrite grow_text_token]).

Ltac fold_rendered :=
  repeat match goal with
         | |- context [strip_nul (decode_entities (normalize_newlines false ?T))] =>
             change (strip_nul (decode_entities (normalize_newlines false T)))
               with (rendered_text T)
         end.

Lemma add_child_after_tags (d m : string) (l : list string) (kids : list node) :
  add_child (Text d) (rev (tag_elements (m :: l)) ++ kids)
  = Text d :: (rev (tag_elements (m :: l)) ++ kids).
Proof.
  destruct (rev (tag_elements (m :: l))) as [|x r] eqn:E.
  - apply (f_equal (@List.length node)) in E.
    rewrite length_rev in E. unfold tag_elements in E. rewrite length_map in E.
    discriminate.
  - assert (Hin : In x (tag_elements (m :: l))).
    { apply in_rev. rewrite E. now left. }
    unfold tag_elements in Hin. apply in_map_iff in Hin.
    destruct Hin as (m' & <- & _). reflexivity.
Qed.

Ltac finish_tree :=
  cbn [fst snd]; unfold finish; cbn [close_all fst snd];
  fold_rendered; rewrite ?add_text_nil; unfold add_text, close_element;
  cbn; rewrite ?add_child_after_tags; unfold add_child; cbn; fold_rendered;
  rewrite ?rev_app_distr, ?rev_involutive, ?rev_text_children; cbn.

Ltac select_run :=
  repeat (cbn; rewrite ?flat_map_app, ?select_text_children, ?select_tag_elements,
            ?length_app, ?app_nil_r).

Lemma article_tree (img : option (string * string)) (T X : string)
      (tags : option (list string)) (D : string) (author : option string) (U : string) :
  match img with Some (src, alt) => inert src /\ inert alt | None => True end ->
  inert T -> inert X ->
  match tags with Some l => Forall inert l | None => True end ->
  no_lt D = true ->
  match author with Some a => inert a | None => True end ->
  inert U ->
  exists kids,
    parse_html (article_html (image_part img) T X (tags_part tags) D (author_part author) U)
    = kids /\
  flat_map (select "post-title") kids
  = [Element "h2" [("class", "post-title")] "" (text_children (rendered_text T))] /\
  flat_map (select "post-excerpt") kids
  = [Element "p" [("class", "post-excerpt")] "" (text_children (rendered_text X))] /\
  flat_map (select "tag") kids
  = match tags with Some l => tag_elements l | None => [] end /\
  match tags with
  | Some l =>
      exists block,
        flat_map (select "post-tags") kids
        = [Element "div" [("class", "post-tags")] "" block] /\
        flat_map (select "tag") block = tag_elements l
  | None => flat_map (select "post-tags") kids = []
  end /\
  flat_map (select "post") kids = [].
Proof.
  intros Himg [HT1 HT2] [HX1 HX2] Htags HD Hauthor [HU1 HU2].
  destruct img as [[src alt]|]; [destruct Himg as [[Hs1 Hs2] [Ha1 Ha2]]|];
    (destruct tags as [[|m l]|]);
    (destruct author as [a|]; [destruct Hauthor as [Hb1 Hb2]|]).
  all: eexists; split;
    [ rewrite parse_html_finish;
      unfold article_html, image_part, tags_part, author_part, img_html, tags_html,
        author_html;
      eval_markup; rewrite ?append_assoc;
      tokens_run; grow_run; finish_tree; reflexivity
    | ].
  all: repeat split;
    first
      [ match goal with
        | |- exists _, _ =>
            eexists; split; [select_run; reflexivity | select_run; reflexivity]
        end
      | select_run; reflexivity ].
Qed.

(* ----------------------------------------------------------------- *)
(** ** What a rendered post shows of its record *)

Lemma inert_escape (x : string) : inert (escape_text x).
Proof. split; [apply no_lt_escape|apply no_dquote_escape]. Qed.

Lemma escapeHtml_success (v : value) (s : string) :
  escapeHtml v = Normal s -> exists t, v = VString t /\ s = escape_text t.
Proof.
  destruct v; simpl; try discriminate. intros [= <-]. eauto.
Qed.

Lemma no_lt_app (a b : string) : no_lt (a ++ b) = no_lt a && no_lt b.
Proof. apply string_forallb_app. Qed.

Lemma no_lt_uint (d : Decimal.uint) : no_lt (NilEmpty.string_of_uint d) = true.
Proof. induction d; simpl; trivial. Qed.

Lemma no_lt_Z_to_string (n : Z) : no_lt (Z_to_string n) = true.
Proof.
  unfold Z_to_string, NilZero.string_of_int, NilZero.string_of_uint.
  destruct (Z.to_int n) as [d|d]; destruct d; try reflexivity;
    try apply (no_lt_uint (Decimal.D0 _)); try apply (no_lt_uint (Decimal.D1 _));
    try apply (no_lt_uint (Decimal.D2 _)); try apply (no_lt_uint (Decimal.D3 _));
    try apply (no_lt_uint (Decimal.D4 _)); try apply (no_lt_uint (Decimal.D5 _));
    try apply (no_lt_uint (Decimal.D6 _)); try apply (no_lt_uint (Decimal.D7 _));
    try apply (no_lt_uint (Decimal.D8 _)); try apply (no_lt_uint (Decimal.D9 _)).
Qed.

Lemma no_lt_month_name (m : Z) : no_lt (month_name m) = true.
Proof.
  generalize (month_name_in m). generalize (month_name m). intros name Hin.
  simpl in Hin. repeat (destruct Hin as [<- | Hin]; [reflexivity|]). destruct Hin.
Qed.

Lemma no_lt_toLocaleDateString (H : host) (date : option Z) :
  no_lt (toLocaleDateString H date) = true.
Proof.
  destruct date as [t|]; [|reflexivity]. unfold toLocaleDateString.
  destruct (civil_from_days _) as [[y m] d].
  rewrite !no_lt_app, no_lt_month_name, !no_lt_Z_to_string. reflexivity.
Qed.

Lemma new_Date_throws (H : host) (v : value) (e : error) :
  new_Date H v = Throw e -> to_string v = Throw e.
Proof.
  intros Hn. destruct v; try discriminate Hn; unfold new_Date in Hn.
  - destruct (to_string (VArray items)); simpl in Hn; [discriminate|congruence].
  - destruct (to_string (VObject props)); simpl in Hn; [discriminate|congruence].
Qed.

(** The text that [createPostElement] interpolates for the date holds no
    markup. *)
Lemma formatDate_text (H : host) (v f : value) (st st' : page) (D : string) :
  formatDate H v st = (Normal f, st') ->
  to_string f = Normal D ->
  no_lt D = true.
Proof.
  unfold formatDate, try_catch, bind, lift, ret, console_error.
  destruct (truthy v); simpl.
  - destruct (new_Date H v) as [d|e] eqn:Ed.
    + intros [= <- _] [= <-]. apply no_lt_toLocaleDateString.
    + intros [= <- _] Hs. rewrite (new_Date_throws _ _ _ Ed) in Hs. discriminate.
  - intros [= <- _] [= <-]. reflexivity.
Qed.

Lemma image_markup_success (post : value) (s : string) :
  image_markup post = Normal s ->
  exists img, s = image_part img /\
              match img with Some (src, alt) => inert src /\ inert alt | None => True end.
Proof.
  unfold image_markup. destruct (get post "image") as [image|]; simpl; [|discriminate].
  destruct (truthy image).
  - destruct (escapeHtml image) as [src|] eqn:Es; simpl; [|discriminate].
    destruct (get post "title") as [title|]; simpl; [|discriminate].
    destruct (escapeHtml title) as [alt|] eqn:Ea; simpl; [|discriminate].
    intros [= <-].
    apply escapeHtml_success in Es. destruct Es as (a & _ & ->).
    apply escapeHtml_success in Ea. destruct Ea as (b & _ & ->).
    exists (Some (escape_text a, escape_text b)). split; [reflexivity|].
    split; apply inert_escape.
  - intros [= <-]. now exists None.
Qed.

Lemma author_markup_success (post : value) (s : string) :
  author_markup post = Normal s ->
  exists author, s = author_part author /\
                 match author with Some a => inert a | None => True end.
Proof.
  unfold author_markup. destruct (get post "author") as [author|]; simpl; [|discriminate].
  destruct (truthy author).
  - destruct (escapeHtml author) as [a|] eqn:Ea; simpl; [|discriminate].
    intros [= <-]. apply escapeHtml_success in Ea. destruct Ea as (b & _ & ->).
    exists (Some (escape_text b)). split; [reflexivity|apply inert_escape].
  - intros [= <-]. now exists None.
Qed.

Lemma mapM_tags (items : list value) (spans : list string) :
  mapM (fun tag => t <~ escapeHtml tag ;; Normal (tag_html t)) items = Normal spans ->
  exists l, items = List.map VString l /\
            spans = List.map tag_html (List.map escape_text l).
Proof.
  revert spans. induction items as [|v items IH]; intros spans.
  - intros [= <-]. now exists [].
  - simpl. destruct (escapeHtml v) as [t|] eqn:Ev; simpl; [|discriminate].
    destruct (mapM _ items) as [ys|]; simpl; [|discriminate].
    intros [= <-]. destruct (IH ys eq_refl) as (l & -> & ->).
    apply escapeHtml_success in Ev. destruct Ev as (x & -> & ->).
    now exists (x :: l).
Qed.

Lemma tags_markup_success (post : value) (s : string) :
  tags_markup post = Normal s ->
  match get post "tags" with
  | Normal (VArray items) =>
      exists l, items = List.map VString l /\ s = tags_part (Some (List.map escape_text l))
  | _ => s = tags_part None
  end.
Proof.
  unfold tags_markup. destruct (get post "tags") as [tags|]; simpl; [|discriminate].
  destruct tags; simpl; rewrite ?andb_false_r; try (intros [= <-]; reflexivity).
  destruct (mapM _ items) as [spans|] eqn:Em; simpl; [|discriminate].
  intros [= <-]. destruct (mapM_tags _ _ Em) as (l & -> & ->). now exists l.
Qed.

(** What a successful [createPostElement] has read and rendered. *)
Lemma createPostElement_success (H : host) (post : value) (st st' : page) (article : node) :
  createPostElement H post st = (Normal article, st') ->
  exists data_id img title shown tags D author target,
    article
    = Element "article" [("class", "post"); ("data-id", data_id)] ""
        (parse_html
           (article_html (image_part img) (escape_text title) (escape_text shown)
              (tags_part tags) D (author_part author) (escape_text target))) /\
    match img with Some (src, alt) => inert src /\ inert alt | None => True end /\
    get post "title" = Normal (VString title) /\
    excerpt_or_description post = Normal (VString shown) /\
    match get post "tags" with
    | Normal (VArray items) =>
        exists l, items = List.map VString l /\ tags = Some (List.map escape_text l)
    | _ => tags = None
    end /\
    no_lt D = true /\
    match author with Some a => inert a | None => True end.
Proof.
  unfold createPostElement. intros Hc.
  destruct (get post "id") as [id|e]; [|rewrite bind_lift_throw in Hc; discriminate].
  rewrite bind_lift_normal in Hc.
  destruct (to_string id) as [data_id|e]; [|rewrite bind_lift_throw in Hc; discriminate].
  rewrite bind_lift_normal in Hc.
  destruct (image_markup post) as [imageHTML|e] eqn:Ei;
    [|rewrite bind_lift_throw in Hc; discriminate].
  rewrite bind_lift_normal in Hc.
  destruct (tags_markup post) as [tagsHTML|e] eqn:Et;
    [|rewrite bind_lift_throw in Hc; discriminate].
  rewrite bind_lift_normal in Hc.
  destruct (get post "title") as [title|e] eqn:Eti; simpl cbind in Hc;
    [|rewrite bind_lift_throw in Hc; discriminate].
  destruct (escapeHtml title) as [T|e] eqn:ET;
    [|rewrite bind_lift_throw in Hc; discriminate].
  rewrite bind_lift_normal in Hc.
  destruct (excerpt_or_description post) as [shown|e] eqn:Ex; simpl cbind in Hc;
    [|rewrite bind_lift_throw in Hc; discriminate].
  destruct (escapeHtml shown) as [X|e] eqn:EX;
    [|rewrite bind_lift_throw in Hc; discriminate].
  rewrite bind_lift_normal in Hc.
  destruct (get post "date") as [date|e]; [|rewrite bind_lift_throw in Hc; discriminate].
  rewrite bind_lift_normal in Hc.
  unfold bind at 1 in Hc.
  destruct (formatDate H date st) as [[formatted|e] st1] eqn:Ef; [|discriminate].
  destruct (to_string formatted) as [D|e] eqn:ED;
    [|rewrite bind_lift_throw in Hc; discriminate].
  rewrite bind_lift_normal in Hc.
  destruct (author_markup post) as [authorHTML|e] eqn:Ea;
    [|rewrite bind_lift_throw in Hc; discriminate].
  rewrite bind_lift_normal in Hc.
  destruct (url_or_anchor post) as [target|e] eqn:Eu; simpl cbind in Hc;
    [|rewrite bind_lift_throw in Hc; discriminate].
  destruct (escapeHtml target) as [U|e] eqn:EU;
    [|rewrite bind_lift_throw in Hc; discriminate].
  rewrite bind_lift_normal in Hc. unfold ret in Hc. injection Hc as <- _.
  apply escapeHtml_success in ET. destruct ET as (t & -> & ->).
  apply escapeHtml_success in EX. destruct EX as (x & -> & ->).
  apply escapeHtml_success in EU. destruct EU as (u & -> & ->).
  apply image_markup_success in Ei. destruct Ei as (img & -> & Himg).
  apply author_markup_success in Ea. destruct Ea as (author & -> & Hauthor).
  apply tags_markup_success in Et.
  pose proof (formatDate_text _ _ _ _ _ _ Ef ED) as HD.
  destruct (get post "tags") as [[| | | | |items|]|] eqn:Etags;
    try (subst tagsHTML; exists data_id, img, t, x, None, D, author, u; now repeat split).
  destruct Et as (l & -> & ->).
  exists data_id, img, t, x, (Some (List.map escape_text l)), D, author, u.
  repeat split; trivial. now exists l.
Qed.


Lemma textContent_text_children (t : string) :
  String.concat "" (List.map textContent (text_children t)) = t.
Proof.
  unfold text_children. destruct (String.eqb_spec t "") as [->|Hne]; reflexivity.
Qed.

Lemma textContent_tag_element (m : string) : textContent (tag_element m) = rendered_text m.
Proof. apply textContent_text_children. Qed.

(** C6: in a rendered post the tag block exists exactly when the [tags]
    field is an array; then every entry is a string, and the elements of
    class [tag] are, in array order, one [span] per entry holding the
    escaped text of that entry (so their texts are the entries as the
    browser shows them), inside exactly one element of class [post-tags].
    For any other [tags] value, a string included, there is neither a tag
    block nor a tag element. *)
Theorem tags_render_one_element_each
        (H : host) (post : value) (st st' : page) (article : node) :
  createPostElement H post st = (Normal article, st') ->
  match get post "tags" with
  | Normal (VArray items) =>
      exists l,
        items = List.map VString l /\
        querySelectorAll "tag" article = tag_elements (List.map escape_text l) /\
        tag_texts article = List.map (fun t => rendered_text (escape_text t)) l /\
        tag_texts article = List.map dom_text l /\
        exists block,
          querySelectorAll "post-tags" article
          = [Element "div" [("class", "post-tags")] "" block] /\
          flat_map (select "tag") block = tag_elements (List.map escape_text l)
  | _ =>
      querySelectorAll "post-tags" article = [] /\
      querySelectorAll "tag" article = []
  end.
Proof.
  intros Hc. apply createPostElement_success in Hc.
  destruct Hc as (data_id & img & title & shown & tags & D & author & target
                  & -> & Himg & _ & _ & Htags & HD & Hauthor).
  unfold tag_texts, querySelectorAll. cbn [child_nodes].
  destruct (article_tree img (escape_text title) (escape_text shown) tags D author
              (escape_text target)) as (kids & -> & _ & _ & Ht & Hb & _); trivial;
    try apply inert_escape.
  { destruct (get post "tags") as [[| | | | |items|]|]; try (subst tags; exact I).
    destruct Htags as (l & _ & ->). apply Forall_forall. intros m Hm.
    apply in_map_iff in Hm. destruct Hm as (x & <- & _). apply inert_escape. }
  destruct (get post "tags") as [[| | | | |items|]|];
    try (subst tags; split; assumption).
  destruct Htags as (l & -> & ->). exists l. rewrite Ht.
  assert (Htexts : List.map textContent (tag_elements (List.map escape_text l))
                   = List.map (fun t => rendered_text (escape_text t)) l).
  { unfold tag_elements. rewrite !map_map. apply map_ext. intros t.
    apply textContent_tag_element. }
  repeat split; trivial.
  rewrite Htexts. apply map_ext. intros t. apply rendered_text_escape.
Qed.

(** A record with the tags [a] and [b]. *)
Lemma tags_render_one_element_each_witness :
  let article := returned (createPostElement utc_host two_tags empty_page) in
  (exists l,
     [VString "a"; VString "b"] = List.map VString l /\
     querySelectorAll "tag" article = tag_elements (List.map escape_text l) /\
     tag_texts article = List.map (fun t => rendered_text (escape_text t)) l /\
     tag_texts article = List.map dom_text l /\
     exists block,
       querySelectorAll "post-tags" article
       = [Element "div" [("class", "post-tags")] "" block] /\
       flat_map (select "tag") block = tag_elements (List.map escape_text l)) /\
  tag_texts article = ["a"; "b"].
Proof.
  intros article. split; [|reflexivity].
  apply (tags_render_one_element_each utc_host two_tags empty_page empty_page article).
  reflexivity.
Defined.

(** C7 (amended): in a rendered post the one element of class
    [post-excerpt] holds the escaped text that
    [post.excerpt || post.description || ''] selects: the excerpt when it
    is truthy (a non-empty string), otherwise the description when that is
    truthy, otherwise the empty text. *)
Theorem rendered_excerpt_is_the_first_nonempty_text
        (H : host) (post : value) (st st' : page) (article : node) :
  createPostElement H post st = (Normal article, st') ->
  exists shown,
    excerpt_or_description post = Normal (VString shown) /\
    (forall e d,
       get post "excerpt" = Normal e -> get post "description" = Normal d ->
       VString shown = if truthy e then e else if truthy d then d else VString "") /\
    querySelectorAll "post-excerpt" article
    = [Element "p" [("class", "post-excerpt")] ""
         (text_children (rendered_text (escape_text shown)))] /\
    text_of "post-excerpt" article = rendered_text (escape_text shown) /\
    text_of "post-excerpt" article = dom_text shown.
Proof.
  intros Hc. apply createPostElement_success in Hc.
  destruct Hc as (data_id & img & title & shown & tags & D & author & target
                  & -> & Himg & _ & Hshown & Htags & HD & Hauthor).
  exists shown. split; [exact Hshown|]. split.
  { intros e d He Hd. unfold excerpt_or_description in Hshown.
    rewrite He in Hshown. simpl in Hshown. destruct (truthy e); [congruence|].
    rewrite Hd in Hshown. simpl in Hshown. congruence. }
  unfold text_of, querySelector, querySelectorAll. cbn [child_nodes].
  destruct (article_tree img (escape_text title) (escape_text shown) tags D author
              (escape_text target)) as (kids & -> & _ & Hx & _); trivial;
    try apply inert_escape.
  { destruct (get post "tags") as [[| | | | |items|]|]; try (subst tags; exact I).
    destruct Htags as (l & _ & ->). apply Forall_forall. intros m Hm.
    apply in_map_iff in Hm. destruct Hm as (x & <- & _). apply inert_escape. }
  rewrite Hx. split; [reflexivity|]. cbn [hd_error textContent].
  rewrite textContent_text_children. split; [reflexivity|apply rendered_text_escape].
Qed.

(** A record with an empty excerpt and a description. *)
Lemma rendered_excerpt_is_the_first_nonempty_text_witness :
  let article := returned (createPostElement utc_host empty_excerpt empty_page) in
  (exists shown,
    excerpt_or_description empty_excerpt = Normal (VString shown) /\
    (forall e d,
       get empty_excerpt "excerpt" = Normal e -> get empty_excerpt "description" = Normal d ->
       VString shown = if truthy e then e else if truthy d then d else VString "") /\
    querySelectorAll "post-excerpt" article
    = [Element "p" [("class", "post-excerpt")] ""
         (text_children (rendered_text (escape_text shown)))] /\
    text_of "post-excerpt" article = rendered_text (escape_text shown) /\
    text_of "post-excerpt" article = dom_text shown) /\
  text_of "post-excerpt" article = "d".
Proof.
  intros article. split; [|reflexivity].
  apply (rendered_excerpt_is_the_first_nonempty_text
           utc_host empty_excerpt empty_page empty_page article).
  reflexivity.
Defined.

(** C7 as stated fails: a record whose [excerpt] is present and empty,
    with a description, renders the description, not the (empty) escaped
    excerpt. *)
Lemma empty_excerpt_gives_way_to_description :
  let article := returned (createPostElement utc_host empty_excerpt empty_page) in
  createPostElement utc_host empty_excerpt empty_page = (Normal article, empty_page) /\
  get empty_excerpt "excerpt" = Normal (VString "") /\
  text_of "post-excerpt" article = "d" /\
  text_of "post-excerpt" article <> rendered_text (escape_text "").
Proof.
  intros article. repeat split. discriminate.
Qed.

(* ----------------------------------------------------------------- *)
(** ** The escaper, further *)

Lemma length_append (a b : string) :
  String.length (a ++ b) = String.length a + String.length b.
Proof. induction a as [|c a IH]; simpl; [reflexivity|now rewrite IH]. Qed.

Lemma entity_longer (c : ascii) :
  if escape_class c then 4 <= String.length (entity_spec c)
  else entity_spec c = chr c.
Proof.
  pattern c, (entity_spec c). apply entity_cases; try (simpl; lia).
  intros H1 H2 H3 H4 H5. unfold escape_class. simpl.
  now rewrite H1, H2, H3, H4, H5.
Qed.

Lemma length_escape_text (s : string) : String.length s <= String.length (escape_text s).
Proof.
  induction s as [|c r IH]; [reflexivity|].
  rewrite escape_text_cons, length_append. simpl.
  pose proof (entity_longer c) as Hc. destruct (escape_class c).
  - lia.
  - rewrite Hc. simpl. lia.
Qed.

Lemma escape_text_fixed (s : string) :
  escape_text s = s <-> string_forallb unescaped s = true.
Proof.
  split.
  - intros He. induction s as [|c r IH]; [reflexivity|].
    rewrite escape_text_cons in He. simpl. unfold unescaped at 1.
    pose proof (entity_longer c) as Hc. destruct (escape_class c).
    + apply (f_equal String.length) in He. rewrite length_append in He. simpl in He.
      pose proof (length_escape_text r). lia.
    + rewrite Hc in He. simpl in He. injection He as He. now apply IH.
  - intros Hs. induction s as [|c r IH]; [reflexivity|].
    simpl in Hs. apply andb_true_iff in Hs. destruct Hs as [Hc Hr].
    rewrite escape_text_cons. unfold unescaped in Hc. apply negb_true_iff in Hc.
    pose proof (entity_longer c) as Hl. rewrite Hc in Hl. rewrite Hl. simpl.
    now rewrite IH.
Qed.

(** X1: [escapeHtml] never shortens a text, and it returns the text
    unchanged exactly when the text holds none of the five characters it
    replaces. *)
Theorem escapeHtml_changes_only_text_with_special_characters (text : string) :
  (exists out, escapeHtml (VString text) = Normal out /\
               String.length text <= String.length out) /\
  (escapeHtml (VString text) = Normal text <-> string_forallb unescaped text = true).
Proof.
  split; [exists (escape_text text); split; [reflexivity|apply length_escape_text]|].
  rewrite <- escape_text_fixed. simpl. split; [now intros [= ->]|now intros ->].
Qed.

(** X2: two texts with the same escaped form are the same text: escaping
    loses nothing. *)
Theorem escapeHtml_is_injective (a b : string) :
  escapeHtml (VString a) = escapeHtml (VString b) -> a = b.
Proof.
  simpl. intros [= He]. rewrite <- (decode_escape a), <- (decode_escape b). now rewrite He.
Qed.

Lemma escapeHtml_is_injective_witness :
  "<b>" = "<b>".
Proof.
  apply (escapeHtml_is_injective "<b>" "<b>"). reflexivity.
Defined.

(** X3: the escaped form of a concatenation is the concatenation of the
    escaped forms, so text may be escaped piece by piece. *)
Theorem escapeHtml_of_a_concatenation (a b : string) :
  exists ea eb,
    escapeHtml (VString a) = Normal ea /\
    escapeHtml (VString b) = Normal eb /\
    escapeHtml (VString (a ++ b)) = Normal (ea ++ eb).
Proof.
  exists (escape_text a), (escape_text b). repeat split. simpl. now rewrite escape_text_app.
Qed.

Lemma parse_escaped_text (x : string) :
  parse_html (escape_text x) = text_children (dom_text x).
Proof.
  rewrite parse_html_finish.
  erewrite tokens_last by (apply feed_data_plain, no_lt_escape).
  cbn [app snd lex_end append]. rewrite grow_text_token. unfold finish. cbn [fst snd close_all].
  rewrite add_text_nil, rev_text_children.
  change (strip_nul (decode_entities (normalize_newlines false (escape_text x))))
    with (rendered_text (escape_text x)).
  now rewrite rendered_text_escape.
Qed.

(** X4: whatever the text, the markup that [escapeHtml] returns for it
    creates no element when it is assigned to [innerHTML]: it parses to one
    text node holding the text as the parser keeps it (line breaks
    normalised, code units 0 dropped), to nothing when that is empty; a
    text without carriage returns and code units 0 is kept as it is. *)
Theorem escaped_text_parses_to_text_only (text : string) :
  exists m,
    escapeHtml (VString text) = Normal m /\
    parse_html m = (if String.eqb (dom_text text) "" then [] else [Text (dom_text text)]) /\
    (plain_text text = true -> dom_text text = text).
Proof.
  exists (escape_text text). split; [reflexivity|]. split; [apply parse_escaped_text|].
  apply dom_text_plain.
Qed.

(* ----------------------------------------------------------------- *)
(** ** Dates of the calendar *)

Open Scope Z_scope.


Lemma days_in_month_le (y m : Z) : days_in_month y m <= 31.
Proof.
  unfold days_in_month. destruct (m =? 2); [destruct (is_leap y); lia|].
  destruct (_ || _); lia.
Qed.

Lemma is_leap_spec (y : Z) :
  is_leap y = true <-> y mod 4 = 0 /\ (y mod 100 <> 0 \/ y mod 400 = 0).
Proof.
  unfold is_leap. rewrite andb_true_iff, orb_true_iff, negb_true_iff, !Z.eqb_eq, Z.eqb_neq.
  tauto.
Qed.

Lemma year_length_spec (yoe : Z) :
  0 <= yoe < 400 ->
  year_length yoe
  = year_start (yoe + 1) - year_start yoe + (if yoe =? 399 then 1 else 0).
Proof.
  intros Hy. unfold year_length, year_start.
  pose proof (is_leap_spec (yoe + 1)) as Hl.
  destruct (is_leap (yoe + 1)).
  - destruct Hl as [Hl _]. specialize (Hl eq_refl).
    destruct (Z.eqb_spec yoe 399); (Z.div_mod_to_equations; lia).
  - assert (Hn : ~ ((yoe + 1) mod 4 = 0 /\ ((yoe + 1) mod 100 <> 0 \/ (yoe + 1) mod 400 = 0))).
    { intros Hc. apply Hl in Hc. discriminate. }
    destruct (Z.eqb_spec yoe 399); (Z.div_mod_to_equations; lia).
Qed.

Lemma year_of_day (yoe doy : Z) :
  0 <= yoe < 400 -> 0 <= doy < year_length yoe ->
  let doe := year_start yoe + doy in
  0 <= doe < 146097 /\
  (doe - doe / 1460 + doe / 36524 - doe / 146096) / 365 = yoe.
Proof.
  intros Hy Hd doe. rewrite year_length_spec in Hd by assumption.
  unfold doe, year_start in *.
  destruct (Z.eqb_spec yoe 399); (Z.div_mod_to_equations; lia).
Qed.

Ltac zbool :=
  repeat match goal with
         | H : context [?a =? ?b] |- _ => destruct (Z.eqb_spec a b)
         | |- context [?a =? ?b] => destruct (Z.eqb_spec a b)
         | H : context [?a <? ?b] |- _ => destruct (Z.ltb_spec a b)
         | |- context [?a <? ?b] => destruct (Z.ltb_spec a b)
         | H : context [?a <=? ?b] |- _ => destruct (Z.leb_spec a b)
         | |- context [?a <=? ?b] => destruct (Z.leb_spec a b)
         end;
  cbn [orb andb negb] in *.

Lemma day_of_year_bound (yoe m d : Z) :
  1 <= m <= 12 -> 1 <= d <= days_in_month (era_year yoe m) m ->
  0 <= day_of_year m d < year_length yoe.
Proof.
  intros Hm Hd. unfold day_of_year, days_in_month, era_year, year_length in *.
  assert (Hc : m = 1 \/ m = 2 \/ m = 3 \/ m = 4 \/ m = 5 \/ m = 6 \/ m = 7 \/ m = 8
               \/ m = 9 \/ m = 10 \/ m = 11 \/ m = 12) by lia.
  repeat (destruct Hc as [->|Hc];
          [zbool; try lia; repeat destruct (is_leap _); Z.div_mod_to_equations; lia|]).
  subst. zbool; try lia; repeat destruct (is_leap _); Z.div_mod_to_equations; lia.
Qed.

Lemma month_of_day (yoe m d : Z) :
  1 <= m <= 12 -> 1 <= d <= days_in_month (era_year yoe m) m ->
  let doy := day_of_year m d in
  let mp := (5 * doy + 2) / 153 in
  (if mp <? 10 then mp + 3 else mp - 9) = m /\ doy - (153 * mp + 2) / 5 + 1 = d.
Proof.
  intros Hm Hd. unfold day_of_year, days_in_month, era_year in *. cbv zeta.
  assert (Hc : m = 1 \/ m = 2 \/ m = 3 \/ m = 4 \/ m = 5 \/ m = 6 \/ m = 7 \/ m = 8
               \/ m = 9 \/ m = 10 \/ m = 11 \/ m = 12) by lia.
  repeat (destruct Hc as [->|Hc];
          [zbool; try lia; repeat destruct (is_leap _); Z.div_mod_to_equations; lia|]).
  subst. zbool; try lia; repeat destruct (is_leap _); Z.div_mod_to_equations; lia.
Qed.

Lemma day_of_era_split (yoe m d : Z) :
  day_of_era yoe m d = year_start yoe + day_of_year m d.
Proof. unfold day_of_era, year_start, day_of_year. lia. Qed.

Lemma era_date_roundtrip (yoe m d : Z) :
  0 <= yoe < 400 -> 1 <= m <= 12 -> 1 <= d <= days_in_month (era_year yoe m) m ->
  0 <= day_of_era yoe m d < 146097 /\ date_of_era (day_of_era yoe m d) = (yoe, m, d).
Proof.
  intros Hy Hm Hd. rewrite day_of_era_split.
  pose proof (day_of_year_bound yoe m d Hm Hd) as Hb.
  destruct (year_of_day yoe (day_of_year m d) Hy Hb) as [Hr Hyear].
  destruct (month_of_day yoe m d Hm Hd) as [Hmonth Hday].
  split; [exact Hr|]. unfold date_of_era. rewrite Hyear.
  fold (year_start yoe).
  replace (year_start yoe + day_of_year m d - year_start yoe) with (day_of_year m d) by lia.
  cbv zeta in Hmonth, Hday. now rewrite Hmonth, Hday.
Qed.

Lemma year_of_era_day (doe : Z) :
  0 <= doe < 146097 ->
  let yoe := (doe - doe / 1460 + doe / 36524 - doe / 146096) / 365 in
  0 <= yoe < 400 /\ 0 <= doe - year_start yoe < year_length yoe.
Proof.
  intros Hd yoe.
  assert (Hy : 0 <= yoe < 400) by (unfold yoe; Z.div_mod_to_equations; lia).
  split; [exact Hy|]. rewrite (year_length_spec yoe Hy).
  unfold year_start. unfold yoe in *.
  match goal with |- context [?a =? 399] => destruct (Z.eqb_spec a 399) end;
    Z.div_mod_to_equations; lia.
Qed.

Lemma date_of_year_day (yoe doy : Z) :
  0 <= doy < year_length yoe ->
  let mp := (5 * doy + 2) / 153 in
  let d := doy - (153 * mp + 2) / 5 + 1 in
  let m := if mp <? 10 then mp + 3 else mp - 9 in
  1 <= m <= 12 /\ 1 <= d <= days_in_month (era_year yoe m) m /\ day_of_year m d = doy.
Proof.
  intros Hd mp d m. unfold year_length in Hd.
  assert (Hmp : mp = (5 * doy + 2) / 153) by reflexivity.
  unfold m, d, day_of_year, days_in_month, era_year. clearbody mp. clear m d.
  destruct (is_leap (yoe + 1)) eqn:El.
  all: assert (Hc : mp = 0 \/ mp = 1 \/ mp = 2 \/ mp = 3 \/ mp = 4 \/ mp = 5 \/ mp = 6
                    \/ mp = 7 \/ mp = 8 \/ mp = 9 \/ mp = 10 \/ mp = 11)
         by (Z.div_mod_to_equations; lia).
  all: repeat (destruct Hc as [Hc|Hc];
               [rewrite Hc in *; zbool; rewrite ?El; try lia;
                repeat destruct (is_leap _); Z.div_mod_to_equations; lia|]).
  all: rewrite Hc in *; zbool; rewrite ?El; try lia;
    repeat destruct (is_leap _); Z.div_mod_to_equations; lia.
Qed.

Lemma era_day_roundtrip (doe : Z) :
  0 <= doe < 146097 ->
  exists yoe m d,
    date_of_era doe = (yoe, m, d) /\ 0 <= yoe < 400 /\ 1 <= m <= 12 /\
    1 <= d <= days_in_month (era_year yoe m) m /\ day_of_era yoe m d = doe.
Proof.
  intros Hd. destruct (year_of_era_day doe Hd) as [Hy Hdoy].
  destruct (date_of_year_day _ _ Hdoy) as (Hm & Hday & Hback).
  eexists _, _, _. split; [reflexivity|]. fold (year_start
    ((doe - doe / 1460 + doe / 36524 - doe / 146096) / 365)).
  split; [exact Hy|]. split; [exact Hm|]. split; [exact Hday|].
  rewrite day_of_era_split, Hback. lia.
Qed.

Lemma is_leap_period (a k : Z) : is_leap (a + k * 400) = is_leap a.
Proof.
  unfold is_leap.
  replace ((a + k * 400) mod 4) with (a mod 4)
    by (replace (k * 400) with ((k * 100) * 4) by lia; now rewrite Z_mod_plus_full).
  replace ((a + k * 400) mod 100) with (a mod 100)
    by (replace (k * 400) with ((k * 4) * 100) by lia; now rewrite Z_mod_plus_full).
  now rewrite Z_mod_plus_full.
Qed.

Lemma days_in_month_period (a k m : Z) :
  days_in_month (a + k * 400) m = days_in_month a m.
Proof. unfold days_in_month. now rewrite is_leap_period. Qed.

Lemma days_from_civil_era (y m d : Z) :
  days_from_civil y m d
  = let y' := if m <=? 2 then y - 1 else y in
    (y' / 400) * 146097 + day_of_era (y' - (y' / 400) * 400) m d - 719468.
Proof. reflexivity. Qed.

Lemma civil_from_days_era (z : Z) :
  civil_from_days z
  = let era := (z + 719468) / 146097 in
    match date_of_era (z + 719468 - era * 146097) with
    | (yoe, m, d) => ((if m <=? 2 then yoe + era * 400 + 1 else yoe + era * 400), m, d)
    end.
Proof. reflexivity. Qed.

Lemma civil_from_days_from_civil (y m d : Z) :
  valid_date y m d -> civil_from_days (days_from_civil y m d) = (y, m, d).
Proof.
  intros [Hm Hd]. rewrite days_from_civil_era. cbv zeta.
  set (y' := if m <=? 2 then y - 1 else y).
  set (era := y' / 400). set (yoe := y' - era * 400).
  assert (Hyoe : 0 <= yoe < 400).
  { unfold yoe, era. pose proof (Z.div_mod y' 400 ltac:(lia)).
    pose proof (Z.mod_pos_bound y' 400 ltac:(lia)). lia. }
  assert (Hy : y = era_year yoe m + era * 400).
  { unfold era_year, yoe, y'. destruct (m <=? 2); lia. }
  rewrite Hy, days_in_month_period in Hd.
  destruct (era_date_roundtrip yoe m d Hyoe Hm Hd) as [Hr Hdate].
  rewrite civil_from_days_era. cbv zeta.
  replace (era * 146097 + day_of_era yoe m d - 719468 + 719468)
    with (day_of_era yoe m d + era * 146097) by lia.
  rewrite Z.div_add by lia. rewrite (Z.div_small _ _ Hr).
  replace (day_of_era yoe m d + era * 146097 - (0 + era) * 146097)
    with (day_of_era yoe m d) by lia.
  rewrite Hdate. rewrite Hy. unfold era_year. destruct (m <=? 2); f_equal; f_equal; lia.
Qed.

Lemma days_from_civil_from_days (z : Z) :
  exists y m d,
    civil_from_days z = (y, m, d) /\ valid_date y m d /\ days_from_civil y m d = z.
Proof.
  rewrite civil_from_days_era. cbv zeta.
  set (era := (z + 719468) / 146097). set (doe := z + 719468 - era * 146097).
  assert (Hdoe : 0 <= doe < 146097).
  { unfold doe, era. pose proof (Z.div_mod (z + 719468) 146097 ltac:(lia)).
    pose proof (Z.mod_pos_bound (z + 719468) 146097 ltac:(lia)). lia. }
  destruct (era_day_roundtrip doe Hdoe) as (yoe & m & d & -> & Hy & Hm & Hd & Hback).
  eexists _, m, d. split; [reflexivity|].
  assert (Hyear : (if m <=? 2 then yoe + era * 400 + 1 else yoe + era * 400)
                  = era_year yoe m + era * 400).
  { unfold era_year. destruct (m <=? 2); lia. }
  rewrite Hyear. split.
  - split; [exact Hm|]. now rewrite days_in_month_period.
  - rewrite days_from_civil_era. cbv zeta.
    replace (if m <=? 2 then era_year yoe m + era * 400 - 1 else era_year yoe m + era * 400)
      with (yoe + era * 400) by (unfold era_year; destruct (m <=? 2); lia).
    rewrite Z.div_add by lia. rewrite (Z.div_small yoe 400 Hy).
    replace (yoe + era * 400 - (0 + era) * 400) with yoe by lia.
    rewrite Hback. unfold doe. lia.
Qed.

(** Reading back what [two_digits] and [four_digits] print. *)
Lemma digit_digit_char (k : Z) : 0 <= k <= 9 -> digit (digit_char k) = Some k.
Proof.
  intros Hk.
  assert (Hc : k = 0 \/ k = 1 \/ k = 2 \/ k = 3 \/ k = 4 \/ k = 5 \/ k = 6 \/ k = 7
               \/ k = 8 \/ k = 9) by lia.
  repeat (destruct Hc as [->|Hc]; [reflexivity|]). subst. reflexivity.
Qed.

Lemma digits_two (n acc : Z) (r : string) :
  0 <= n <= 99 -> digits 2 acc (two_digits n ++ r) = Some (100 * acc + n, r).
Proof.
  intros Hn. unfold two_digits.
  pose proof (Z.div_mod n 10 ltac:(lia)) as Hdm.
  pose proof (Z.mod_pos_bound n 10 ltac:(lia)) as Hb.
  cbn [append digits].
  rewrite (digit_digit_char (n / 10)) by lia.
  rewrite (digit_digit_char (n mod 10)) by lia.
  f_equal. f_equal. lia.
Qed.

Lemma digits_four (n : Z) (r : string) :
  0 <= n <= 9999 -> digits 4 0 (four_digits n ++ r) = Some (n, r).
Proof.
  intros Hn. unfold four_digits, two_digits.
  pose proof (Z.div_mod n 100 ltac:(lia)) as Hdm.
  pose proof (Z.mod_pos_bound n 100 ltac:(lia)) as Hb.
  pose proof (Z.div_mod (n / 100) 10 ltac:(lia)) as Hdm1.
  pose proof (Z.mod_pos_bound (n / 100) 10 ltac:(lia)) as Hb1.
  pose proof (Z.div_mod (n mod 100) 10 ltac:(lia)) as Hdm2.
  pose proof (Z.mod_pos_bound (n mod 100) 10 ltac:(lia)) as Hb2.
  cbn [append digits].
  rewrite (digit_digit_char (n / 100 / 10)) by lia.
  rewrite (digit_digit_char ((n / 100) mod 10)) by lia.
  rewrite (digit_digit_char (n mod 100 / 10)) by lia.
  rewrite (digit_digit_char ((n mod 100) mod 10)) by lia.
  f_equal. f_equal. lia.
Qed.

Lemma parse_iso_date (y m d : Z) :
  0 <= y <= 9999 -> 0 <= m <= 99 -> 0 <= d <= 99 ->
  parse_date_only (iso_date y m d) = utc_date y m d.
Proof.
  intros Hy Hm Hd. unfold parse_date_only, iso_date.
  rewrite digits_four by assumption.
  cbn [append dash_digits]. rewrite digits_two by assumption.
  cbn [append dash_digits]. rewrite <- (append_nil_r (two_digits d)).
  rewrite digits_two by assumption.
  f_equal.
Qed.

Lemma local_day (n off : Z) : 0 <= off < msPerDay -> (n * msPerDay + off) / msPerDay = n.
Proof.
  unfold msPerDay. intros Hoff. symmetry. apply Z.div_unique with (r := off); lia.
Qed.

Lemma local_day_before (n off : Z) :
  - msPerDay <= off < 0 -> (n * msPerDay + off) / msPerDay = n - 1.
Proof.
  unfold msPerDay. intros Hoff. symmetry.
  apply Z.div_unique with (r := off + 86400000); lia.
Qed.

Lemma toLocaleDateString_long_date (H : host) (t : Z) (y m d : Z) :
  civil_from_days ((t + LocalTZA H t) / msPerDay) = (y, m, d) ->
  toLocaleDateString H (Some t) = long_date y m d.
Proof. intros Hc. unfold toLocaleDateString. now rewrite Hc. Qed.

Lemma iso_date_not_empty (y m d : Z) : String.eqb (iso_date y m d) "" = false.
Proof. reflexivity. Qed.

Lemma formatDate_iso_date (H : host) (st : page) (y m d : Z) :
  0 <= y <= 9999 -> valid_date y m d ->
  formatDate H (VString (iso_date y m d)) st
  = (Normal (VString (toLocaleDateString H (Some (days_from_civil y m d * msPerDay)))), st).
Proof.
  intros Hy [Hm Hd].
  pose proof (days_in_month_le y m) as Hle.
  unfold formatDate. cbn [truthy]. rewrite iso_date_not_empty. cbn [negb].
  unfold try_catch, bind, lift, ret. cbn [new_Date]. unfold Date_parse.
  rewrite parse_iso_date by lia. unfold utc_date.
  replace ((1 <=? m) && (m <=? 12) && (1 <=? d) && (d <=? days_in_month y m)) with true.
  - reflexivity.
  - symmetry. rewrite !andb_true_iff, !Z.leb_le. lia.
Qed.

(** X5: for every date [YYYY-MM-DD] of the calendar, from year 1 to year
    9999, [formatDate] prints that same date as [Month D, YYYY] where local
    time, at the midnight UTC the string denotes, is at or ahead of UTC by
    less than a day; nothing is logged. *)
Theorem formatDate_prints_the_date_it_was_given (H : host) (st : page) (y m d : Z) :
  1 <= y <= 9999 -> valid_date y m d ->
  0 <= LocalTZA H (days_from_civil y m d * msPerDay) < msPerDay ->
  formatDate H (VString (iso_date y m d)) st
  = (Normal (VString (month_name m ++ " " ++ Z_to_string d ++ ", " ++ Z_to_string y)), st).
Proof.
  intros Hy Hv Hoff. rewrite formatDate_iso_date by (trivial; lia).
  rewrite (toLocaleDateString_long_date H _ y m d).
  - unfold long_date. replace (y <=? 0) with false by (symmetry; apply Z.leb_gt; lia).
    reflexivity.
  - rewrite local_day by assumption. now apply civil_from_days_from_civil.
Qed.

Lemma formatDate_prints_the_date_it_was_given_witness :
  iso_date 2024 2 29 = "2024-02-29"%string /\
  formatDate utc_host (VString (iso_date 2024 2 29)) empty_page
  = (Normal (VString "February 29, 2024"), empty_page).
Proof.
  split; [reflexivity|].
  apply (formatDate_prints_the_date_it_was_given utc_host empty_page 2024 2 29).
  - lia.
  - unfold valid_date. replace (days_in_month 2024 2) with 29 by reflexivity. lia.
  - unfold msPerDay. cbn [LocalTZA utc_host]. lia.
Defined.

(** X6: where local time, at that midnight UTC, is behind UTC (by a day at
    most), [formatDate] prints for a date [YYYY-MM-DD] of the calendar the
    date of the day before, which is another date. *)
Theorem formatDate_prints_the_day_before_behind_utc (H : host) (st : page) (y m d : Z) :
  0 <= y <= 9999 -> valid_date y m d ->
  - msPerDay <= LocalTZA H (days_from_civil y m d * msPerDay) < 0 ->
  exists y' m' d',
    valid_date y' m' d' /\
    days_from_civil y' m' d' = days_from_civil y m d - 1 /\
    (y', m', d') <> (y, m, d) /\
    formatDate H (VString (iso_date y m d)) st
    = (Normal (VString (long_date y' m' d')), st).
Proof.
  intros Hy Hv Hoff. rewrite formatDate_iso_date by trivial.
  destruct (days_from_civil_from_days (days_from_civil y m d - 1))
    as (y' & m' & d' & Hc & Hv' & Hback).
  exists y', m', d'. split; [exact Hv'|]. split; [exact Hback|]. split.
  - intros [= -> -> ->]. lia.
  - rewrite (toLocaleDateString_long_date H _ y' m' d'); [reflexivity|].
    now rewrite local_day_before.
Qed.

Lemma formatDate_prints_the_day_before_behind_utc_witness :
  let west := {| LocalTZA := fun _ => -18000000; Date_parse_other := fun _ => None |} in
  (exists y' m' d',
     valid_date y' m' d' /\
     days_from_civil y' m' d' = days_from_civil 2024 3 1 - 1 /\
     (y', m', d') <> (2024, 3, 1) /\
     formatDate west (VString (iso_date 2024 3 1)) empty_page
     = (Normal (VString (long_date y' m' d')), empty_page)) /\
  formatDate west (VString "2024-03-01") empty_page
  = (Normal (VString "February 29, 2024"), empty_page).
Proof.
  intros west. split; [|reflexivity].
  apply (formatDate_prints_the_day_before_behind_utc west empty_page 2024 3 1).
  - lia.
  - unfold valid_date. replace (days_in_month 2024 3) with 31 by reflexivity. lia.
  - unfold msPerDay, west. cbn [LocalTZA]. lia.
Defined.

Close Scope Z_scope.

(** X7: on a truthy argument [formatDate] reaches its [catch] branch
    exactly when converting the argument to a string throws, which no
    string does: the error is then logged and the argument itself is
    returned.  On every other truthy argument the result is what
    [toLocaleDateString] prints for the date built from it, and nothing is
    logged. *)
Theorem formatDate_catches_only_a_failed_conversion (H : host) (v : value) (st : page) :
  truthy v = true ->
  match to_string v with
  | Normal _ =>
      exists date,
        new_Date H v = Normal date /\
        formatDate H v st = (Normal (VString (toLocaleDateString H date)), st)
  | Throw e =>
      (forall s, v <> VString s) /\
      formatDate H v st
      = (Normal v,
         {| container := container st;
            console := (console st ++ [("Error formatting date:", Some e)])%list |})
  end.
Proof.
  intros Ht. unfold formatDate, try_catch, bind, lift, ret, console_error. rewrite Ht.
  cbn [negb].
  destruct v as [| |b|n|s|items|props]; try discriminate Ht.
  - cbn in Ht. subst b. eexists. split; reflexivity.
  - eexists. split; reflexivity.
  - eexists. split; reflexivity.
  - unfold new_Date. destruct (to_string (VArray items)) as [s|e]; cbn [cbind].
    + eexists. split; reflexivity.
    + split; [discriminate|reflexivity].
  - unfold new_Date. destruct (to_string (VObject props)) as [s|e]; cbn [cbind].
    + eexists. split; reflexivity.
    + split; [discriminate|reflexivity].
Qed.

Lemma formatDate_catches_only_a_failed_conversion_witness :
  let v := VObject [("toString", VNumber 1)] in
  (forall s, v <> VString s) /\
  formatDate utc_host v empty_page
  = (Normal v,
     {| container := container empty_page;
        console := (console empty_page
                    ++ [("Error formatting date:",
                         Some (TypeError "Cannot convert object to primitive value"))])%list |}).
Proof.
  intros v.
  apply (formatDate_catches_only_a_failed_conversion utc_host v empty_page).
  reflexivity.
Defined.

Lemma string_forallb_impl (p q : ascii -> bool) (s : string) :
  (forall c, p c = true -> q c = true) ->
  string_forallb p s = true -> string_forallb q s = true.
Proof.
  intros Hpq. induction s as [|c r IH]; [reflexivity|]. simpl.
  rewrite !andb_true_iff. intros [Hc Hr]. split; [now apply Hpq|now apply IH].
Qed.

Lemma date_char_uint (d : Decimal.uint) :
  string_forallb date_char (NilEmpty.string_of_uint d) = true.
Proof. induction d; simpl; trivial. Qed.

Lemma date_char_Z_to_string (n : Z) :
  (0 <= n)%Z -> string_forallb date_char (Z_to_string n) = true.
Proof.
  intros Hn. unfold Z_to_string, NilZero.string_of_int, NilZero.string_of_uint.
  destruct n as [|p|p]; [reflexivity| |lia].
  unfold Z.to_int.
  destruct (Pos.to_uint p) as [|d|d|d|d|d|d|d|d|d|d]; try reflexivity.
  - apply (date_char_uint (Decimal.D0 d)).
  - apply (date_char_uint (Decimal.D1 d)).
  - apply (date_char_uint (Decimal.D2 d)).
  - apply (date_char_uint (Decimal.D3 d)).
  - apply (date_char_uint (Decimal.D4 d)).
  - apply (date_char_uint (Decimal.D5 d)).
  - apply (date_char_uint (Decimal.D6 d)).
  - apply (date_char_uint (Decimal.D7 d)).
  - apply (date_char_uint (Decimal.D8 d)).
  - apply (date_char_uint (Decimal.D9 d)).
Qed.

Lemma date_char_month_name (m : Z) : string_forallb date_char (month_name m) = true.
Proof.
  generalize (month_name_in m). generalize (month_name m). intros name Hin.
  simpl in Hin. repeat (destruct Hin as [<- | Hin]; [reflexivity|]). destruct Hin.
Qed.

Lemma date_char_toLocaleDateString (H : host) (date : option Z) :
  string_forallb date_char (toLocaleDateString H date) = true.
Proof.
  destruct date as [t|]; [|reflexivity]. unfold toLocaleDateString.
  destruct (days_from_civil_from_days ((t + LocalTZA H t) / msPerDay))
    as (y & m & d & -> & [_ Hd] & _).
  rewrite !string_forallb_app, date_char_month_name.
  rewrite !date_char_Z_to_string by (try destruct (Z.leb_spec y 0); lia).
  reflexivity.
Qed.

Lemma date_char_plain (c : ascii) :
  date_char c = true ->
  unescaped c = true /\ Ascii.eqb c "013" = false /\ Ascii.eqb c "000" = false.
Proof.
  unfold date_char, date_alphabet. cbn [list_ascii_of_string existsb].
  rewrite !orb_true_iff.
  intros Hc.
  repeat (destruct Hc as [Hc|Hc]; [apply Ascii.eqb_eq in Hc; subst c; repeat split|]).
  discriminate Hc.
Qed.

Lemma formatDate_date_chars (H : host) (v f : value) (st st' : page) (D : string) :
  formatDate H v st = (Normal f, st') ->
  to_string f = Normal D ->
  string_forallb date_char D = true.
Proof.
  unfold formatDate, try_catch, bind, lift, ret, console_error.
  destruct (truthy v); simpl.
  - destruct (new_Date H v) as [d|e] eqn:Ed.
    + intros [= <- _] [= <-]. apply date_char_toLocaleDateString.
    + intros [= <- _] Hs. rewrite (new_Date_throws _ _ _ Ed) in Hs. discriminate.
  - intros [= <- _] [= <-]. reflexivity.
Qed.

(** X8: the text that [createPostElement] interpolates for the date, the
    one field it does not pass through [escapeHtml], holds none of the five
    characters: escaping it would change nothing, and as markup it is one
    text node (none when it is empty). *)
Theorem formatDate_result_needs_no_escaping
        (H : host) (v f : value) (st st' : page) (D : string) :
  formatDate H v st = (Normal f, st') ->
  to_string f = Normal D ->
  escapeHtml (VString D) = Normal D /\
  parse_html D = (if String.eqb D "" then [] else [Text D]).
Proof.
  intros Hf Hs. pose proof (formatDate_date_chars _ _ _ _ _ _ Hf Hs) as HD.
  assert (He : escape_text D = D).
  { assert (Hu : string_forallb unescaped D = true).
    { revert HD. apply string_forallb_impl. intros c Hc. now apply date_char_plain. }
    now apply escape_text_fixed. }
  split; [simpl; now rewrite He|].
  rewrite <- He at 1. rewrite parse_escaped_text.
  rewrite dom_text_plain; [reflexivity|].
  unfold plain_text. revert HD. apply string_forallb_impl. intros c Hc.
  destruct (date_char_plain c Hc) as (_ & -> & ->). reflexivity.
Qed.

Lemma formatDate_result_needs_no_escaping_witness :
  escapeHtml (VString "March 15, 2024") = Normal "March 15, 2024" /\
  parse_html "March 15, 2024" = [Text "March 15, 2024"].
Proof.
  apply (formatDate_result_needs_no_escaping utc_host (VString "2024-03-15")
           (VString "March 15, 2024") empty_page empty_page "March 15, 2024");
    reflexivity.
Defined.

(* ----------------------------------------------------------------- *)
(** ** The tree of an article, in full *)

Lemma article_nodes (img : option (string * string)) (T X : string)
      (tags : option (list string)) (D : string) (author : option string) (U : string) :
  match img with Some (src, alt) => inert src /\ inert alt | None => True end ->
  inert T -> inert X ->
  match tags with Some l => Forall inert l | None => True end ->
  no_lt D = true ->
  match author with Some a => inert a | None => True end ->
  inert U ->
  parse_html (article_html (image_part img) T X (tags_part tags) D (author_part author) U)
  = article_children
      (option_map (fun p => (attr_text (fst p), attr_text (snd p))) img)
      (rendered_text T) (rendered_text X)
      (option_map (List.map rendered_text) tags)
      (rendered_text D)
      (option_map rendered_text author)
      (attr_text U).
Proof.
  intros Himg [HT1 HT2] [HX1 HX2] Htags HD Hauthor [HU1 HU2].
  destruct img as [[src alt]|]; [destruct Himg as [[Hs1 Hs2] [Ha1 Ha2]]|];
    (destruct tags as [[|m l]|]);
    (destruct author as [a|]; [destruct Hauthor as [Hb1 Hb2]|]).
  all: rewrite parse_html_finish;
      unfold article_html, image_part, tags_part, author_part, img_html, tags_html,
        author_html;
      eval_markup; rewrite ?append_assoc;
      tokens_run; grow_run; finish_tree;
      unfold article_children, image_nodes, tags_nodes, author_nodes, option_map;
      cbn [fst snd List.map]; unfold tag_elements; cbn [List.map];
      rewrite ?map_map; reflexivity.
Qed.

(* ----------------------------------------------------------------- *)
(** ** The records that render *)

Lemma attr_text_escape (x : string) : attr_text (escape_text x) = attribute_text x.
Proof.
  unfold attr_text, attribute_text. now rewrite normalize_newlines_escape, decode_escape.
Qed.

Lemma get_field (post : value) :
  is_string (field post "title") = true -> forall k, get post k = Normal (field post k).
Proof.
  intros Ht k. unfold field in *. destruct post; try discriminate Ht; reflexivity.
Qed.

Lemma string_or_falsy_cases (v : value) :
  string_or_falsy v = true ->
  (exists s, v = VString s /\ String.eqb s "" = false /\ truthy v = true)
  \/ truthy v = false.
Proof.
  unfold string_or_falsy. destruct v as [| |b|n|s|items|props]; simpl;
    try (intros _; now right); try discriminate.
  - destruct b; [discriminate|now right].
  - destruct (Z.eqb n 0); [now right|discriminate].
  - intros _. destruct (String.eqb s "") eqn:E; [now right|left; eauto].
Qed.

Lemma text_field_truthy (post : value) (k s : string) :
  field post k = VString s -> String.eqb s "" = false -> text_field post k = Some s.
Proof. intros Hf Hs. unfold text_field. now rewrite Hf, Hs. Qed.

Lemma text_field_falsy (post : value) (k : string) :
  truthy (field post k) = false -> text_field post k = None.
Proof.
  intros Hf. unfold text_field. destruct (field post k); try reflexivity.
  simpl in Hf. apply negb_false_iff in Hf. now rewrite Hf.
Qed.

Section Renderable.

Variable H : host.
Variable post : value.
Hypothesis Hget : forall k, get post k = Normal (field post k).

Lemma image_markup_renderable (t : string) :
  string_or_falsy (field post "image") = true ->
  field post "title" = VString t ->
  image_markup post
  = Normal (image_part (option_map (fun s => (escape_text s, escape_text t))
                          (text_field post "image"))).
Proof.
  intros Hi Ht. unfold image_markup. rewrite !Hget. cbn [cbind].
  destruct (string_or_falsy_cases _ Hi) as [(s & Hs & Hne & Htr)|Hfalse].
  - rewrite Htr, (text_field_truthy _ _ _ Hs Hne), Hs, Ht. reflexivity.
  - now rewrite Hfalse, (text_field_falsy _ _ Hfalse).
Qed.

Lemma mapM_strings (items : list value) :
  forallb is_string items = true ->
  mapM (fun tag => t <~ escapeHtml tag ;; Normal (tag_html t)) items
  = Normal (List.map tag_html (List.map escape_text (List.map string_value items))).
Proof.
  induction items as [|v items IH]; [reflexivity|].
  simpl. intros Hv. apply andb_true_iff in Hv. destruct Hv as [Hv Hr].
  destruct v; try discriminate Hv. simpl. now rewrite (IH Hr).
Qed.

Lemma tags_markup_renderable :
  match field post "tags" with
  | VArray items => forallb is_string items
  | _ => true
  end = true ->
  tags_markup post
  = Normal (tags_part (match field post "tags" with
                       | VArray items =>
                           Some (List.map escape_text (List.map string_value items))
                       | _ => None
                       end)).
Proof.
  intros Ht. unfold tags_markup. rewrite Hget. cbn [cbind].
  destruct (field post "tags") as [| |b|n|s|items|props]; cbn [truthy isArray andb];
    rewrite ?andb_false_r; try reflexivity.
  unfold array_map. now rewrite (mapM_strings _ Ht).
Qed.

Lemma excerpt_renderable :
  string_or_falsy (field post "excerpt") = true ->
  truthy (field post "excerpt") || string_or_falsy (field post "description") = true ->
  excerpt_or_description post = Normal (VString (shown_excerpt post)).
Proof.
  intros He Hd. unfold excerpt_or_description, shown_excerpt. rewrite !Hget. cbn [cbind].
  destruct (string_or_falsy_cases _ He) as [(s & Hs & Hne & Htr)|Hfalse].
  - now rewrite Htr, (text_field_truthy _ _ _ Hs Hne), Hs.
  - rewrite Hfalse in *. rewrite (text_field_falsy _ _ Hfalse). simpl in Hd.
    destruct (string_or_falsy_cases _ Hd) as [(s & Hs & Hne & Htr)|Hfalse'].
    + now rewrite Htr, (text_field_truthy _ _ _ Hs Hne), Hs.
    + now rewrite Hfalse', (text_field_falsy _ _ Hfalse').
Qed.

Lemma author_markup_renderable :
  string_or_falsy (field post "author") = true ->
  author_markup post
  = Normal (author_part (option_map escape_text (text_field post "author"))).
Proof.
  intros Ha. unfold author_markup. rewrite Hget. cbn [cbind].
  destruct (string_or_falsy_cases _ Ha) as [(s & Hs & Hne & Htr)|Hfalse].
  - rewrite Htr, (text_field_truthy _ _ _ Hs Hne), Hs. reflexivity.
  - now rewrite Hfalse, (text_field_falsy _ _ Hfalse).
Qed.

Lemma url_renderable :
  string_or_falsy (field post "url") = true ->
  url_or_anchor post
  = Normal (VString (match text_field post "url" with Some u => u | None => "#" end)).
Proof.
  intros Hu. unfold url_or_anchor. rewrite Hget. cbn [cbind].
  destruct (string_or_falsy_cases _ Hu) as [(s & Hs & Hne & Htr)|Hfalse].
  - now rewrite Htr, (text_field_truthy _ _ _ Hs Hne), Hs.
  - now rewrite Hfalse, (text_field_falsy _ _ Hfalse).
Qed.

End Renderable.

Lemma new_Date_converts (H : host) (v : value) :
  converts v = true -> exists d, new_Date H v = Normal d.
Proof.
  unfold converts. destruct (new_Date H v) as [d|e] eqn:Ed; [eauto|].
  now rewrite (new_Date_throws _ _ _ Ed).
Qed.

Lemma formatDate_renderable (H : host) (v : value) (st : page) :
  negb (truthy v) || converts v = true ->
  formatDate H v st = (Normal (VString (formatted_date H v)), st).
Proof.
  intros Hv. unfold formatted_date, formatDate, try_catch, bind, lift, ret.
  destruct (truthy v); [|reflexivity]. simpl in Hv. cbn [negb].
  destruct (new_Date_converts H v Hv) as [d ->]. reflexivity.
Qed.

Lemma formatted_date_chars (H : host) (v : value) :
  string_forallb date_char (formatted_date H v) = true.
Proof.
  unfold formatted_date.
  destruct (formatDate H v empty_page) as [[f|e] st'] eqn:Ef; [|reflexivity].
  cbn [fst]. destruct f; try reflexivity.
  apply (formatDate_date_chars _ _ _ _ _ _ Ef). reflexivity.
Qed.

Lemma date_char_escape (D : string) :
  string_forallb date_char D = true -> escape_text D = D /\ dom_text D = D.
Proof.
  intros HD. split.
  - apply escape_text_fixed. revert HD. apply string_forallb_impl.
    intros c Hc. now apply date_char_plain.
  - apply dom_text_plain. unfold plain_text. revert HD. apply string_forallb_impl.
    intros c Hc. destruct (date_char_plain c Hc) as (_ & -> & ->). reflexivity.
Qed.

Lemma rendered_formatted_date (H : host) (v : value) :
  no_lt (formatted_date H v) = true /\ rendered_text (formatted_date H v) = formatted_date H v.
Proof.
  destruct (date_char_escape _ (formatted_date_chars H v)) as [He Hd]. split.
  - rewrite <- He. apply no_lt_escape.
  - rewrite <- He at 1. now rewrite rendered_text_escape.
Qed.

Lemma renderable_fields (post : value) :
  renderable post = true ->
  converts (field post "id") = true /\
  string_or_falsy (field post "image") = true /\
  match field post "tags" with
  | VArray items => forallb is_string items
  | _ => true
  end = true /\
  is_string (field post "title") = true /\
  string_or_falsy (field post "excerpt") = true /\
  truthy (field post "excerpt") || string_or_falsy (field post "description") = true /\
  negb (truthy (field post "date")) || converts (field post "date") = true /\
  string_or_falsy (field post "author") = true /\
  string_or_falsy (field post "url") = true.
Proof.
  unfold renderable. rewrite !andb_true_iff. tauto.
Qed.

Lemma rendered_tag_texts (items : list value) :
  List.map rendered_text (List.map escape_text (List.map string_value items))
  = List.map (fun t => dom_text (string_value t)) items.
Proof. rewrite !map_map. apply map_ext. intros v. apply rendered_text_escape. Qed.

(** A record that satisfies [renderable] renders, on any page and without
    touching it, to [rendered_article]. *)
Lemma createPostElement_renderable (H : host) (post : value) (st : page) :
  renderable post = true ->
  createPostElement H post st = (Normal (rendered_article H post), st).
Proof.
  intros Hr. apply renderable_fields in Hr.
  destruct Hr as (Hid & Himg & Htags & Htitle & Hex & Hde & Hdate & Hauthor & Hurl).
  pose proof (get_field post Htitle) as Hget.
  destruct (field post "title") as [| |b|n|t|items|props] eqn:Et; try discriminate Htitle.
  unfold createPostElement.
  rewrite (image_markup_renderable post Hget t Himg Et).
  rewrite (tags_markup_renderable post Hget Htags).
  rewrite (excerpt_renderable post Hget Hex Hde).
  rewrite (author_markup_renderable post Hget Hauthor).
  rewrite (url_renderable post Hget Hurl).
  rewrite !Hget, Et. cbn [cbind escapeHtml].
  unfold converts in Hid. destruct (to_string (field post "id")) as [data_id|e] eqn:Eid;
    [|discriminate].
  repeat first [run_step | rewrite Eid].
  unfold bind at 1. rewrite (formatDate_renderable H _ st Hdate).
  cbn [to_string]. repeat run_step. unfold ret. f_equal.
  unfold rendered_article. rewrite Et, Eid. cbn [string_value]. f_equal.
  destruct (rendered_formatted_date H (field post "date")) as [HD1 HD2].
  rewrite article_nodes; try apply inert_escape; trivial.
  - rewrite !rendered_text_escape, attr_text_escape, HD2.
    destruct (text_field post "image"), (field post "tags"), (text_field post "author");
      cbn [option_map fst snd];
      rewrite ?attr_text_escape, ?rendered_text_escape, ?rendered_tag_texts; reflexivity.
  - destruct (text_field post "image"); cbn [option_map]; [|exact I].
    split; apply inert_escape.
  - destruct (field post "tags"); try exact I.
    apply Forall_forall. intros m Hm. apply in_map_iff in Hm.
    destruct Hm as (x & <- & _). apply inert_escape.
  - destruct (text_field post "author"); cbn [option_map]; [|exact I]. apply inert_escape.
Qed.

Lemma get_defined (post : value) (k0 : string) (v : value) :
  get post k0 = Normal v -> forall k, get post k = Normal (field post k).
Proof.
  intros Hg k. unfold field. destruct post; try discriminate Hg; reflexivity.
Qed.

Lemma escapeHtml_is_string (v : value) (s : string) :
  escapeHtml v = Normal s -> is_string v = true.
Proof. destruct v; simpl; try discriminate. reflexivity. Qed.

Lemma string_or_falsy_escaped (v : value) :
  (truthy v = true -> exists s, escapeHtml v = Normal s) -> string_or_falsy v = true.
Proof.
  unfold string_or_falsy. intros Hv. destruct (truthy v); [|apply orb_true_r].
  destruct (Hv eq_refl) as [s Hs]. now rewrite (escapeHtml_is_string _ _ Hs).
Qed.

Section Returned.

Variable post : value.
Hypothesis Hget : forall k, get post k = Normal (field post k).

Lemma image_markup_returns (s : string) :
  image_markup post = Normal s -> string_or_falsy (field post "image") = true.
Proof.
  unfold image_markup. rewrite !Hget. cbn [cbind]. intros Hi.
  apply string_or_falsy_escaped. intros Ht. rewrite Ht in Hi.
  destruct (escapeHtml (field post "image")) as [src|e]; [eauto|discriminate].
Qed.

Lemma tags_markup_returns (s : string) :
  tags_markup post = Normal s ->
  match field post "tags" with
  | VArray items => forallb is_string items
  | _ => true
  end = true.
Proof.
  intros Ht. apply tags_markup_success in Ht. rewrite Hget in Ht.
  destruct (field post "tags"); try reflexivity.
  destruct Ht as (l & -> & _). clear. induction l; simpl; trivial.
Qed.

Lemma excerpt_returns (shown : value) (s : string) :
  excerpt_or_description post = Normal shown -> escapeHtml shown = Normal s ->
  string_or_falsy (field post "excerpt") = true /\
  truthy (field post "excerpt") || string_or_falsy (field post "description") = true.
Proof.
  unfold excerpt_or_description. rewrite !Hget. cbn [cbind].
  destruct (truthy (field post "excerpt")) eqn:Ee.
  - intros [= <-] Hs. split; [|reflexivity].
    unfold string_or_falsy. now rewrite (escapeHtml_is_string _ _ Hs).
  - intros [= <-] Hs. split.
    + unfold string_or_falsy. rewrite Ee. apply orb_true_r.
    + simpl. apply string_or_falsy_escaped. intros Hd. rewrite Hd in Hs. eauto.
Qed.

Lemma author_markup_returns (s : string) :
  author_markup post = Normal s -> string_or_falsy (field post "author") = true.
Proof.
  unfold author_markup. rewrite !Hget. cbn [cbind]. intros Ha.
  apply string_or_falsy_escaped. intros Ht. rewrite Ht in Ha.
  destruct (escapeHtml (field post "author")) as [a|e]; [eauto|discriminate].
Qed.

Lemma url_returns (target : value) (s : string) :
  url_or_anchor post = Normal target -> escapeHtml target = Normal s ->
  string_or_falsy (field post "url") = true.
Proof.
  unfold url_or_anchor. rewrite !Hget. cbn [cbind]. intros [= <-] Hs.
  apply string_or_falsy_escaped. intros Ht. rewrite Ht in Hs. eauto.
Qed.

End Returned.

Lemma formatDate_returns (H : host) (v f : value) (st st' : page) (D : string) :
  formatDate H v st = (Normal f, st') -> to_string f = Normal D ->
  negb (truthy v) || converts v = true.
Proof.
  unfold formatDate, try_catch, bind, lift, ret, console_error.
  destruct (truthy v) eqn:Et; [|reflexivity]. cbn [negb orb]. unfold converts.
  destruct (new_Date H v) as [d|e] eqn:Ed.
  - intros _ _. destruct v as [| |b|n|s|items|props]; try reflexivity; unfold new_Date in Ed.
    + now destruct b.
    + destruct (to_string (VArray items)); [reflexivity|discriminate].
    + destruct (to_string (VObject props)); [reflexivity|discriminate].
  - intros [= <- _] Hs. now rewrite Hs.
Qed.

(** Only a record that satisfies [renderable] renders. *)
Lemma createPostElement_returns (H : host) (post : value) (st st' : page) (article : node) :
  createPostElement H post st = (Normal article, st') -> renderable post = true.
Proof.
  unfold createPostElement. intros Hc.
  destruct (get post "id") as [id|e] eqn:Eg; [|rewrite bind_lift_throw in Hc; discriminate].
  pose proof (get_defined _ _ _ Eg) as Hget. rewrite Hget in Eg. injection Eg as <-.
  rewrite bind_lift_normal in Hc.
  destruct (to_string (field post "id")) as [data_id|e] eqn:Eid;
    [|rewrite bind_lift_throw in Hc; discriminate].
  rewrite bind_lift_normal in Hc.
  destruct (image_markup post) as [imageHTML|e] eqn:Ei;
    [|rewrite bind_lift_throw in Hc; discriminate].
  rewrite bind_lift_normal in Hc.
  destruct (tags_markup post) as [tagsHTML|e] eqn:Et;
    [|rewrite bind_lift_throw in Hc; discriminate].
  rewrite bind_lift_normal in Hc.
  rewrite !Hget in Hc. cbn [cbind] in Hc.
  destruct (escapeHtml (field post "title")) as [T|e] eqn:ET;
    [|rewrite bind_lift_throw in Hc; discriminate].
  rewrite bind_lift_normal in Hc.
  destruct (excerpt_or_description post) as [shown|e] eqn:Ex; cbn [cbind] in Hc;
    [|rewrite bind_lift_throw in Hc; discriminate].
  destruct (escapeHtml shown) as [X|e] eqn:EX;
    [|rewrite bind_lift_throw in Hc; discriminate].
  rewrite !bind_lift_normal in Hc.
  unfold bind at 1 in Hc.
  destruct (formatDate H (field post "date") st) as [[formatted|e] st1] eqn:Ef;
    [|discriminate].
  destruct (to_string formatted) as [D|e] eqn:ED;
    [|rewrite bind_lift_throw in Hc; discriminate].
  rewrite bind_lift_normal in Hc.
  destruct (author_markup post) as [authorHTML|e] eqn:Ea;
    [|rewrite bind_lift_throw in Hc; discriminate].
  rewrite bind_lift_normal in Hc.
  destruct (url_or_anchor post) as [target|e] eqn:Eu; cbn [cbind] in Hc;
    [|rewrite bind_lift_throw in Hc; discriminate].
  destruct (escapeHtml target) as [U|e] eqn:EU;
    [|rewrite bind_lift_throw in Hc; discriminate].
  clear Hc.
  destruct (excerpt_returns post Hget _ _ Ex EX) as [He1 He2].
  unfold renderable. unfold converts at 1. rewrite Eid.
  rewrite (image_markup_returns post Hget _ Ei), (tags_markup_returns post Hget _ Et),
    (escapeHtml_is_string _ _ ET), He1, He2, (formatDate_returns _ _ _ _ _ _ Ef ED),
    (author_markup_returns post Hget _ Ea), (url_returns post Hget _ _ Eu EU).
  reflexivity.
Qed.

(** X9: [createPostElement] returns an element exactly for the records
    that satisfy [renderable]: the title is a string; the image, the
    excerpt, the description that stands in for the excerpt, the author and
    the url are strings or falsy; the tags, when an array, hold strings
    only; the identifier and a truthy date can be converted to a string.
    On every other record, on any host and page, it throws. *)
Theorem createPostElement_renders_exactly_the_well_formed_records
        (H : host) (post : value) (st : page) :
  (exists article st', createPostElement H post st = (Normal article, st'))
  <-> renderable post = true.
Proof.
  split.
  - intros (article & st' & Hc). exact (createPostElement_returns _ _ _ _ _ Hc).
  - intros Hr. exists (rendered_article H post), st.
    now apply createPostElement_renderable.
Qed.



(* ----------------------------------------------------------------- *)
(** ** Rendering a list of records *)

Lemma stable_ret {A} (a : A) : container_stable (ret a).
Proof. intros st. reflexivity. Qed.

Lemma stable_lift {A} (c : completion A) : container_stable (lift c).
Proof. intros st. reflexivity. Qed.

Lemma stable_console_error msg err : container_stable (console_error msg err).
Proof. intros st. reflexivity. Qed.

Lemma stable_bind {A B} (m : M A) (k : A -> M B) :
  container_stable m -> (forall a, container_stable (k a)) -> container_stable (bind m k).
Proof.
  intros Hm Hk st. unfold bind. specialize (Hm st).
  destruct (m st) as [[a|e] st']; simpl in *; [now rewrite Hk|exact Hm].
Qed.

Lemma stable_try_catch {A} (m : M A) (h : error -> M A) :
  container_stable m -> (forall e, container_stable (h e)) ->
  container_stable (try_catch m h).
Proof.
  intros Hm Hh st. unfold try_catch. specialize (Hm st).
  destruct (m st) as [[a|e] st']; simpl in *; [exact Hm|now rewrite Hh].
Qed.

Ltac stable :=
  repeat first
    [ apply stable_ret | apply stable_lift | apply stable_console_error
    | apply stable_try_catch; [|intro]
    | apply stable_bind; [|intro]
    | match goal with |- container_stable (if ?b then _ else _) => destruct b end ].

Lemma stable_formatDate (H : host) (v : value) : container_stable (formatDate H v).
Proof. unfold formatDate. stable. Qed.

Lemma stable_createPostElement (H : host) (post : value) :
  container_stable (createPostElement H post).
Proof. unfold createPostElement. stable; apply stable_formatDate. Qed.

(** A record that does not satisfy [renderable] makes [createPostElement]
    throw, with the container as it was. *)
Lemma createPostElement_throws (H : host) (post : value) (st : page) :
  renderable post = false ->
  exists e st', createPostElement H post st = (Throw e, st') /\ container st' = container st.
Proof.
  intros Hr. pose proof (stable_createPostElement H post st) as Hs.
  destruct (createPostElement H post st) as [[a|e] st'] eqn:Ec.
  - apply createPostElement_returns in Ec. congruence.
  - eauto.
Qed.

(** The loop of [renderPosts] over records that all render. *)
Lemma forEach_renderable (H : host) (posts : list value) (st : page) :
  forallb renderable posts = true ->
  forEach (fun post =>
             postElement <- createPostElement H post ;;
             appendChild postElement) posts st
  = (Normal tt,
     {| container := option_map (fun kids => (kids ++ List.map (rendered_article H) posts)%list)
                       (container st);
        console := console st |}).
Proof.
  revert st. induction posts as [|post posts IH]; intros st Hp.
  - simpl. unfold ret. destruct st as [[kids|] log]; simpl; now rewrite ?app_nil_r.
  - simpl in Hp. apply andb_true_iff in Hp. destruct Hp as [Hpost Hrest].
    cbn [forEach]. unfold bind at 1. unfold bind at 1.
    rewrite (createPostElement_renderable H post st Hpost).
    unfold appendChild at 1. rewrite (IH _ Hrest). cbn [container console].
    destruct st as [[kids|] log]; cbn [option_map container console]; [|reflexivity].
    now rewrite <- app_assoc.
Qed.

(** The loop stops at the first record that does not render. *)
Lemma forEach_stops (H : host) (before after : list value) (bad : value) (st : page) :
  forallb renderable before = true ->
  renderable bad = false ->
  exists e st',
    forEach (fun post =>
               postElement <- createPostElement H post ;;
               appendChild postElement) (before ++ bad :: after) st
    = (Throw e, st') /\
    container st'
    = option_map (fun kids => (kids ++ List.map (rendered_article H) before)%list)
        (container st).
Proof.
  revert st. induction before as [|post before IH]; intros st Hb Hbad.
  - cbn [app forEach]. unfold bind at 1. unfold bind at 1.
    destruct (createPostElement_throws H bad st Hbad) as (e & st' & -> & Hc).
    exists e, st'. split; [reflexivity|]. rewrite Hc.
    destruct (container st); simpl; now rewrite ?app_nil_r.
  - simpl in Hb. apply andb_true_iff in Hb. destruct Hb as [Hpost Hrest].
    cbn [app forEach]. unfold bind at 1. unfold bind at 1.
    rewrite (createPostElement_renderable H post st Hpost).
    unfold appendChild at 1.
    destruct (IH {| container := option_map (fun kids => (kids ++ [rendered_article H post])%list)
                                   (container st);
                    console := console st |} Hrest Hbad) as (e & st' & -> & Hc).
    exists e, st'. split; [reflexivity|]. rewrite Hc. cbn [container].
    destruct (container st); cbn [option_map List.map]; [|reflexivity].
    now rewrite <- app_assoc.
Qed.

Lemma renderPosts_array (H : host) (post : value) (posts : list value) (st : page)
      (old : list node) :
  container st = Some old ->
  renderPosts H (VArray (post :: posts)) st
  = forEach (fun post =>
               postElement <- createPostElement H post ;;
               appendChild postElement) (post :: posts)
      {| container := Some []; console := console st |}.
Proof.
  intros Hc. unfold renderPosts. rewrite Hc.
  unfold bind at 1, set_innerHTML at 1. rewrite Hc. cbn [option_map].
  change (parse_html "") with (@nil node).
  change (get (VArray (post :: posts)) "length")
    with (Normal (VNumber (Z.of_nat (S (List.length posts))))).
  rewrite bind_lift_normal. unfold is_zero.
  replace (Z.of_nat (S (List.length posts)) =? 0)%Z with false
    by (symmetry; apply Z.eqb_neq; lia).
  reflexivity.
Qed.

(** X11: on a non-empty array of records that all render, [renderPosts]
    replaces whatever the container held by the articles of the records,
    one for each, in array order, and logs nothing. *)
Theorem renderPosts_shows_every_record_in_array_order
        (H : host) (posts : list value) (st : page) (old : list node) :
  container st = Some old ->
  posts <> [] ->
  forallb renderable posts = true ->
  renderPosts H (VArray posts) st
  = (Normal tt,
     {| container := Some (List.map (rendered_article H) posts); console := console st |}).
Proof.
  intros Hc Hne Hp. destruct posts as [|post posts]; [contradiction|].
  rewrite (renderPosts_array H post posts st old Hc).
  now rewrite (forEach_renderable H (post :: posts) _ Hp).
Qed.

Lemma renderPosts_shows_every_record_in_array_order_witness :
  let st := {| container := Some [Text "loading"]; console := [] |} in
  renderPosts utc_host (VArray [titled 1 "One"; titled 2 "Two"]) st
  = (Normal tt,
     {| container := Some [rendered_article utc_host (titled 1 "One");
                           rendered_article utc_host (titled 2 "Two")];
        console := [] |}).
Proof.
  intros st.
  apply (renderPosts_shows_every_record_in_array_order utc_host
           [titled 1 "One"; titled 2 "Two"] st [Text "loading"]).
  - reflexivity.
  - discriminate.
  - reflexivity.
Defined.

(** X12: called on an array with a record that does not render,
    [renderPosts] throws at the first such record and leaves in the
    container the articles of the records before it: the records after it
    are not rendered. *)
Theorem renderPosts_stops_at_the_first_record_that_fails
        (H : host) (before after : list value) (bad : value) (st : page) (old : list node) :
  container st = Some old ->
  forallb renderable before = true ->
  renderable bad = false ->
  exists e st',
    renderPosts H (VArray (before ++ bad :: after)) st = (Throw e, st') /\
    container st' = Some (List.map (rendered_article H) before).
Proof.
  intros Hc Hb Hbad.
  assert (Hshape : exists post posts, (before ++ bad :: after)%list = post :: posts).
  { destruct before; simpl; eauto. }
  destruct Hshape as (post & posts & Hshape). rewrite Hshape.
  rewrite (renderPosts_array H post posts st old Hc). rewrite <- Hshape.
  destruct (forEach_stops H before after bad {| container := Some []; console := console st |}
              Hb Hbad) as (e & st' & Hf & Hk).
  exists e, st'. split; [exact Hf|]. rewrite Hk. reflexivity.
Qed.

Lemma renderPosts_stops_at_the_first_record_that_fails_witness :
  let st := {| container := Some [Text "loading"]; console := [] |} in
  exists e st',
    renderPosts utc_host
      (VArray ([titled 1 "One"] ++ VObject [("id", VNumber 2)] :: [titled 3 "Three"])) st
    = (Throw e, st') /\
    container st' = Some (List.map (rendered_article utc_host) [titled 1 "One"]).
Proof.
  intros st.
  apply (renderPosts_stops_at_the_first_record_that_fails utc_host
           [titled 1 "One"] [titled 3 "Three"] (VObject [("id", VNumber 2)]) st
           [Text "loading"]); reflexivity.
Defined.

Lemma presence_of_stable {A} (m : M A) : container_stable m -> presence_stable m.
Proof. intros Hm st. now rewrite Hm. Qed.

Lemma presence_set_innerHTML (s : string) : presence_stable (set_innerHTML s).
Proof. intros st. simpl. destruct (container st); simpl; split; congruence. Qed.

Lemma presence_appendChild (n : node) : presence_stable (appendChild n).
Proof. intros st. simpl. destruct (container st); simpl; split; congruence. Qed.

Lemma presence_throw {A} (e : error) : presence_stable (throw (A := A) e).
Proof. intros st. reflexivity. Qed.

Lemma presence_bind {A B} (m : M A) (k : A -> M B) :
  presence_stable m -> (forall a, presence_stable (k a)) -> presence_stable (bind m k).
Proof.
  intros Hm Hk st. unfold bind. specialize (Hm st).
  destruct (m st) as [[a|e] st']; simpl in *; [|exact Hm].
  exact (iff_trans (Hk a st') Hm).
Qed.

Lemma presence_try_catch {A} (m : M A) (h : error -> M A) :
  presence_stable m -> (forall e, presence_stable (h e)) ->
  presence_stable (try_catch m h).
Proof.
  intros Hm Hh st. unfold try_catch. specialize (Hm st).
  destruct (m st) as [[a|e] st']; simpl in *; [exact Hm|].
  exact (iff_trans (Hh e st') Hm).
Qed.

Lemma presence_forEach {A} (f : A -> M unit) (l : list A) :
  (forall x, presence_stable (f x)) -> presence_stable (forEach f l).
Proof.
  intros Hf. induction l as [|x l IH]; [intros st; reflexivity|].
  cbn [forEach]. apply presence_bind; [apply Hf|intros _; exact IH].
Qed.

Lemma presence_renderPosts (H : host) (v : value) : presence_stable (renderPosts H v).
Proof.
  intros st. unfold renderPosts. destruct (container st) as [old|] eqn:Hc.
  - rewrite <- Hc.
    apply (presence_bind (set_innerHTML EmptyString)); [apply presence_set_innerHTML|].
    intros _. apply presence_bind; [apply presence_of_stable, stable_lift|].
    intros len. destruct (is_zero len); [apply presence_set_innerHTML|].
    unfold array_forEach. destruct v; try apply presence_throw.
    apply presence_forEach. intros post.
    apply presence_bind; [apply presence_of_stable, stable_createPostElement|].
    intros el. apply presence_appendChild.
  - simpl. now rewrite Hc.
Qed.

Lemma presence_displayError (v : value) : presence_stable (displayError v).
Proof.
  intros st. unfold displayError. destruct (container st) as [old|] eqn:Hc.
  - rewrite <- Hc. apply presence_bind; [apply presence_of_stable, stable_lift|].
    intros text. apply presence_set_innerHTML.
  - simpl. now rewrite Hc.
Qed.

Lemma presence_loadPosts (H : host) (r : fetch_result) : presence_stable (loadPosts H r).
Proof.
  unfold loadPosts. apply presence_try_catch.
  - destruct r as [|ok status [v|]]; try apply presence_throw;
      destruct ok; try apply presence_throw. apply presence_renderPosts.
  - intros e. apply presence_bind; [apply presence_of_stable, stable_console_error|].
    intros _. apply presence_displayError.
Qed.

Lemma parse_error_box (message : string) :
  parse_html (error_html (escape_text message)) = [error_box message].
Proof.
  pose proof (no_lt_escape message) as Hm.
  rewrite parse_html_finish. unfold error_html. eval_markup. rewrite ?append_assoc.
  tokens_run. grow_run. finish_tree. unfold error_box.
  now rewrite rendered_text_escape.
Qed.

(** X13: [displayError] replaces the content of the container by one
    [div] of class [error-message] whose text is the message, whatever
    characters the message holds; on a message that is not a string it
    throws a [TypeError] and leaves the page as it was. *)
Theorem displayError_shows_any_message_as_text (st : page) (old : list node) :
  container st = Some old ->
  (forall message,
     displayError (VString message) st
     = (Normal tt, {| container := Some [error_box message]; console := console st |}) /\
     textContent (error_box message) = dom_text message /\
     (plain_text message = true -> textContent (error_box message) = message)) /\
  (forall v, is_string v = false ->
     exists msg, displayError v st = (Throw (TypeError msg), st)).
Proof.
  intros Hc. split.
  - intros message. split; [|split].
    + unfold displayError. rewrite Hc. cbn [escapeHtml]. rewrite bind_lift_normal.
      unfold set_innerHTML. rewrite Hc. cbn [option_map]. now rewrite parse_error_box.
    + apply textContent_text_children.
    + intros Hp. unfold error_box. cbn [textContent].
      rewrite textContent_text_children. now apply dom_text_plain.
  - intros v Hv. unfold displayError. rewrite Hc.
    destruct v; try discriminate Hv; cbn [escapeHtml]; rewrite bind_lift_throw; eauto.
Qed.

Lemma displayError_shows_any_message_as_text_witness :
  let st := {| container := Some [Text "loading"]; console := [] |} in
  (forall message,
     displayError (VString message) st
     = (Normal tt, {| container := Some [error_box message]; console := console st |}) /\
     textContent (error_box message) = dom_text message /\
     (plain_text message = true -> textContent (error_box message) = message)) /\
  (forall v, is_string v = false ->
     exists msg, displayError v st = (Throw (TypeError msg), st)).
Proof.
  intros st.
  apply (displayError_shows_any_message_as_text st [Text "loading"]). reflexivity.
Defined.

Lemma forallb_first_false {A} (f : A -> bool) (l : list A) :
  forallb f l = false ->
  exists before bad after,
    l = (before ++ bad :: after)%list /\ forallb f before = true /\ f bad = false.
Proof.
  induction l as [|x l IH]; [discriminate|]. simpl.
  destruct (f x) eqn:Ex.
  - simpl. intros Hl. destruct (IH Hl) as (before & bad & after & -> & Hb & Hbad).
    exists (x :: before), bad, after. simpl. rewrite Ex. auto.
  - intros _. exists [], x, l. auto.
Qed.

Lemma renderPosts_no_array (H : host) (v : value) (st : page) (old : list node) :
  isArray v = false ->
  container st = Some old ->
  if is_zero (field v "length")
  then renderPosts H v st
       = (Normal tt, {| container := Some [no_posts_element]; console := console st |})
  else exists msg,
         renderPosts H v st
         = (Throw (TypeError msg), {| container := Some []; console := console st |}).
Proof.
  intros Hv Hc.
  assert (Hr : renderPosts H v st
               = (len <- lift (get v "length") ;;
                  if is_zero len then set_innerHTML no_posts_html
                  else array_forEach v (fun post =>
                         postElement <- createPostElement H post ;;
                         appendChild postElement))
                   {| container := Some []; console := console st |}).
  { unfold renderPosts. rewrite Hc. unfold bind at 1, set_innerHTML at 1. now rewrite Hc. }
  rewrite Hr. clear Hr. unfold field.
  destruct (get v "length") as [len|e] eqn:Eg.
  - rewrite bind_lift_normal. destruct (is_zero len); [reflexivity|].
    destruct v; try discriminate Hv; unfold array_forEach, throw; eauto.
  - rewrite bind_lift_throw. cbn [is_zero].
    destruct v; try discriminate Eg; injection Eg as <-; eauto.
Qed.

(** X14: on a value that is not an array, [renderPosts] shows the
    placeholder when the [length] of the value is 0 (the empty string, an
    object with such a property); on any other value it throws a
    [TypeError], having emptied the container. *)
Theorem renderPosts_on_a_value_that_is_no_array
        (H : host) (v : value) (st : page) (old : list node) :
  isArray v = false ->
  container st = Some old ->
  (is_zero (field v "length") = true ->
   renderPosts H v st
   = (Normal tt, {| container := Some [no_posts_element]; console := console st |})) /\
  (is_zero (field v "length") = false ->
   exists msg,
     renderPosts H v st
     = (Throw (TypeError msg), {| container := Some []; console := console st |})).
Proof.
  intros Hv Hc. pose proof (renderPosts_no_array H v st old Hv Hc) as Hr.
  destruct (is_zero (field v "length")); split; intros E; try discriminate E; exact Hr.
Qed.

Lemma renderPosts_on_a_value_that_is_no_array_witness :
  let st := {| container := Some [Text "loading"]; console := [] |} in
  (is_zero (field (VObject [("posts", VArray [])]) "length") = true ->
   renderPosts utc_host (VObject [("posts", VArray [])]) st
   = (Normal tt, {| container := Some [no_posts_element]; console := console st |})) /\
  (is_zero (field (VObject [("posts", VArray [])]) "length") = false ->
   exists msg,
     renderPosts utc_host (VObject [("posts", VArray [])]) st
     = (Throw (TypeError msg), {| container := Some []; console := console st |})).
Proof.
  intros st.
  apply (renderPosts_on_a_value_that_is_no_array utc_host (VObject [("posts", VArray [])])
           st [Text "loading"]); reflexivity.
Defined.

(** X15: after a response with a JSON body, [loadPosts] returns normally
    and the container holds one of three things: the articles of all the
    records, when the body is a non-empty array of records that render;
    the placeholder, when the body is an empty array or another value of
    [length] 0; the error message in every other case.  It never holds a
    part of the records, and nothing is logged unless the error message is
    shown. *)
Theorem loadPosts_shows_all_records_the_placeholder_or_the_error
        (H : host) (status : Z) (v : value) (st : page) (old : list node) :
  container st = Some old ->
  exists log,
    loadPosts H (Response true status (Some v)) st
    = (Normal tt, {| container := Some (shown_for H v); console := log |}) /\
    (shown_for H v <> [error_element] -> log = console st).
Proof.
  intros Hc. unfold loadPosts. cbn [negb].
  assert (Hcaught : forall e st', renderPosts H v st = (Throw e, st') ->
            container st' <> None ->
            exists log,
              try_catch (renderPosts H v)
                (fun error =>
                   console_error "Error loading posts:" (Some error) ;;;
                   displayError (VString failure_message)) st
              = (Normal tt, {| container := Some [error_element]; console := log |})).
  { intros e st' Hr Hk. rewrite (loadPosts_caught _ _ _ _ Hr).
    destruct (container st'); [|contradiction]. eexists. reflexivity. }
  destruct (isArray v) eqn:Ev.
  - destruct v as [| |b|n|s|[|post posts]|props]; try discriminate Ev.
    + exists (console st). split; [|reflexivity]. unfold try_catch, renderPosts. rewrite Hc.
      unfold bind at 1, set_innerHTML at 1. rewrite Hc. reflexivity.
    + cbn [shown_for]. destruct (forallb renderable (post :: posts)) eqn:Ep.
      * exists (console st). split; [|reflexivity]. unfold try_catch.
        rewrite (renderPosts_array H post posts st old Hc).
        now rewrite (forEach_renderable H (post :: posts) _ Ep).
      * destruct (forallb_first_false _ _ Ep) as (before & bad & after & Heq & Hb & Hbad).
        destruct (forEach_stops H before after bad
                    {| container := Some []; console := console st |} Hb Hbad)
          as (e & st' & Hr & Hk).
        rewrite <- Heq, <- (renderPosts_array H post posts st old Hc) in Hr.
        destruct (Hcaught e st' Hr) as [log Hlog]; [rewrite Hk; discriminate|].
        exists log. split; [exact Hlog|]. intros Hne. now destruct Hne.
  - pose proof (renderPosts_no_array H v st old Ev Hc) as Hr.
    assert (Hs : shown_for H v
                 = if is_zero (field v "length") then [no_posts_element]
                   else [error_element]).
    { destruct v; try reflexivity. discriminate Ev. }
    rewrite Hs. destruct (is_zero (field v "length")).
    + exists (console st). split; [|reflexivity]. unfold try_catch. now rewrite Hr.
    + destruct Hr as [msg Hr]. destruct (Hcaught _ _ Hr) as [log Hlog]; [discriminate|].
      exists log. split; [exact Hlog|]. intros Hne. now destruct Hne.
Qed.

Lemma loadPosts_shows_all_records_the_placeholder_or_the_error_witness :
  let st := {| container := Some [Text "loading"]; console := [] |} in
  let good := VObject [("id", VNumber 1); ("title", VString "First")] in
  let bad := VObject [("id", VNumber 2); ("title", VNumber 2)] in
  (exists log,
     loadPosts utc_host (Response true 200 (Some (VArray [good; bad]))) st
     = (Normal tt,
        {| container := Some (shown_for utc_host (VArray [good; bad])); console := log |}) /\
     (shown_for utc_host (VArray [good; bad]) <> [error_element] -> log = console st)) /\
  shown_for utc_host (VArray [good; bad]) = [error_element] /\
  shown_for utc_host (VArray [good; good])
  = [rendered_article utc_host good; rendered_article utc_host good] /\
  shown_for utc_host (VObject [("posts", VArray [good])]) = [error_element] /\
  shown_for utc_host (VString "") = [no_posts_element].
Proof.
  intros st good bad. split; [|repeat split].
  apply (loadPosts_shows_all_records_the_placeholder_or_the_error utc_host 200
           (VArray [good; bad]) st [Text "loading"]).
  reflexivity.
Defined.

(** X16: on a page without the container [loadPosts] returns normally,
    creates nothing and logs one line: the failure of the load, or
    [Posts container not found] when the body was fetched, whatever the
    body is. *)
Theorem loadPosts_without_the_container_only_logs
        (H : host) (r : fetch_result) (st : page) :
  container st = None ->
  loadPosts H r st
  = (Normal tt,
     {| container := None; console := (console st ++ [logged_without_container r])%list |}).
Proof.
  intros Hc. destruct st as [[kids|] log]; [discriminate|].
  destruct r as [|[|] status [v|]]; reflexivity.
Qed.

Lemma loadPosts_without_the_container_only_logs_witness :
  loadPosts utc_host (Response true 200 (Some VNull)) {| container := None; console := [] |}
  = (Normal tt, {| container := None; console := [("Posts container not found", None)] |}).
Proof.
  apply (loadPosts_without_the_container_only_logs utc_host (Response true 200 (Some VNull))
           {| container := None; console := [] |}).
  reflexivity.
Defined.

(** X17: [init] returns normally whatever the fetch brings and whatever
    the page holds, and the page has the container afterwards exactly when
    it had it before. *)
Theorem init_never_throws (H : host) (r : fetch_result) (st : page) :
  exists st',
    init H r st = (Normal tt, st') /\
    (container st' = None <-> container st = None).
Proof.
  unfold init. pose proof (presence_loadPosts H r st) as Hp.
  destruct (loadPosts H r st) as [[[]|e] st'] eqn:El.
  - exists st'. split; [reflexivity|exact Hp].
  - exfalso. unfold loadPosts, try_catch in El.
    match type of El with
    | context [match ?b with _ => _ end] => destruct b as [[[]|e0] st0]
    end; [discriminate|].
    unfold bind, console_error in El. rewrite displayError_failure_message in El.
    discriminate.
Qed.

(* ----------------------------------------------------------------- *)
(** ** The filters, call after call *)

Lemma lookup_erase (n : node) (q : path) :
  lookup (erase n) q = option_map erase (lookup n q).
Proof.
  revert n. induction q as [|i q IH]; intros n; [reflexivity|].
  simpl. rewrite child_nodes_erase, nth_error_map.
  destruct (nth_error (child_nodes n) i) as [c|]; [apply IH|reflexivity].
Qed.

Lemma lookup_same_structure (a b : node) (q : path) (ea : node) :
  erase a = erase b -> lookup a q = Some ea ->
  exists eb, lookup b q = Some eb /\ erase eb = erase ea.
Proof.
  intros He Ha. pose proof (lookup_erase a q) as H1. pose proof (lookup_erase b q) as H2.
  rewrite He, H2, Ha in H1. destruct (lookup b q) as [eb|]; [|discriminate].
  injection H1 as H1. eauto.
Qed.

(** Two documents with the same structure and text, and the same
    [style.display] at every node, are the same document. *)
Lemma node_ext (a : node) :
  forall b,
    erase a = erase b ->
    (forall q ea eb, lookup a q = Some ea -> lookup b q = Some eb ->
                     style_display ea = style_display eb) ->
    a = b.
Proof.
  induction a as [d|t attrs d ch IH] using node_induction; intros b He Hd.
  - destruct b; simpl in He; [congruence|discriminate].
  - destruct b as [d'|t' attrs' d' ch']; [discriminate|].
    simpl in He. injection He as -> -> Hch.
    assert (d = d') as -> by exact (Hd [] _ _ eq_refl eq_refl).
    f_equal.
    assert (Hkids : forall i q ea eb,
               lookup (Element t' attrs' d' ch) (i :: q) = Some ea ->
               lookup (Element t' attrs' d' ch') (i :: q) = Some eb ->
               style_display ea = style_display eb) by (intros; eapply Hd; eauto).
    clear Hd. revert ch' Hch Hkids.
    induction IH as [|x l Hx Hl IHl]; intros [|x' l'] Hch Hkids; try discriminate.
    + reflexivity.
    + simpl in Hch. injection Hch as Hx' Hl'. f_equal.
      * apply Hx; [exact Hx'|]. intros q ea eb Ha Hb. exact (Hkids O q ea eb Ha Hb).
      * apply IHl; [exact Hl'|]. intros i q ea eb Ha Hb. exact (Hkids (S i) q ea eb Ha Hb).
Qed.

(** A pass of the loop over the same elements overrides an earlier
    pass. *)
Lemma forEach_display_overrides (f g : node -> string) (posts : list path) (doc : node) :
  display_blind f -> display_blind g ->
  forEach_display g posts (forEach_display f posts doc) = forEach_display g posts doc.
Proof.
  intros Hf Hg.
  destruct (forEach_display_spec f Hf posts doc) as [E1 L1].
  destruct (forEach_display_spec g Hg posts (forEach_display f posts doc)) as [E2 L2].
  destruct (forEach_display_spec g Hg posts doc) as [E3 L3].
  apply node_ext; [congruence|].
  intros q e2 e3 H2 H3.
  destruct (lookup_same_structure _ doc q e3 E3 H3) as (e & He & _).
  destruct (L1 q e He) as (e1 & G1 & G2 & G3 & G4).
  destruct (L2 q e1 G1) as (e2' & K1 & K2 & K3 & K4).
  destruct (L3 q e He) as (e3' & M1 & M2 & M3 & M4).
  assert (e2' = e2) by congruence. assert (e3' = e3) by congruence. subst e2' e3'.
  destruct (in_dec path_eq_dec q posts) as [Hin|Hnin].
  - rewrite (K3 Hin), (M3 Hin), (Hg e1 e G2). now apply style_display_set_display_erase.
  - rewrite (K4 Hnin), (M4 Hnin). now apply G4.
Qed.

Lemma select_paths_same_structure (c : string) (a b : node) :
  erase a = erase b -> select_paths c a = select_paths c b.
Proof. intros He. now rewrite <- (select_paths_erase c a), He, select_paths_erase. Qed.

Lemma filterByTag_overrides (f : node -> string) (tag : string) (doc : node) :
  display_blind f ->
  filterByTag tag (forEach_display f (select_paths "post" doc) doc) = filterByTag tag doc.
Proof.
  intros Hf. unfold filterByTag.
  destruct (forEach_display_spec f Hf (select_paths "post" doc) doc) as [He _].
  rewrite (select_paths_same_structure "post" _ doc He).
  apply (forEach_display_overrides f (tag_display tag)); [exact Hf|apply tag_display_blind].
Qed.

Lemma searchPosts_overrides (f : node -> string) (query : string) (doc : node) :
  display_blind f ->
  searchPosts query (forEach_display f (select_paths "post" doc) doc) = searchPosts query doc.
Proof.
  intros Hf. unfold searchPosts.
  destruct (forEach_display_spec f Hf (select_paths "post" doc) doc) as [He _].
  rewrite (select_paths_same_structure "post" _ doc He).
  apply (forEach_display_overrides f (search_display query));
    [exact Hf|apply search_display_blind].
Qed.

(** X18: a call of [filterByTag] or [searchPosts] overrides what any
    earlier call of either had set: the document after two calls is the
    document after the second call alone; the filters do not combine, and
    each is idempotent. *)
Theorem the_last_filter_call_wins (tag tag' query query' : string) (doc : node) :
  filterByTag tag (filterByTag tag' doc) = filterByTag tag doc /\
  filterByTag tag (searchPosts query doc) = filterByTag tag doc /\
  searchPosts query (searchPosts query' doc) = searchPosts query doc /\
  searchPosts query (filterByTag tag doc) = searchPosts query doc /\
  filterByTag tag (filterByTag tag doc) = filterByTag tag doc /\
  searchPosts query (searchPosts query doc) = searchPosts query doc.
Proof.
  repeat split.
  - apply (filterByTag_overrides (tag_display tag')), tag_display_blind.
  - apply (filterByTag_overrides (search_display query)), search_display_blind.
  - apply (searchPosts_overrides (search_display query')), search_display_blind.
  - apply (searchPosts_overrides (tag_display tag)), tag_display_blind.
  - apply (filterByTag_overrides (tag_display tag)), tag_display_blind.
  - apply (searchPosts_overrides (search_display query)), search_display_blind.
Qed.





Lemma includes_empty (s : string) : includes s "" = true.
Proof. destruct s; reflexivity. Qed.

(** X20: [searchPosts] of the empty query shows every post, whatever was
    hidden before. *)
Theorem searchPosts_of_the_empty_query_shows_every_post (doc : node) :
  List.map style_display (select "post" (searchPosts "" doc))
  = List.map (fun _ => "block") (select "post" doc).
Proof.
  rewrite searchPosts_display. apply map_ext. intros post.
  unfold search_display. cbn [toLowerCase]. now rewrite includes_empty.
Qed.

Lemma select_paths_nil (c : string) (doc : node) :
  select c doc = [] -> select_paths c doc = [].
Proof.
  intros Hs. pose proof (select_paths_select c doc) as Hp. rewrite Hs in Hp.
  now apply map_eq_nil in Hp.
Qed.

(** X21: on a document without an element of class [post], the page
    before a load or with the placeholder or the error message, the two
    filters change nothing at all. *)
Theorem filters_leave_a_document_without_posts_as_it_is
        (tag query : string) (doc : node) :
  select "post" doc = [] ->
  filterByTag tag doc = doc /\ searchPosts query doc = doc.
Proof.
  intros Hs. apply select_paths_nil in Hs.
  unfold filterByTag, searchPosts. rewrite Hs. split; reflexivity.
Qed.

Lemma filters_leave_a_document_without_posts_as_it_is_witness :
  let doc := rendered_document utc_host [] in
  doc = Element "div" [("id", "posts-container")] "" [no_posts_element] /\
  filterByTag "x" doc = doc /\ searchPosts "cat" doc = doc.
Proof.
  intros doc. split; [reflexivity|].
  apply (filters_leave_a_document_without_posts_as_it_is "x" "cat" doc). reflexivity.
Defined.

(* ----------------------------------------------------------------- *)
(** ** From the records to what the filters show *)

Lemma select_tag_span (c t : string) :
  select c (tag_span t) = if String.eqb c "tag" then [tag_span t] else [].
Proof.
  unfold tag_span. cbn [select]. rewrite select_text_children, app_nil_r.
  cbn. now rewrite orb_false_r.
Qed.

Lemma select_tag_spans (c : string) (l : list string) :
  flat_map (select c) (List.map tag_span l)
  = if String.eqb c "tag" then List.map tag_span l else [].
Proof.
  induction l as [|t l IH]; [now destruct (String.eqb c "tag")|].
  cbn [List.map flat_map]. rewrite IH, select_tag_span.
  now destruct (String.eqb c "tag").
Qed.

Ltac select_tree :=
  repeat (cbn; rewrite ?flat_map_app, ?select_text_children, ?select_tag_spans,
            ?app_nil_r).

(** The elements of the classes that the filters and the style sheet
    name, in the tree of an article. *)
Lemma article_children_selects (img : option (string * string)) (title excerpt : string)
      (tags : option (list string)) (date : string) (author : option string)
      (href : string) :
  let kids := article_children img title excerpt tags date author href in
  flat_map (select "post") kids = [] /\
  flat_map (select "tag") kids
  = List.map tag_span (match tags with Some l => l | None => [] end) /\
  flat_map (select "post-title") kids
  = [Element "h2" [("class", "post-title")] "" (text_children title)] /\
  flat_map (select "post-excerpt") kids
  = [Element "p" [("class", "post-excerpt")] "" (text_children excerpt)] /\
  flat_map (select "post-image") kids
  = match img with
    | Some (src, alt) =>
        [Element "img" [("src", src); ("alt", alt); ("class", "post-image")] "" []]
    | None => []
    end /\
  flat_map (select "post-link") kids
  = [Element "a" [("href", href); ("class", "post-link")] "" [Text "Read More"]] /\
  flat_map (select "post-date") kids
  = [Element "span" [("class", "post-date")] "" (text_children date)] /\
  flat_map (select "post-author") kids
  = match author with
    | Some a => [Element "span" [("class", "post-author")] "" [Text ("By " ++ a)]]
    | None => []
    end.
Proof.
  intros kids. unfold kids, article_children, image_nodes, tags_nodes, author_nodes.
  destruct img as [[src alt]|]; destruct tags as [[|t l]|]; destruct author as [a|];
    repeat split; select_tree; reflexivity.
Qed.

Lemma rendered_article_children (H : host) (post : value) :
  exists data_id,
    rendered_article H post
    = Element "article" [("class", "post"); ("data-id", data_id)] ""
        (article_children
           (option_map
              (fun src => (attribute_text src,
                           attribute_text (string_value (field post "title"))))
              (text_field post "image"))
           (dom_text (string_value (field post "title")))
           (dom_text (shown_excerpt post))
           (match field post "tags" with
            | VArray items => Some (List.map (fun t => dom_text (string_value t)) items)
            | _ => None
            end)
           (formatted_date H (field post "date"))
           (option_map dom_text (text_field post "author"))
           (attribute_text
              (match text_field post "url" with
               | Some u => u
               | None => "#"
               end))).
Proof. eexists. reflexivity. Qed.

Lemma select_post_rendered_article (H : host) (post : value) :
  select "post" (rendered_article H post) = [rendered_article H post].
Proof.
  destruct (rendered_article_children H post) as [data_id ->].
  cbn [select].
  destruct (article_children_selects
              (option_map
                 (fun src => (attribute_text src,
                              attribute_text (string_value (field post "title"))))
                 (text_field post "image"))
              (dom_text (string_value (field post "title")))
              (dom_text (shown_excerpt post))
              (match field post "tags" with
               | VArray items => Some (List.map (fun t => dom_text (string_value t)) items)
               | _ => None
               end)
              (formatted_date H (field post "date"))
              (option_map dom_text (text_field post "author"))
              (attribute_text
                 (match text_field post "url" with
                  | Some u => u
                  | None => "#"
                  end))) as (-> & _).
  reflexivity.
Qed.

Lemma textContent_tag_span (t : string) : textContent (tag_span t) = t.
Proof. apply textContent_text_children. Qed.

Lemma tag_texts_rendered_article (H : host) (post : value) :
  tag_texts (rendered_article H post) = record_tags post.
Proof.
  destruct (rendered_article_children H post) as [data_id ->].
  unfold tag_texts, querySelectorAll. cbn [child_nodes].
  match goal with
  | |- context [article_children ?a ?b ?c ?d ?e ?f ?g] =>
      destruct (article_children_selects a b c d e f g) as (_ & -> & _)
  end.
  unfold record_tags. destruct (field post "tags"); try reflexivity.
  rewrite map_map.
  rewrite <- (map_id (List.map (fun t => dom_text (string_value t)) items)) at 2.
  apply map_ext. intros v. apply textContent_tag_span.
Qed.


Lemma rendered_document_renderable (H : host) (posts : list value) :
  posts <> [] -> forallb renderable posts = true ->
  rendered_document H posts
  = Element "div" [("id", "posts-container")] "" (List.map (rendered_article H) posts).
Proof.
  intros Hne Hp. unfold rendered_document, loadPosts, try_catch. cbn [negb].
  destruct posts as [|post posts]; [contradiction|].
  rewrite (renderPosts_array H post posts empty_page [] eq_refl).
  now rewrite (forEach_renderable H (post :: posts) _ Hp).
Qed.

Lemma select_post_rendered_document (H : host) (posts : list value) :
  select "post" (Element "div" [("id", "posts-container")] ""
                   (List.map (rendered_article H) posts))
  = List.map (rendered_article H) posts.
Proof.
  cbn [select]. change (has_class "post" _) with false. cbn [app].
  induction posts as [|post posts IH]; [reflexivity|].
  cbn [List.map flat_map]. now rewrite IH, select_post_rendered_article.
Qed.

Lemma filterByTag_display (tag : string) (doc : node) :
  List.map style_display (select "post" (filterByTag tag doc))
  = List.map (tag_display tag) (select "post" doc).
Proof.
  apply (forEach_display_select (tag_display tag) (tag_display_blind tag) "post" doc).
Qed.

(** X22: after a load of records that all render, [filterByTag] shows
    the post of a record exactly when the tag is one of the tags of the
    record, as the parser keeps them: the characters that [escapeHtml]
    replaced are matched as they were in the record. *)
Theorem filterByTag_on_rendered_records_goes_by_the_tags_of_the_records
        (H : host) (tag : string) (posts : list value) :
  posts <> [] -> forallb renderable posts = true ->
  List.map style_display (select "post" (filterByTag tag (rendered_document H posts)))
  = List.map (fun post => if array_includes (record_tags post) tag then "block" else "none")
      posts.
Proof.
  intros Hne Hp. rewrite (rendered_document_renderable H posts Hne Hp).
  rewrite filterByTag_display, select_post_rendered_document, map_map.
  apply map_ext. intros post.
  unfold tag_display. now rewrite tag_texts_rendered_article.
Qed.

Lemma filterByTag_on_rendered_records_goes_by_the_tags_of_the_records_witness :
  List.map style_display
    (select "post" (filterByTag "x" (rendered_document utc_host [tagged_x; tagged_w])))
  = List.map (fun post => if array_includes (record_tags post) "x" then "block" else "none")
      [tagged_x; tagged_w].
Proof.
  apply (filterByTag_on_rendered_records_goes_by_the_tags_of_the_records utc_host "x"
           [tagged_x; tagged_w]).
  - discriminate.
  - reflexivity.
Defined.






